(** * NetSentryX: flow aggregation and mitigation scheduling

    A shallow embedding of the parts of
    [realtime_agent/realtime_extractor.py] and [api/app.py] that carry the
    windowing, classification and block/unblock logic, followed by the
    properties established about them.

    Conventions of the embedding.
    - Python [int] is [Z]. A Python [float] is the rational number it
      holds ([Q]); NaN and the infinities are not represented. The
      subtraction [now - window_size] that fixes the start of the window
      is the binary64 operation [fsub]: the exact difference rounded to
      the nearest representable number, ties to even. The trimming loop
      compares timestamps with its result, so the rounding decides which
      events are kept. The other float expressions (spans, rates, waits,
      the idle age) are given by the exact value of the expression, which
      the computed float approximates to within one rounding per
      operation.
    - [datetime] is a number of microseconds since the epoch ([Z]) between
      [DATETIME_MIN] and [DATETIME_MAX]; [timedelta(seconds=d)] is
      [d * 1000000] microseconds. Building a [timedelta] beyond its day
      range, or adding one past [datetime.max], raises [OverflowError].
    - [dict] is a [gmap], [set] is a [gset], a [deque] and a MongoDB
      collection are lists (insertion order, duplicates allowed).
    - Clock readings, the classifier score and the outcome of external
      commands are explicit inputs of the functions that consult them.
    - [schedule_block_and_unblock] is a coroutine that other requests
      interleave with at its awaits. It is given twice: as stages, one per
      await, which are the transitions of the server ([step]); and as the
      run of one call that nothing interrupts. [detect] and the other
      administrative handlers are one transition each. Store operations
      on the block collections succeed. *)

From Stdlib Require Import ZArith QArith Qminmax Qround Qabs Qpower SpecFloat Sorted Lqa Lia.
From stdpp Require Import gmap strings list.

Local Open Scope Z_scope.

(** ** Python helpers on numbers *)

Definition Qlt_bool (x y : Q) : bool := negb (Qle_bool y x).

(** [max(a, b)] of Python: the first argument is kept unless the second is
    strictly greater. *)
Definition py_max (a b : Q) : Q := if Qlt_bool a b then b else a.

(** *** Binary64 rounding *)

(** [2 ^ e] for an integer exponent. *)
Definition pow2 (e : Z) : Q := Qpower 2 e.

(** The nearest integer, ties to the even one. *)
Definition rne (q : Q) : Z :=
  let f := Qfloor q in
  match Qcompare (q - inject_Z f) (1 # 2) with
  | Lt => f
  | Gt => f + 1
  | Eq => if Z.even f then f else f + 1
  end.

(** The binary exponent [e] of a non-zero number: [2 ^ (e - 1) <= |x| < 2 ^ e]. *)
Definition mag (x : Q) : Z :=
  let e := Z.log2 (Z.abs (Qnum x)) - Z.log2 (Zpos (Qden x)) in
  if Qle_bool (pow2 e) (Qabs x) then e + 1 else e.

(** The exponent of the unit in the last place of a binary64 number of
    the size of [x]: 53 significant bits, never below [2 ^ -1074]
    (gradual underflow). *)
Definition cexp (x : Q) : Z := Z.max (mag x - 53) (-1074).

(** Rounding to binary64: the nearest multiple of the unit in the last
    place, ties to even. A result beyond the largest binary64 number,
    which Python holds as [inf], is kept as its rounded value: it still
    compares above every binary64 number. *)
Definition round64 (x : Q) : Q :=
  if Qeq_bool x 0 then 0%Q
  else Qred (inject_Z (rne (x / pow2 (cexp x))) * pow2 (cexp x)).

(** [x - y] on floats. *)
Definition fsub (x y : Q) : Q := round64 (x - y).

(** The numbers that binary64 holds: those that rounding leaves alone. *)
Definition is_float64 (t : Q) : Prop := (round64 t == t)%Q.

(** The number held by a finite float of the IEEE 754 model of the
    Standard Library. *)
Definition SF2Q (f : spec_float) : Q :=
  match f with
  | S754_finite s m e => Qred ((if s then -1 else 1) * inject_Z (Zpos m) * pow2 e)
  | _ => 0%Q
  end.

(** Pairs of binary64 operands: a clock reading and a small window, the
    same the other way round, 0.3 and 0.1, two subnormal numbers, the
    least normal number and the least subnormal one, the largest number
    and 1e292, equal operands, 1e22 and 1, -0.1 and 0.7. *)
Definition binary64_samples : list (spec_float * spec_float) :=
  [(S754_finite false 7130316800000000 (-22), S754_finite false 4611686018427388 (-61));
   (S754_finite false 4611686018427388 (-61), S754_finite false 7130316800000000 (-22));
   (S754_finite false 5404319552844595 (-54), S754_finite false 7205759403792794 (-56));
   (S754_finite false 20240225330731 (-1074), S754_finite false 6072067599219 (-1074));
   (S754_finite false 4503599627370496 (-1074), S754_finite false 1 (-1074));
   (S754_finite false 9007199254740991 971, S754_finite false 4512985939662074 918);
   (S754_finite false 7130316799991611 (-22), S754_finite false 7130316799991611 (-22));
   (S754_finite false 4768371582031250 21, S754_finite false 4503599627370496 (-52));
   (S754_finite true 7205759403792794 (-56), S754_finite false 6305039478318694 (-53))].

(** Truthiness of an optional string: [None] and the empty string are falsy. *)
Definition truthy_str (o : option string) : bool :=
  match o with
  | Some s => negb (String.eqb s "")
  | None => false
  end.

(** ** realtime_agent/realtime_extractor.py *)

Module Extractor.

Record Event := mkEvent {
  ts : Q;
  src_ip : string;
  dst_ip : option string;
  size : Z;
  dport : option Z;
  proto : string;
  is_syn : Z;
  is_ack : Z;
  is_rst : Z;
  is_fin : Z
}.

(** The module state shared by the sniffer/replay thread and the
    aggregator: [buffers], [last_activity] and the [replay_done] flag. *)
Record Store := mkStore {
  buffers : gmap string (list Event);
  last_activity : gmap string Q;
  replay_done : bool
}.

Definition empty_store : Store :=
  {| buffers := ∅; last_activity := ∅; replay_done := false |}.

(** [push_event]: [buffers] is a [defaultdict], so indexing a missing
    source creates its deque. *)
Definition push_event (event : option Event) (st : Store) : Store :=
  match event with
  | None => st
  | Some ev =>
      let src := src_ip ev in
      {| buffers := <[src := default [] (buffers st !! src) ++ [ev]]> (buffers st);
         last_activity := <[src := ts ev]> (last_activity st);
         replay_done := replay_done st |}
  end.

(** [while dq and dq[0].ts < window_start: dq.popleft()] *)
Fixpoint popleft_old (window_start : Q) (dq : list Event) : list Event :=
  match dq with
  | [] => []
  | ev :: rest =>
      if Qlt_bool (ts ev) window_start then popleft_old window_start rest else dq
  end.

(** The local variables updated by the [for ev in dq] loop. *)
Record Acc := mkAcc {
  a_total_packets : Z;
  a_total_bytes : Z;
  a_syn_count : Z;
  a_dst_ports : gset Z;
  a_dst_ips : gset string;
  a_tcp_ack : Z;
  a_tcp_rst : Z;
  a_tcp_fin : Z;
  a_proto_counts : gmap string Z;
  a_first_ts : option Q;
  a_last_ts : option Q
}.

Definition acc0 : Acc :=
  {| a_total_packets := 0; a_total_bytes := 0; a_syn_count := 0;
     a_dst_ports := ∅; a_dst_ips := ∅;
     a_tcp_ack := 0; a_tcp_rst := 0; a_tcp_fin := 0;
     a_proto_counts := ∅; a_first_ts := None; a_last_ts := None |}.

Definition loop_body (a : Acc) (ev : Event) : Acc :=
  {| a_total_packets := a_total_packets a + 1;
     a_total_bytes := a_total_bytes a + size ev;
     a_syn_count := a_syn_count a + is_syn ev;
     a_dst_ports :=
       match dport ev with
       | Some p => {[p]} ∪ a_dst_ports a
       | None => a_dst_ports a
       end;
     a_dst_ips :=
       match dst_ip ev with
       | Some d => if truthy_str (Some d) then {[d]} ∪ a_dst_ips a else a_dst_ips a
       | None => a_dst_ips a
       end;
     a_tcp_ack := a_tcp_ack a + is_ack ev;
     a_tcp_rst := a_tcp_rst a + is_rst ev;
     a_tcp_fin := a_tcp_fin a + is_fin ev;
     a_proto_counts :=
       <[proto ev := default 0 (a_proto_counts a !! proto ev) + 1]> (a_proto_counts a);
     a_first_ts :=
       match a_first_ts a with
       | None => Some (ts ev)
       | Some f => if Qlt_bool (ts ev) f then Some (ts ev) else Some f
       end;
     a_last_ts :=
       match a_last_ts a with
       | None => Some (ts ev)
       | Some l => if Qlt_bool l (ts ev) then Some (ts ev) else Some l
       end |}.

Definition aggregate (dq : list Event) : Acc := fold_left loop_body dq acc0.

Definition eps : Q := 1 # 1000000.

Record Extras := mkExtras {
  window_start : Q;
  window_end : Q;
  avg_pkt_size : Q;
  unique_dst_ips : Z;
  tcp_ack : Z;
  tcp_rst : Z;
  tcp_fin : Z;
  proto_counts : gmap string Z
}.

Record Features := mkFeatures {
  f_src_ip : string;
  total_packets : Z;
  total_bytes : Z;
  duration : Q;
  pkts_per_sec : Q;
  bytes_per_sec : Q;
  syn_count : Z;
  unique_dst_ports : Z;
  extra : Extras
}.

Definition duration_of (a : Acc) (window_size : Q) : Q :=
  match a_first_ts a, a_last_ts a with
  | Some first_ts, Some last_ts => py_max (last_ts - first_ts) eps
  | _, _ => py_max window_size eps
  end.

(** [len(dst_ports) or 1] *)
Definition len_or_1 (n : Z) : Z := if n =? 0 then 1 else n.

(** The part of [compute_features_for_src] after the trimming loop, as a
    function of the events left in the deque. *)
Definition features_of (src : string) (window_size now : Q) (dq : list Event) : Features :=
  let a := aggregate dq in
  let duration := duration_of a window_size in
  let tp := inject_Z (a_total_packets a) in
  let tb := inject_Z (a_total_bytes a) in
  {| f_src_ip := src;
     total_packets := a_total_packets a;
     total_bytes := a_total_bytes a;
     duration := duration;
     pkts_per_sec := if Qlt_bool 0 duration then (tp / duration)%Q else 0%Q;
     bytes_per_sec := if Qlt_bool 0 duration then (tb / duration)%Q else 0%Q;
     syn_count := a_syn_count a;
     unique_dst_ports := len_or_1 (Z.of_nat (base.size (a_dst_ports a)));
     extra :=
       {| window_start := fsub now window_size;
          window_end := now;
          avg_pkt_size := if 0 <? a_total_packets a then (tb / tp)%Q else 0%Q;
          unique_dst_ips := Z.of_nat (base.size (a_dst_ips a));
          tcp_ack := a_tcp_ack a;
          tcp_rst := a_tcp_rst a;
          tcp_fin := a_tcp_fin a;
          proto_counts := a_proto_counts a |} |}.

(** [compute_features_for_src(src, window_size)]; [now] is the value read
    from [time.time()]. [window_start] is the float [now - window_size].
    The deque is trimmed in place, so the store is returned with the
    trimmed deque even when the result is [None]. *)
Definition compute_features_for_src (src : string) (window_size now : Q) (st : Store)
  : Store * option Features :=
  let window_start := fsub now window_size in
  match buffers st !! src with
  | None => (st, None)
  | Some [] => (st, None)
  | Some dq =>
      let dq' := popleft_old window_start dq in
      let st' := {| buffers := <[src := dq']> (buffers st);
                    last_activity := last_activity st;
                    replay_done := replay_done st |} in
      match dq' with
      | [] => (st', None)
      | _ :: _ => (st', Some (features_of src window_size now dq'))
      end
  end.

(** *** Packets and the replay driver *)

(** What [packet_to_event] reads from a scapy packet. A field access that
    raises inside the [try] block is [None]. *)
Inductive Transport :=
  | TCPLayer (tcp_dport : option Z) (tcp_flags : option Z)
  | UDPLayer (udp_dport : option Z)
  | NoTransport.

Record Packet := mkPacket {
  time : Q;
  ip_layer : option (string * string);
  len : Z;
  transport : Transport
}.

Definition flag_set (flags mask : Z) : Z :=
  if Z.land flags mask =? 0 then 0 else 1.

Definition packet_to_event (pkt : Packet) : option Event :=
  match ip_layer pkt with
  | None => None
  | Some (src, dst) =>
      let mk dport proto syn ack rst fin :=
        Some {| ts := time pkt; src_ip := src; dst_ip := Some dst; size := len pkt;
                dport := dport; proto := proto;
                is_syn := syn; is_ack := ack; is_rst := rst; is_fin := fin |} in
      match transport pkt with
      | TCPLayer (Some d) (Some flags) =>
          mk (Some d) "TCP"%string (flag_set flags 2) (flag_set flags 16)
             (flag_set flags 4) (flag_set flags 1)
      | TCPLayer (Some d) None => mk (Some d) "TCP"%string 0 0 0 0
      | TCPLayer None _ => mk None "TCP"%string 0 0 0 0
      | UDPLayer d => mk d "UDP"%string 0 0 0 0
      | NoTransport => mk None "OTHER"%string 0 0 0 0
      end
  end.

(** What the replay thread does, in order. *)
Inductive ReplayAction :=
  | Print (msg : string)
  | Sleep (wait : Q)
  | Push (ev : option Event).

(** [wait = max(0.0, (cur_ts - prev_ts) / max(1.0, speed))] *)
Definition replay_wait (prev_ts cur_ts speed : Q) : Q :=
  py_max 0 ((cur_ts - prev_ts) / py_max 1 speed).

(** The [for p in pkts] loop of [start_replay]. *)
Fixpoint replay_loop (speed prev_ts : Q) (pkts : list Packet) (st : Store)
  : Store * list ReplayAction :=
  match pkts with
  | [] => (st, [])
  | p :: rest =>
      let cur_ts := time p in
      let wait := replay_wait prev_ts cur_ts speed in
      let ev := packet_to_event p in
      let '(st', tr) := replay_loop speed cur_ts rest (push_event ev st) in
      (st', Sleep wait :: Push ev :: tr)
  end.

Definition set_replay_done (st : Store) : Store :=
  {| buffers := buffers st; last_activity := last_activity st; replay_done := true |}.

(** The outcome of [rdpcap(pcap_path)]: the packets of the file, or the
    exception it raises. Only [FileNotFoundError] is caught by
    [start_replay]; any other one (an empty or malformed file, a
    directory, a file that cannot be read) ends the replay thread. *)
Inductive ReadOutcome :=
  | Packets (pkts : list Packet)
  | FileNotFoundError
  | ReadError.

(** [start_replay(pcap_path, speed)]; [rdpcap] is the outcome of reading
    the capture file. When the read raises an exception that is not
    caught, nothing after it runs: the store is left as it is, with
    [replay_done] not set. Every [time.sleep] is taken to return. *)
Definition start_replay (rdpcap : ReadOutcome) (speed : Q) (st : Store)
  : Store * list ReplayAction :=
  match rdpcap with
  | FileNotFoundError => (set_replay_done st, [Print "[replay] pcap not found"%string])
  | ReadError => (st, [])
  | Packets [] => (set_replay_done st, [Print "[replay] no packets in pcap"%string])
  | Packets ((p0 :: _) as pkts) =>
      let '(st', tr) := replay_loop speed (time p0) pkts st in
      (set_replay_done st', tr)
  end.

(** *** Vocabulary of the statements about the window *)

(** Events of a buffer carry non-decreasing timestamps. *)
Definition nondecreasing (dq : list Event) : Prop :=
  Sorted (fun a b => (ts a <= ts b)%Q) dq.

(** [ts >= window_start] *)
Definition in_window (window_start : Q) (ev : Event) : bool :=
  Qle_bool window_start (ts ev).

Definition sum_of (f : Event -> Z) (l : list Event) : Z :=
  fold_right (fun ev acc => f ev + acc) 0 l.

(** The set of destination ports carried by a list of events. *)
Definition ports_of (l : list Event) : gset Z :=
  fold_right (fun ev acc => match dport ev with
                            | Some p => {[p]} ∪ acc
                            | None => acc
                            end) ∅ l.

(** *** Sample data *)

Definition sample_event (t : Q) (port : option Z) (bytes : Z) : Event :=
  {| ts := t; src_ip := "198.51.100.7"; dst_ip := Some "192.0.2.1"%string; size := bytes;
     dport := port; proto := match port with Some _ => "TCP" | None => "OTHER" end;
     is_syn := 0; is_ack := 0; is_rst := 0; is_fin := 0 |}.

Definition sample_dq : list Event :=
  [sample_event 1 (Some 80) 60; sample_event 4 (Some 443) 1500; sample_event 9 None 84].

Definition sample_store : Store :=
  {| buffers := {[ "198.51.100.7"%string := sample_dq ]};
     last_activity := {[ "198.51.100.7"%string := 9%Q ]};
     replay_done := false |}.

Definition sample_packet (t : Q) : Packet :=
  {| time := t; ip_layer := Some ("198.51.100.7", "192.0.2.1")%string; len := 60;
     transport := TCPLayer (Some 80) (Some 2) |}.

(** *** Live capture and the aggregation loop *)

(** The callback [_cb] that [start_live_sniff] hands to [sniff]. *)
Definition sniff_callback (pkt : Packet) (st : Store) : Store :=
  push_event (packet_to_event pkt) st.

(** The packets delivered by [sniff], in order of arrival. *)
Definition capture (pkts : list Packet) (st : Store) : Store :=
  fold_left (fun s pkt => sniff_callback pkt s) pkts st.

(** [del buffers[src]; del last_activity[src]] under [try ... except
    KeyError: pass]: a missing buffer raises before anything is deleted; a
    missing activity entry raises after the buffer is gone. *)
Definition drop_source (src : string) (st : Store) : Store :=
  match buffers st !! src with
  | None => st
  | Some _ =>
      {| buffers := delete src (buffers st);
         last_activity := delete src (last_activity st);
         replay_done := replay_done st |}
  end.

(** The body of [for src in srcs] in [start_aggregator]; [now_compute] and
    [now_idle] are the two readings of [time.time()] it makes. *)
Definition process_source (window_size keep_idle_for : Q) (src : string)
    (now_compute now_idle : Q) (st : Store) : Store * option Features :=
  let '(st1, feat) := compute_features_for_src src window_size now_compute st in
  let last_ts := default 0%Q (last_activity st1 !! src) in
  let st2 := if Qlt_bool keep_idle_for (now_idle - last_ts)
             then drop_source src st1 else st1 in
  (st2, feat).

(** The whole [for src in srcs] loop. [srcs] is the snapshot
    [list(buffers.keys())] with the clock readings made for each source;
    the order of the snapshot is the dictionary's insertion order, which
    the map does not record, so the snapshot is an input. *)
Fixpoint aggregator_pass (window_size keep_idle_for : Q)
    (srcs : list (string * (Q * Q))) (st : Store) : Store * list Features :=
  match srcs with
  | [] => (st, [])
  | (src, (now_compute, now_idle)) :: rest =>
      let '(st1, feat) :=
        process_source window_size keep_idle_for src now_compute now_idle st in
      let '(st2, batch) := aggregator_pass window_size keep_idle_for rest st1 in
      (st2, match feat with
            | Some f => f :: batch
            | None => batch
            end)
  end.

(** [any(len(dq) > 0 for dq in buffers.values())] *)
Definition any_nonempty (st : Store) : bool :=
  existsb (fun kv : string * list Event =>
             match kv.2 with
             | [] => false
             | _ :: _ => true
             end) (map_to_list (buffers st)).

(** The replay termination test at the end of a cycle. *)
Definition should_exit (mode : string) (st : Store) : bool :=
  String.eqb mode "replay" && replay_done st && negb (any_nonempty st).

(** [to_sleep = max(0.0, step - elapsed)] *)
Definition to_sleep (step elapsed : Q) : Q := py_max 0 (step - elapsed).

(** [range(0, n, batch)] for a positive step. *)
Definition range_step (n batch : nat) : list nat :=
  List.map (fun k => (k * batch)%nat) (seq 0 ((n + batch - 1) / batch)).

(** The chunks [features_batch[i:i+batch]] posted by a cycle: [None] is
    the [ValueError] raised by [range] for a zero step; a negative step
    gives an empty range. *)
Definition post_chunks {A} (batch : Z) (features_batch : list A)
  : option (list (list A)) :=
  if batch =? 0 then None
  else if batch <? 0 then Some []
  else Some (List.map (fun i => take (Z.to_nat batch) (drop i features_batch))
               (range_step (length features_batch) (Z.to_nat batch))).

(** What a cycle emits. *)
Inductive Output :=
  | PostChunk (chunk : list Features)
  | PrintJson (f : Features).

(** The emission step of a cycle: [if post and features_batch: ... else:
    ...]; [None] when the cycle dies on the [ValueError]. *)
Definition emit (post : bool) (batch : Z) (features_batch : list Features)
  : option (list Output) :=
  match post, features_batch with
  | true, _ :: _ => List.map PostChunk <$> post_chunks batch features_batch
  | _, _ => Some (List.map PrintJson features_batch)
  end.

(** *** Vocabulary of the statements about ingestion *)

Definition times_nondecreasing (pkts : list Packet) : Prop :=
  Sorted (fun p q => (time p <= time q)%Q) pkts.

(** The waits of a replay trace, in order. *)
Definition sleeps_of (tr : list ReplayAction) : list Q :=
  omap (fun a => match a with Sleep w => Some w | _ => None end) tr.

(** The events pushed by a replay trace, in order. *)
Definition pushes_of (tr : list ReplayAction) : list (option Event) :=
  omap (fun a => match a with Push ev => Some ev | _ => None end) tr.

(** Number of events of a list that carry a given protocol tag. *)
Definition count_proto (p : string) (l : list Event) : Z :=
  Z.of_nat (length (List.filter (fun ev => String.eqb (proto ev) p) l)).

Definition sample_packets : list Packet :=
  [sample_packet 0; sample_packet 3; sample_packet 4].

(** The events that the packets of one source contribute, in order. *)
Definition events_of (src : string) (pkts : list Packet) : list Event :=
  omap (fun pkt => match packet_to_event pkt with
                   | Some ev => if String.eqb (src_ip ev) src then Some ev else None
                   | None => None
                   end) pkts.

(** A TCP packet with the given control bits. *)
Definition tcp_packet (t : Q) (flags : Z) : Packet :=
  {| time := t; ip_layer := Some ("198.51.100.7", "192.0.2.1")%string; len := 60;
     transport := TCPLayer (Some 443) (Some flags) |}.

Definition sample_captured : Store := capture sample_packets empty_store.

(** Every buffered event is older than [cutoff]. *)
Definition all_older_than (cutoff : Q) (st : Store) : Prop :=
  forall src dq, buffers st !! src = Some dq -> Forall (fun ev => (ts ev < cutoff)%Q) dq.

End Extractor.

(** ** api/app.py *)

Module Api.

(** *** Values and documents *)

(** The values held by the policy dictionary and by request payloads. *)
Inductive Value :=
  | VNone
  | VBool (b : bool)
  | VInt (n : Z)
  | VFloat (x : Q)
  | VStr (s : string)
  | VTime (t : Z)
  | VIso (t : Z).

(** [float(v)] and [int(v)] on the numeric values; other values raise. *)
Definition to_float (v : Value) : option Q :=
  match v with
  | VFloat x => Some x
  | VInt n => Some (inject_Z n)
  | VBool b => Some (if b then 1%Q else 0%Q)
  | _ => None
  end.

Definition to_int (v : Value) : option Z :=
  match v with
  | VInt n => Some n
  | VFloat x => Some (Z.quot (Qnum x) (Zpos (Qden x)))
  | VBool b => Some (if b then 1 else 0)
  | _ => None
  end.

Definition truthy (v : Value) : bool :=
  match v with
  | VNone => false
  | VBool b => b
  | VInt n => negb (n =? 0)
  | VFloat x => negb (Qeq_bool x 0)
  | VStr s => negb (String.eqb s "")
  | VTime _ | VIso _ => true
  end.

(** Process-wide settings read from the environment at import time, and the
    host the enforcement helpers run on. *)
Inductive ExecResult := ExecOk | CalledProcessError | OtherError.

Record Env := mkEnv {
  DEFAULT_BLOCK_DURATION_SEC : Z;
  DEFAULT_THRESHOLD : Q;
  USE_REAL_BLOCKING : bool;
  iptables_available : bool;
  check_call : list string -> ExecResult
}.

Definition CONFIG_DOC_ID : string := "detection_policy".

Record FeatureVec := mkFeatureVec {
  src_ip : string;
  total_packets : Z;
  total_bytes : Z;
  duration : Q;
  pkts_per_sec : Q;
  bytes_per_sec : Q;
  syn_count : Z;
  unique_dst_ports : Z;
  extra : option (gmap string Value)
}.

Record ConfigUpdate := mkConfigUpdate {
  cu_threshold : option Q;
  cu_block_duration_sec : option Z;
  cu_blocking_enabled : option bool
}.

Record ManualBlockRequest := mkManualBlockRequest {
  mb_ip : string;
  mb_duration_sec : option Z;
  mb_note : option string
}.

Record IPNote := mkIPNote {
  wl_req_ip : string;
  wl_req_note : option string
}.

Record FlowDoc := mkFlowDoc {
  fl_id : nat;
  fl_ts_start : Z;
  fl_features : FeatureVec;
  fl_extra : gmap string Value
}.

Record AlertDoc := mkAlertDoc {
  al_detected_at : Z;
  al_src_ip : string;
  al_features : FlowDoc;
  al_score : Q;
  al_attack : bool;
  al_attack_type : option string;
  al_threshold : Q;
  al_model_prediction : Z;
  al_note : option string;
  al_blocked : option bool
}.

Record ProductionDoc := mkProductionDoc {
  pd_collected_at : Z;
  pd_features : FeatureVec;
  pd_score : Q;
  pd_is_attack : bool;
  pd_attack_type : option string;
  pd_threshold : Q
}.

Record WhitelistDoc := mkWhitelistDoc {
  wl_ip : string;
  wl_note : string;
  wl_created_at : Z
}.

(** A document of [blocked_ips]: one active block. *)
Record BlockDoc := mkBlockDoc {
  ip : string;
  blocked_at : Z;
  unblock_at : Z;
  duration_sec : Z;
  reason : string;
  actor : string;
  expireAt : Z;
  note : option string
}.

(** A document of [blocked_ips_history]. *)
Record HistoryDoc := mkHistoryDoc {
  h_ip : string;
  h_blocked_at : Z;
  h_unblock_at : Z;
  h_duration_sec : Z;
  h_reason : string;
  h_actor : string;
  h_note : option string
}.

Record Db := mkDb {
  flows : list FlowDoc;
  alerts : list AlertDoc;
  production_data : list ProductionDoc;
  whitelist : list WhitelistDoc;
  blocked_ips : list BlockDoc;
  blocked_ips_history : list HistoryDoc;
  config : option (gmap string Value)
}.

(** *** Enforcement helpers *)

Inductive Op := Apply | Remove.

(** What an enforcement helper does on the host: the log line it writes or
    the command it runs. [MockSkip] is the line written when
    [USE_REAL_BLOCKING] is off. *)
Inductive Effect :=
  | RefusedPrivate (addr : string)
  | MockSkip (op : Op) (addr : string)
  | IptablesMissing (op : Op) (addr : string)
  | Exec (cmd : list string)
  | Succeeded (op : Op) (addr : string)
  | Failed (op : Op) (addr : string).

Definition private_prefixes : list string :=
  ["127."; "10."; "192.168."; "172.16."; "172.17."; "172.18."; "172.19."; "172.20.";
   "172.21."; "172.22."; "172.23."; "172.24."; "172.25."; "172.26."; "172.27.";
   "172.28."; "172.29."; "172.30."; "172.31."]%string.

(** [ip.startswith(private_prefixes)] *)
Definition startswith_any (s : string) (prefixes : list string) : bool :=
  existsb (fun p => String.prefix p s) prefixes.

Definition run_iptables (env : Env) (op : Op) (addr : string) (cmd : list string)
  : bool * list Effect :=
  match check_call env cmd with
  | ExecOk => (true, [Exec cmd; Succeeded op addr])
  | CalledProcessError | OtherError => (false, [Exec cmd; Failed op addr])
  end.

Definition block_ip_iptables (env : Env) (addr : string) : bool * list Effect :=
  if startswith_any addr private_prefixes then (false, [RefusedPrivate addr])
  else if negb (USE_REAL_BLOCKING env) then (false, [MockSkip Apply addr])
  else if negb (iptables_available env) then (false, [IptablesMissing Apply addr])
  else run_iptables env Apply addr
         ["sudo"; "iptables"; "-I"; "INPUT"; "-s"; addr; "-j"; "DROP"]%string.

Definition unblock_ip_iptables (env : Env) (addr : string) : bool * list Effect :=
  if negb (USE_REAL_BLOCKING env) then (false, [MockSkip Remove addr])
  else if negb (iptables_available env) then (false, [IptablesMissing Remove addr])
  else run_iptables env Remove addr
         ["sudo"; "iptables"; "-D"; "INPUT"; "-s"; addr; "-j"; "DROP"]%string.

(** *** Attack-type heuristics *)

Definition port_scan_rule (fv : FeatureVec) : bool :=
  (10 <? unique_dst_ports fv)
  && Qlt_bool (inject_Z (total_packets fv) / inject_Z (Z.max (unique_dst_ports fv) 1)) 5.

Definition ddos_rule (fv : FeatureVec) : bool :=
  Qlt_bool 1000 (pkts_per_sec fv) || Qlt_bool 1000000 (bytes_per_sec fv).

Definition brute_force_rule (fv : FeatureVec) : bool :=
  (20 <? syn_count fv) && Qlt_bool 10 (pkts_per_sec fv).

Definition bot_rule (fv : FeatureVec) : bool :=
  Qlt_bool 10 (duration fv) && Qlt_bool (pkts_per_sec fv) 50.

Definition classify_attack_type (fv : FeatureVec) : string :=
  if port_scan_rule fv then "Port Scan"
  else if ddos_rule fv then "DDoS"
  else if brute_force_rule fv then "Brute Force"
  else if bot_rule fv then "Bot"
  else "Suspicious Activity".

(** *** The server state *)

(** A [delayed_unblock] task created by [schedule_block_and_unblock]: it
    sleeps [pu_delay] seconds, then runs [unblock_ip_iptables]. *)
Record PendingUnblock := mkPendingUnblock {
  pu_delay : Z;
  pu_ip : string
}.

(** A call of [schedule_block_and_unblock] queued with
    [background_tasks.add_task]. *)
Record BlockRequest := mkBlockRequest {
  br_ip : string;
  br_duration_sec : Z;
  br_reason : string;
  br_actor : string;
  br_note : option string
}.

(** A call of [schedule_block_and_unblock] that found no active block and
    is suspended at one of its later awaits: the insert into
    [blocked_ips], the insert into [blocked_ips_history], or the
    enforcement call handed to the executor. It holds the local variables
    the rest of the call uses. *)
Inductive Coroutine :=
  | AwaitBlockInsert (doc : BlockDoc)
  | AwaitHistoryInsert (history_doc : HistoryDoc)
  | AwaitEnforcement (addr : string) (dur : Z).

(** The server: the store, the policy cache, the enforcement calls made so
    far, the [delayed_unblock] tasks that are sleeping, the block calls
    queued as background tasks that have not started, and the block calls
    that are suspended. *)
Record World := mkWorld {
  db : Db;
  CONFIG_CACHE : gmap string Value;
  enforcement : list Effect;
  pending_unblocks : list PendingUnblock;
  background_tasks : list BlockRequest;
  running : list Coroutine
}.

Definition with_db (w : World) (d : Db) : World :=
  {| db := d; CONFIG_CACHE := CONFIG_CACHE w; enforcement := enforcement w;
     pending_unblocks := pending_unblocks w; background_tasks := background_tasks w;
     running := running w |}.

Definition with_running (w : World) (l : list Coroutine) : World :=
  {| db := db w; CONFIG_CACHE := CONFIG_CACHE w; enforcement := enforcement w;
     pending_unblocks := pending_unblocks w; background_tasks := background_tasks w;
     running := l |}.

Definition with_blocked_ips (d : Db) (l : list BlockDoc) : Db :=
  {| flows := flows d; alerts := alerts d; production_data := production_data d;
     whitelist := whitelist d; blocked_ips := l;
     blocked_ips_history := blocked_ips_history d; config := config d |}.

Definition with_history (d : Db) (l : list HistoryDoc) : Db :=
  {| flows := flows d; alerts := alerts d; production_data := production_data d;
     whitelist := whitelist d; blocked_ips := blocked_ips d;
     blocked_ips_history := l; config := config d |}.

Definition with_whitelist (d : Db) (l : list WhitelistDoc) : Db :=
  {| flows := flows d; alerts := alerts d; production_data := production_data d;
     whitelist := l; blocked_ips := blocked_ips d;
     blocked_ips_history := blocked_ips_history d; config := config d |}.

Definition with_config (d : Db) (c : option (gmap string Value)) : Db :=
  {| flows := flows d; alerts := alerts d; production_data := production_data d;
     whitelist := whitelist d; blocked_ips := blocked_ips d;
     blocked_ips_history := blocked_ips_history d; config := c |}.

Definition timedelta_seconds (d : Z) : Z := d * 1000000.

(** [datetime.min] and [datetime.max], in microseconds since the epoch. *)
Definition DATETIME_MIN : Z := -62135596800000000.
Definition DATETIME_MAX : Z := 253402300799999999.

(** [timedelta(seconds=d)]: [None] is the [OverflowError] raised when the
    number of whole days is beyond 999999999 in magnitude. *)
Definition timedelta (d : Z) : option Z :=
  if (-999999999 <=? d / 86400) && (d / 86400 <=? 999999999)
  then Some (timedelta_seconds d) else None.

(** [t + delta] on a [datetime]: [None] is the [OverflowError] raised when
    the result is not a date between years 1 and 9999. *)
Definition datetime_add (t delta : Z) : option Z :=
  if (DATETIME_MIN <=? t + delta) && (t + delta <=? DATETIME_MAX)
  then Some (t + delta) else None.

(** [datetime.utcnow() + timedelta(seconds=duration_sec)] with the clock
    at [now]. *)
Definition unblock_time (now dur : Z) : option Z :=
  match timedelta dur with
  | Some delta => datetime_add now delta
  | None => None
  end.

(** [db.blocked_ips.find_one({"ip": ip})] *)
Definition find_block (addr : string) (d : Db) : option BlockDoc :=
  List.find (fun b => String.eqb (ip b) addr) (blocked_ips d).

(** [db.whitelist.find_one({"ip": ip})] *)
Definition find_whitelist (addr : string) (d : Db) : option WhitelistDoc :=
  List.find (fun e => String.eqb (wl_ip e) addr) (whitelist d).

(** [if note: doc["note"] = note] *)
Definition note_field (n : option string) : option string :=
  match n with
  | Some s => if String.eqb s "" then None else Some s
  | None => None
  end.

(** *** Mitigation scheduler *)

(** How [schedule_block_and_unblock] goes up to its first write: the
    lookup finds an active block and the call returns; or building
    [unblock_at] raises [OverflowError]; or the document to insert is
    built. [t1] and [t2] are the readings of [datetime.utcnow()] for
    [unblock_at] and for [blocked_at]. *)
Inductive Lookup :=
  | AlreadyBlocked
  | RaisesOverflow
  | Builds (doc : BlockDoc).

(** [doc], with [unblock_at] also stored as [expireAt] for the store's
    expiry. *)
Definition block_doc (t2 unblock : Z) (addr : string) (dur : Z) (rsn act : string)
    (nt : option string) : BlockDoc :=
  {| ip := addr; blocked_at := t2; unblock_at := unblock; duration_sec := dur;
     reason := rsn; actor := act; expireAt := unblock; note := note_field nt |}.

Definition schedule_lookup (t1 t2 : Z) (addr : string) (dur : Z) (rsn act : string)
    (nt : option string) (d : Db) : Lookup :=
  match find_block addr d with
  | Some _ => AlreadyBlocked
  | None =>
      match unblock_time t1 dur with
      | None => RaisesOverflow
      | Some unblock => Builds (block_doc t2 unblock addr dur rsn act nt)
      end
  end.

(** [history_doc], built from the same local variables once the active
    document is inserted; [t3] is the reading of [datetime.utcnow()] for
    its [blocked_at]. *)
Definition history_of (doc : BlockDoc) (t3 : Z) : HistoryDoc :=
  {| h_ip := ip doc; h_blocked_at := t3; h_unblock_at := unblock_at doc;
     h_duration_sec := duration_sec doc; h_reason := reason doc; h_actor := actor doc;
     h_note := note doc |}.

(** [await db.blocked_ips.insert_one(doc)] *)
Definition insert_block (doc : BlockDoc) (w : World) : World :=
  with_db w (with_blocked_ips (db w) (blocked_ips (db w) ++ [doc])).

(** [await db.blocked_ips_history.insert_one(history_doc)] *)
Definition insert_history (h : HistoryDoc) (w : World) : World :=
  with_db w (with_history (db w) (blocked_ips_history (db w) ++ [h])).

(** The end of the call: [block_ip_iptables] in the executor, then the
    [delayed_unblock] task is created. *)
Definition apply_block (env : Env) (addr : string) (dur : Z) (w : World) : World :=
  {| db := db w;
     CONFIG_CACHE := CONFIG_CACHE w;
     enforcement := enforcement w ++ snd (block_ip_iptables env addr);
     pending_unblocks := pending_unblocks w ++ [{| pu_delay := dur + 1; pu_ip := addr |}];
     background_tasks := background_tasks w;
     running := running w |}.

(** [schedule_block_and_unblock(ip, duration_sec, reason=, actor=, note=)]
    run from its call to its return with nothing else running in
    between. [t1], [t2], [t3] are the three successive readings of
    [datetime.utcnow()]: for [unblock_at], for the [blocked_at] of the
    active document and for the [blocked_at] of the history document.
    [None] is the [OverflowError] raised while building [unblock_at],
    before anything is written. *)
Definition schedule_block_and_unblock (env : Env) (t1 t2 t3 : Z)
    (addr : string) (dur : Z) (rsn act : string) (nt : option string)
    (w : World) : option World :=
  match schedule_lookup t1 t2 addr dur rsn act nt (db w) with
  | AlreadyBlocked => Some w
  | RaisesOverflow => None
  | Builds doc =>
      Some (apply_block env addr dur
              (insert_history (history_of doc t3) (insert_block doc w)))
  end.

(** The same call as the event loop runs it. Its first transition is the
    lookup: the call ends there, or it is left suspended at the insert of
    the document it built. *)
Definition schedule_start (t1 t2 : Z) (addr : string) (dur : Z) (rsn act : string)
    (nt : option string) (w : World) : World :=
  match schedule_lookup t1 t2 addr dur rsn act nt (db w) with
  | Builds doc => with_running w (running w ++ [AwaitBlockInsert doc])
  | AlreadyBlocked | RaisesOverflow => w
  end.

(** The [i]-th suspended call runs from the await it is suspended at to
    its next one; [t] is the clock reading it makes on the way, if any.
    After the last await the call is over and leaves the list. *)
Definition resume (env : Env) (t : Z) (i : nat) (w : World) : World :=
  match running w !! i with
  | None => w
  | Some (AwaitBlockInsert doc) =>
      with_running (insert_block doc w)
        (<[i := AwaitHistoryInsert (history_of doc t)]> (running w))
  | Some (AwaitHistoryInsert h) =>
      with_running (insert_history h w)
        (<[i := AwaitEnforcement (h_ip h) (h_duration_sec h)]> (running w))
  | Some (AwaitEnforcement addr dur) =>
      with_running (apply_block env addr dur w) (delete i (running w))
  end.

(** [remove_block(ip)]: [delete_many] on the active collection, then the
    enforcement removal. *)
Definition remove_block (env : Env) (addr : string) (w : World) : World :=
  let d := with_blocked_ips (db w)
             (List.filter (fun b => negb (String.eqb (ip b) addr)) (blocked_ips (db w))) in
  {| db := d;
     CONFIG_CACHE := CONFIG_CACHE w;
     enforcement := enforcement w ++ snd (unblock_ip_iptables env addr);
     pending_unblocks := pending_unblocks w;
     background_tasks := background_tasks w;
     running := running w |}.

(** The body of a [delayed_unblock] task once its sleep is over: the
    [i]-th pending task leaves the list and runs the enforcement removal. *)
Definition run_delayed_unblock (env : Env) (i : nat) (w : World) : World :=
  match pending_unblocks w !! i with
  | None => w
  | Some task =>
      {| db := db w;
         CONFIG_CACHE := CONFIG_CACHE w;
         enforcement := enforcement w ++ snd (unblock_ip_iptables env (pu_ip task));
         pending_unblocks := delete i (pending_unblocks w);
         background_tasks := background_tasks w;
         running := running w |}
  end.

Definition with_background_tasks (w : World) (l : list BlockRequest) : World :=
  {| db := db w; CONFIG_CACHE := CONFIG_CACHE w; enforcement := enforcement w;
     pending_unblocks := pending_unblocks w; background_tasks := l;
     running := running w |}.

(** The [i]-th queued background call starts: it leaves the queue and
    makes its lookup. *)
Definition start_background_task (t1 t2 : Z) (i : nat) (w : World) : World :=
  match background_tasks w !! i with
  | None => w
  | Some r =>
      schedule_start t1 t2 (br_ip r) (br_duration_sec r) (br_reason r) (br_actor r)
        (br_note r) (with_background_tasks w (delete i (background_tasks w)))
  end.

(** The oldest queued background call runs from start to end with nothing
    else running in between. A call that raises ends the task; the
    exception is logged and goes no further. *)
Definition run_background_task (env : Env) (t1 t2 t3 : Z) (w : World) : World :=
  match background_tasks w with
  | [] => w
  | r :: rest =>
      let w0 := with_background_tasks w rest in
      default w0
        (schedule_block_and_unblock env t1 t2 t3
           (br_ip r) (br_duration_sec r) (br_reason r) (br_actor r) (br_note r) w0)
  end.

(** Modelled from the spec: the durable store's automatic expiry of the
    active-block collection (the TTL index on [expireAt] requested by
    [create_indexes]); the store removes every document whose expiry time
    has been reached. *)
Definition ttl_expire (now : Z) (w : World) : World :=
  with_db w (with_blocked_ips (db w)
               (List.filter (fun b => now <? expireAt b) (blocked_ips (db w)))).

(** *** Request handlers *)

Inductive HTTPError :=
  | HTTP400 (detail : string)
  | HTTP401 (detail : string)
  | HTTP500 (detail : string).

(** [require_admin_token]: with no [ADMIN_API_KEY] configured every request
    passes. *)
Definition require_admin_token (admin_api_key x_admin_token : option string) : bool :=
  if truthy_str admin_api_key
  then match admin_api_key, x_admin_token with
       | Some k, Some t => String.eqb t k
       | _, _ => false
       end
  else true.

Inductive DetectResponse :=
  | RespWhitelisted (score : Q)
  | RespAlert (alert_id : nat) (attack_type : string) (score threshold : Q)
              (block_duration_sec : Z)
  | RespBenign (score threshold : Q).

(** What [detect] obtains from outside the store: three clock readings
    (flow, alert and production documents), the classifier's probability
    and prediction, and whether the sampling hash selects the flow. *)
Record DetectInputs := mkDetectInputs {
  di_t_flow : Z;
  di_t_alert : Z;
  di_t_prod : Z;
  di_prob : Q;
  di_pred : Z;
  di_hash_hit : bool
}.

Definition insert_alert (d : Db) (a : AlertDoc) : Db :=
  {| flows := flows d; alerts := alerts d ++ [a]; production_data := production_data d;
     whitelist := whitelist d; blocked_ips := blocked_ips d;
     blocked_ips_history := blocked_ips_history d; config := config d |}.

(** [detect(fv, background_tasks)]. The reported score is the probability
    itself (its rounding to four decimals is left out). *)
Definition detect (env : Env) (inp : DetectInputs) (fv : FeatureVec) (w : World)
  : World * (HTTPError + DetectResponse) :=
  let policy := CONFIG_CACHE w in
  match to_float (default (VFloat (DEFAULT_THRESHOLD env)) (policy !! "threshold"%string)),
        to_int (default (VInt (DEFAULT_BLOCK_DURATION_SEC env))
                  (policy !! "block_duration_sec"%string)) with
  | Some threshold, Some block_duration_sec =>
      let prob := di_prob inp in
      let flow_doc := {| fl_id := length (flows (db w)); fl_ts_start := di_t_flow inp;
                         fl_features := fv; fl_extra := default ∅ (extra fv) |} in
      let is_attack := Qle_bool threshold prob in
      let attack_type := if is_attack then Some (classify_attack_type fv) else None in
      let alert_doc := {| al_detected_at := di_t_alert inp; al_src_ip := src_ip fv;
                          al_features := flow_doc; al_score := prob;
                          al_attack := is_attack; al_attack_type := attack_type;
                          al_threshold := threshold; al_model_prediction := di_pred inp;
                          al_note := None; al_blocked := None |} in
      let should_save := is_attack || Qlt_bool (15 # 100) prob || di_hash_hit inp in
      let production_doc := {| pd_collected_at := di_t_prod inp; pd_features := fv;
                               pd_score := prob; pd_is_attack := is_attack;
                               pd_attack_type := attack_type; pd_threshold := threshold |} in
      let d1 := {| flows := flows (db w) ++ [flow_doc]; alerts := alerts (db w);
                   production_data :=
                     if should_save then production_data (db w) ++ [production_doc]
                     else production_data (db w);
                   whitelist := whitelist (db w); blocked_ips := blocked_ips (db w);
                   blocked_ips_history := blocked_ips_history (db w);
                   config := config (db w) |} in
      if is_attack then
        match find_whitelist (src_ip fv) d1 with
        | Some _ =>
            let alert_wl := {| al_detected_at := di_t_alert inp; al_src_ip := src_ip fv;
                               al_features := flow_doc; al_score := prob;
                               al_attack := is_attack; al_attack_type := attack_type;
                               al_threshold := threshold;
                               al_model_prediction := di_pred inp;
                               al_note := Some "whitelisted"%string;
                               al_blocked := Some false |} in
            (with_db w (insert_alert d1 alert_wl), inr (RespWhitelisted prob))
        | None =>
            let alert_id := length (alerts d1) in
            let d2 := insert_alert d1 alert_doc in
            let queue :=
              if truthy (default (VBool true) (CONFIG_CACHE w !! "blocking_enabled"%string))
              then background_tasks w ++
                     [{| br_ip := src_ip fv; br_duration_sec := block_duration_sec;
                         br_reason := classify_attack_type fv; br_actor := "model";
                         br_note := None |}]
              else background_tasks w in
            ({| db := d2; CONFIG_CACHE := CONFIG_CACHE w; enforcement := enforcement w;
                pending_unblocks := pending_unblocks w; background_tasks := queue;
                running := running w |},
             inr (RespAlert alert_id (classify_attack_type fv) prob threshold
                    block_duration_sec))
        end
      else (with_db w (insert_alert d1 alert_doc), inr (RespBenign prob threshold))
  | _, _ => (w, inl (HTTP500 "invalid policy value"))
  end.

(** [manual_block(payload)] run from the request to the response with
    nothing else running in between:
    [payload.duration_sec or DEFAULT_BLOCK_DURATION_SEC] replaces a
    missing or zero duration by the default. An exception raised by
    [schedule_block_and_unblock] is not caught and the framework answers
    with a server error. *)
Definition manual_block (env : Env) (authorized : bool) (t1 t2 t3 : Z)
    (payload : ManualBlockRequest) (w : World) : World * (HTTPError + string * Z) :=
  if negb authorized then (w, inl (HTTP401 "Invalid admin token")) else
  let duration :=
    match mb_duration_sec payload with
    | Some d => if d =? 0 then DEFAULT_BLOCK_DURATION_SEC env else d
    | None => DEFAULT_BLOCK_DURATION_SEC env
    end in
  if duration <=? 0 then (w, inl (HTTP400 "duration_sec must be positive"))
  else match schedule_block_and_unblock env t1 t2 t3 (mb_ip payload) duration
               "manual" "admin" (mb_note payload) w with
       | Some w' => (w', inr (mb_ip payload, duration))
       | None => (w, inl (HTTP500 "Internal Server Error"))
       end.

(** The first transition of the same handler as the event loop runs it:
    the checks, then the lookup of [schedule_block_and_unblock]. *)
Definition manual_block_start (env : Env) (authorized : bool) (t1 t2 : Z)
    (payload : ManualBlockRequest) (w : World) : World :=
  if negb authorized then w else
  let duration :=
    match mb_duration_sec payload with
    | Some d => if d =? 0 then DEFAULT_BLOCK_DURATION_SEC env else d
    | None => DEFAULT_BLOCK_DURATION_SEC env
    end in
  if duration <=? 0 then w
  else schedule_start t1 t2 (mb_ip payload) duration "manual" "admin" (mb_note payload) w.

Definition manual_unblock (env : Env) (authorized : bool) (addr : string) (w : World)
  : World * (HTTPError + string) :=
  if negb authorized then (w, inl (HTTP401 "Invalid admin token"))
  else (remove_block env addr w, inr addr).

(** [update_one({"ip": ip}, {"$set": ...}, upsert=True)] on the whitelist. *)
Fixpoint upsert_whitelist (addr nt : string) (t : Z) (l : list WhitelistDoc)
  : list WhitelistDoc :=
  match l with
  | [] => [{| wl_ip := addr; wl_note := nt; wl_created_at := t |}]
  | e :: rest =>
      if String.eqb (wl_ip e) addr
      then {| wl_ip := addr; wl_note := nt; wl_created_at := t |} :: rest
      else e :: upsert_whitelist addr nt t rest
  end.

(** [delete_one({"ip": ip})] on the whitelist. *)
Fixpoint delete_one_whitelist (addr : string) (l : list WhitelistDoc)
  : list WhitelistDoc :=
  match l with
  | [] => []
  | e :: rest =>
      if String.eqb (wl_ip e) addr then rest else e :: delete_one_whitelist addr rest
  end.

Definition setdefault (k : string) (v : Value) (m : gmap string Value)
  : gmap string Value :=
  match m !! k with
  | Some _ => m
  | None => <[k := v]> m
  end.

Definition add_whitelist (authorized : bool) (t1 t2 : Z) (db_ok : bool)
    (entry : IPNote) (w : World) : World * (HTTPError + bool) :=
  if negb authorized then (w, inl (HTTP401 "Invalid admin token")) else
  if negb db_ok then (w, inl (HTTP500 "storage failure")) else
  let nt := match wl_req_note entry with
            | Some s => if String.eqb s "" then ""%string else s
            | None => ""%string
            end in
  let upserted := match find_whitelist (wl_req_ip entry) (db w) with
                  | Some _ => false
                  | None => true
                  end in
  ({| db := with_whitelist (db w) (upsert_whitelist (wl_req_ip entry) nt t1 (whitelist (db w)));
      CONFIG_CACHE := setdefault "whitelist_cache_bust" (VIso t2) (CONFIG_CACHE w);
      enforcement := enforcement w; pending_unblocks := pending_unblocks w;
      background_tasks := background_tasks w; running := running w |},
   inr upserted).

Definition remove_whitelist (authorized : bool) (addr : string) (w : World)
  : World * (HTTPError + nat) :=
  if negb authorized then (w, inl (HTTP401 "Invalid admin token")) else
  (with_db w (with_whitelist (db w) (delete_one_whitelist addr (whitelist (db w)))),
   inr (length (whitelist (db w))
        - length (delete_one_whitelist addr (whitelist (db w))))%nat).

(** The [updates] dictionary built by [update_config], in insertion order,
    or the client error raised while building it. *)
Definition config_updates (payload : ConfigUpdate) : HTTPError + list (string * Value) :=
  match
    match cu_threshold payload with
    | Some th =>
        if Qle_bool 0 th && Qle_bool th 1
        then inr [("threshold"%string, VFloat th)]
        else inl (HTTP400 "threshold must be between 0 and 1")
    | None => inr []
    end
  with
  | inl e => inl e
  | inr updates =>
      match cu_block_duration_sec payload with
      | Some d =>
          if d <=? 0 then inl (HTTP400 "block_duration_sec must be positive")
          else inr (updates ++ [("block_duration_sec"%string, VInt d)])
      | None => inr updates
      end
  end.

(** [dict.update(updates)] and the effect of [$set] on a document. *)
Definition dict_update (m : gmap string Value) (updates : list (string * Value))
  : gmap string Value :=
  fold_left (fun acc kv => <[kv.1 := kv.2]> acc) updates m.

(** [update_config(payload)]; [db_ok] tells whether the store accepts the
    write. On success the response carries a copy of the cache. *)
Definition update_config (authorized : bool) (now : Z) (db_ok : bool)
    (payload : ConfigUpdate) (w : World) : World * (HTTPError + gmap string Value) :=
  if negb authorized then (w, inl (HTTP401 "Invalid admin token")) else
  match config_updates payload with
  | inl e => (w, inl e)
  | inr [] => (w, inr (CONFIG_CACHE w))
  | inr ((_ :: _) as updates0) =>
      let updates := updates0 ++ [("updated_at"%string, VTime now)] in
      if negb db_ok then (w, inl (HTTP500 "storage failure")) else
      let stored :=
        match config (db w) with
        | Some doc => dict_update doc updates
        | None => dict_update {[ "_id"%string := VStr CONFIG_DOC_ID ]} updates
        end in
      let cache := dict_update (CONFIG_CACHE w) updates in
      ({| db := with_config (db w) (Some stored); CONFIG_CACHE := cache;
          enforcement := enforcement w; pending_unblocks := pending_unblocks w;
          background_tasks := background_tasks w; running := running w |},
       inr cache)
  end.

(** *** Transitions of the server *)

(** One transition of the server: a handler invocation, the start of a
    block call (from the background queue or from [manual_block]), a
    suspended block call running on to its next await, a timer, or the
    store's expiry. Block calls interleave with each other and with every
    other transition at their awaits. *)
Inductive step (env : Env) : World -> World -> Prop :=
  | step_detect inp fv w :
      step env w (detect env inp fv w).1
  | step_background t1 t2 i w :
      step env w (start_background_task t1 t2 i w)
  | step_manual_block authorized t1 t2 payload w :
      step env w (manual_block_start env authorized t1 t2 payload w)
  | step_resume t i w :
      step env w (resume env t i w)
  | step_manual_unblock authorized addr w :
      step env w (manual_unblock env authorized addr w).1
  | step_delayed_unblock i w :
      step env w (run_delayed_unblock env i w)
  | step_ttl now w :
      step env w (ttl_expire now w)
  | step_add_whitelist authorized t1 t2 db_ok entry w :
      step env w (add_whitelist authorized t1 t2 db_ok entry w).1
  | step_remove_whitelist authorized addr w :
      step env w (remove_whitelist authorized addr w).1
  | step_update_config authorized now db_ok payload w :
      step env w (update_config authorized now db_ok payload w).1.

(** The states the server can be in when it starts with no active block
    and no block call under way. *)
Inductive reachable (env : Env) : World -> Prop :=
  | reach_start w : blocked_ips (db w) = [] -> running w = [] -> reachable env w
  | reach_step w w' : reachable env w -> step env w w' -> reachable env w'.

(** *** Vocabulary of the statements *)

(** Number of active block documents for an address. *)
Definition active_count (addr : string) (w : World) : nat :=
  length (List.filter (fun b => String.eqb (ip b) addr) (blocked_ips (db w))).

(** At most one active block document per address. *)
Definition at_most_one (w : World) : Prop :=
  forall addr, (active_count addr w <= 1)%nat.

(** A field of the stored policy document, if the document and the field
    exist. *)
Definition stored_field (k : string) (d : Db) : option Value :=
  match config d with
  | Some doc => doc !! k
  | None => None
  end.

(** An address lies in a private or local range when it is one of the
    private prefixes followed by anything. *)
Definition in_private_range (addr : string) : Prop :=
  exists p rest, In p private_prefixes /\ addr = (p ++ rest)%string.

(** The heuristic rules in the order of the design: port scan, flood,
    brute force, low-and-slow, generic. *)
Definition ordered_rules : list ((FeatureVec -> bool) * string) :=
  [(port_scan_rule, "Port Scan"); (ddos_rule, "DDoS");
   (brute_force_rule, "Brute Force"); (bot_rule, "Bot");
   (fun _ => true, "Suspicious Activity")]%string.

(** The label of the first rule that matches. *)
Fixpoint first_match (rules : list ((FeatureVec -> bool) * string)) (fv : FeatureVec)
  : option string :=
  match rules with
  | [] => None
  | (rule, label) :: rest => if rule fv then Some label else first_match rest fv
  end.

(** *** Sample data *)

Definition mock_host : Env :=
  {| DEFAULT_BLOCK_DURATION_SEC := 600; DEFAULT_THRESHOLD := 7 # 10;
     USE_REAL_BLOCKING := false; iptables_available := false;
     check_call := fun _ => ExecOk |}.

Definition linux_host : Env :=
  {| DEFAULT_BLOCK_DURATION_SEC := 600; DEFAULT_THRESHOLD := 7 # 10;
     USE_REAL_BLOCKING := true; iptables_available := true;
     check_call := fun _ => ExecOk |}.

Definition scan_and_flood : FeatureVec :=
  {| src_ip := "203.0.113.5"; total_packets := 500; total_bytes := 30000;
     duration := 1 # 20; pkts_per_sec := 10000; bytes_per_sec := 600000;
     syn_count := 500; unique_dst_ports := 400; extra := None |}.

(** The flood scenario: 10000 packets and 2 MB per second to one port. *)
Definition flood_vector : FeatureVec :=
  {| src_ip := "203.0.113.77"; total_packets := 10000; total_bytes := 2000000;
     duration := 1; pkts_per_sec := 10000; bytes_per_sec := 2000000;
     syn_count := 5000; unique_dst_ports := 1; extra := None |}.

(** The benign scenario. *)
Definition benign_vector : FeatureVec :=
  {| src_ip := "203.0.113.80"; total_packets := 10; total_bytes := 1500;
     duration := 1; pkts_per_sec := 10; bytes_per_sec := 1500;
     syn_count := 1; unique_dst_ports := 1; extra := None |}.

Definition empty_db : Db :=
  {| flows := []; alerts := []; production_data := []; whitelist := [];
     blocked_ips := []; blocked_ips_history := []; config := None |}.

(** The policy dictionary as the module initialises it. *)
Definition initial_cache (env : Env) : gmap string Value :=
  list_to_map
    [("_id", VStr CONFIG_DOC_ID);
     ("threshold", VFloat (DEFAULT_THRESHOLD env));
     ("block_duration_sec", VInt (DEFAULT_BLOCK_DURATION_SEC env));
     ("blocking_enabled", VBool true);
     ("updated_at", VNone)]%string.

Definition fresh_world (env : Env) : World :=
  {| db := empty_db; CONFIG_CACHE := initial_cache env; enforcement := [];
     pending_unblocks := []; background_tasks := []; running := [] |}.

(** A world whose whitelist holds 203.0.113.5. *)
Definition whitelisting_world (env : Env) : World :=
  with_db (fresh_world env)
    (with_whitelist empty_db
       [{| wl_ip := "203.0.113.5"; wl_note := "partner"; wl_created_at := 0 |}]).

Definition block_request (addr : string) : ManualBlockRequest :=
  {| mb_ip := addr; mb_duration_sec := Some 600; mb_note := None |}.

Definition attack_inputs : DetectInputs :=
  {| di_t_flow := 10; di_t_alert := 11; di_t_prod := 12; di_prob := 99 # 100;
     di_pred := 1; di_hash_hit := false |}.

(** The state after an administrator blocked 203.0.113.5 on a fresh server. *)
Definition blocked_world (env : Env) : World :=
  (manual_block env true 0 1 2 (block_request "203.0.113.5") (fresh_world env)).1.

(** Two administrative block requests for 203.0.113.5 that overlap: the
    second makes its lookup before the first has inserted its document;
    each call then runs on to its end. *)
Definition overlapping_blocks (env : Env) : World :=
  let w1 := manual_block_start env true 0 1 (block_request "203.0.113.5")
              (fresh_world env) in
  let w2 := manual_block_start env true 2 3 (block_request "203.0.113.5") w1 in
  let w3 := resume env 4 0 w2 in
  let w4 := resume env 5 1 w3 in
  let w5 := resume env 6 0 w4 in
  let w6 := resume env 6 1 w5 in
  let w7 := resume env 6 0 w6 in
  resume env 6 0 w7.

(** The same two requests served one after the other. *)
Definition successive_blocks (env : Env) : World :=
  (manual_block env true 2 3 5 (block_request "203.0.113.5")
     (manual_block env true 0 1 4 (block_request "203.0.113.5") (fresh_world env)).1).1.

(** A request that lowers the threshold and asks to switch blocking off. *)
Definition disable_request : ConfigUpdate :=
  {| cu_threshold := Some (1 # 2); cu_block_duration_sec := None;
     cu_blocking_enabled := Some false |}.

(** A server whose threshold was lowered to 0.25 by an administrator. *)
Definition sensitive_world (env : Env) : World :=
  (update_config true 1 true
     {| cu_threshold := Some (1 # 4); cu_block_duration_sec := None;
        cu_blocking_enabled := None |} (fresh_world env)).1.

Definition score_inputs (prob : Q) : DetectInputs :=
  {| di_t_flow := 10; di_t_alert := 11; di_t_prod := 12; di_prob := prob;
     di_pred := 1; di_hash_hit := false |}.

(** *** Startup and the JSON helper *)

(** [load_policy_config()] at time [now]: [None] when a stored value
    cannot be converted and the call raises. A missing policy document is
    created from the defaults, which carry no [blocking_enabled] entry. *)
Definition load_policy_config (env : Env) (now : Z) (w : World) : option World :=
  match config (db w) with
  | None =>
      let defaults : gmap string Value :=
        list_to_map
          [("_id", VStr CONFIG_DOC_ID);
           ("threshold", VFloat (DEFAULT_THRESHOLD env));
           ("block_duration_sec", VInt (DEFAULT_BLOCK_DURATION_SEC env));
           ("updated_at", VTime now)]%string in
      Some {| db := with_config (db w) (Some defaults); CONFIG_CACHE := defaults;
              enforcement := enforcement w; pending_unblocks := pending_unblocks w;
              background_tasks := background_tasks w; running := running w |}
  | Some existing =>
      match to_float (default (VFloat (DEFAULT_THRESHOLD env))
                        (existing !! "threshold"%string)),
            to_int (default (VInt (DEFAULT_BLOCK_DURATION_SEC env))
                      (existing !! "block_duration_sec"%string)) with
      | Some th, Some dur =>
          Some {| db := db w;
                  CONFIG_CACHE :=
                    list_to_map
                      [("_id", VStr CONFIG_DOC_ID);
                       ("threshold", VFloat th);
                       ("block_duration_sec", VInt dur);
                       ("blocking_enabled",
                        VBool (truthy (default (VBool true)
                                         (existing !! "blocking_enabled"%string))));
                       ("updated_at",
                        default VNone (existing !! "updated_at"%string))]%string;
                  enforcement := enforcement w; pending_unblocks := pending_unblocks w;
                  background_tasks := background_tasks w; running := running w |}
      | _, _ => None
      end
  end.

(** The documents handed to [make_jsonable]. *)
#[warnings="-register-all"]
Inductive Bson :=
  | BNull
  | BBool (b : bool)
  | BInt (n : Z)
  | BFloat (x : Q)
  | BStr (s : string)
  | BObjectId (hex : string)
  | BDatetime (t : Z)
  | BList (items : list Bson)
  | BDict (items : list (string * Bson)).

Section Json.

(** The text produced by [datetime.isoformat]. *)
Variable isoformat : Z -> string.

(** [make_jsonable(doc)]: dictionaries and lists are converted element by
    element, an [ObjectId] becomes its string, a datetime its ISO text. *)
Fixpoint make_jsonable (doc : Bson) : Bson :=
  match doc with
  | BDict items =>
      BDict (List.map (fun kv => match kv with
                                 | (k, v) => (k, make_jsonable v)
                                 end) items)
  | BList items => BList (List.map make_jsonable items)
  | BObjectId hex => BStr hex
  | BDatetime t => BStr (isoformat t)
  | other => other
  end.

End Json.

(** A document that holds neither an [ObjectId] nor a datetime. *)
Fixpoint is_jsonable (doc : Bson) : bool :=
  match doc with
  | BDict items => forallb (fun kv => match kv with
                                      | (_, v) => is_jsonable v
                                      end) items
  | BList items => forallb is_jsonable items
  | BObjectId _ | BDatetime _ => false
  | _ => true
  end.

(** The keys of a dictionary, in order; empty for other documents. *)
Definition keys_of (doc : Bson) : list string :=
  match doc with
  | BDict items => List.map fst items
  | _ => []
  end.

(** *** Vocabulary of the further statements *)

(** Every active block has a history record with the same data. *)
Definition audited (w : World) : Prop :=
  forall b, In b (blocked_ips (db w)) ->
    exists h, In h (blocked_ips_history (db w))
              /\ h_ip h = ip b /\ h_unblock_at h = unblock_at b
              /\ h_duration_sec h = duration_sec b
              /\ h_reason h = reason b /\ h_actor h = actor b.

(** A history record carries the data of an active block. *)
Definition records (h : HistoryDoc) (b : BlockDoc) : Prop :=
  h_ip h = ip b /\ h_unblock_at h = unblock_at b
  /\ h_duration_sec h = duration_sec b
  /\ h_reason h = reason b /\ h_actor h = actor b.

(** Every active block has its history record, or the call that made it
    is suspended at the insert of that record. *)
Definition audit_trail (w : World) : Prop :=
  forall b, In b (blocked_ips (db w)) ->
    exists h, records h b
              /\ (In h (blocked_ips_history (db w))
                  \/ In (AwaitHistoryInsert h) (running w)).

(** No block call is suspended at the insert of its history record. *)
Definition no_history_pending (w : World) : Prop :=
  forall h, ~ In (AwaitHistoryInsert h) (running w).

(** No address appears twice in the whitelist. *)
Definition whitelist_unique (w : World) : Prop :=
  NoDup (List.map wl_ip (whitelist (db w))).

(** The cached policy holds a threshold in [0, 1] and a positive block
    duration. *)
Definition policy_ok (w : World) : Prop :=
  exists th dur,
    CONFIG_CACHE w !! "threshold"%string = Some (VFloat th)
    /\ (0 <= th)%Q /\ (th <= 1)%Q
    /\ CONFIG_CACHE w !! "block_duration_sec"%string = Some (VInt dur)
    /\ 0 < dur.

(** The cached threshold and block duration are those of the stored
    policy document. *)
Definition policy_synced (w : World) : Prop :=
  stored_field "threshold" (db w) = CONFIG_CACHE w !! "threshold"%string
  /\ stored_field "block_duration_sec" (db w)
     = CONFIG_CACHE w !! "block_duration_sec"%string.

(** Whether [blocking_enabled] reads as true in the cached policy. *)
Definition blocking_on (w : World) : bool :=
  truthy (default (VBool true) (CONFIG_CACHE w !! "blocking_enabled"%string)).

Definition whitelisted (addr : string) (w : World) : bool :=
  match find_whitelist addr (db w) with
  | Some _ => true
  | None => false
  end.

Definition sample_bson : Bson :=
  BDict [("_id", BObjectId "65f0c0ffee"); ("blocked_at", BDatetime 1000000);
         ("tags", BList [BStr "manual"; BDatetime 5]); ("score", BFloat (9 # 10))]%string.

(** The block request that [detect] queues for a feature vector. *)
Definition model_request (fv : FeatureVec) (dur : Z) : BlockRequest :=
  {| br_ip := src_ip fv; br_duration_sec := dur; br_reason := classify_attack_type fv;
     br_actor := "model"; br_note := None |}.

(** The policy values [detect] reads: the cached threshold and block
    duration, or the defaults of the environment. *)
Definition policy_reads (env : Env) (w : World) (th : Q) (dur : Z) : Prop :=
  to_float (default (VFloat (DEFAULT_THRESHOLD env))
              (CONFIG_CACHE w !! "threshold"%string)) = Some th
  /\ to_int (default (VInt (DEFAULT_BLOCK_DURATION_SEC env))
               (CONFIG_CACHE w !! "block_duration_sec"%string)) = Some dur.

(** Every active block and every queued block request has a positive
    duration, and an active block expires in the store at its
    [unblock_at]; so does the document of every block call suspended at
    its insert. *)
Definition durations_positive (w : World) : Prop :=
  Forall (fun b => 0 < duration_sec b /\ expireAt b = unblock_at b) (blocked_ips (db w))
  /\ Forall (fun r => 0 < br_duration_sec r) (background_tasks w)
  /\ Forall (fun c => match c with
                      | AwaitBlockInsert doc =>
                          0 < duration_sec doc /\ expireAt doc = unblock_at doc
                      | _ => True
                      end) (running w).

(** The duration [manual_block] uses for a request. *)
Definition effective_duration (env : Env) (payload : ManualBlockRequest) : Z :=
  match mb_duration_sec payload with
  | Some d => if d =? 0 then DEFAULT_BLOCK_DURATION_SEC env else d
  | None => DEFAULT_BLOCK_DURATION_SEC env
  end.

End Api.

(** * Properties *)

(** ** Numbers *)

Lemma Qlt_bool_iff x y : Qlt_bool x y = true <-> (x < y)%Q.
Proof.
  unfold Qlt_bool. rewrite negb_true_iff. split.
  - intros H. apply Qnot_le_lt. intros Hle.
    apply Qle_bool_iff in Hle. congruence.
  - intros H. destruct (Qle_bool y x) eqn:E; [|reflexivity].
    apply Qle_bool_iff in E. exfalso. exact (Qlt_not_le _ _ H E).
Qed.

Lemma Qlt_bool_false_iff x y : Qlt_bool x y = false <-> (y <= x)%Q.
Proof.
  unfold Qlt_bool. rewrite negb_false_iff. apply Qle_bool_iff.
Qed.

Lemma py_max_l a b : (b <= a)%Q -> py_max a b = a.
Proof.
  intros H. unfold py_max. apply Qlt_bool_false_iff in H. now rewrite H.
Qed.

Lemma py_max_r a b : (a < b)%Q -> py_max a b = b.
Proof.
  intros H. unfold py_max. apply Qlt_bool_iff in H. now rewrite H.
Qed.

Lemma py_max_Qmax a b : (py_max a b == Qmax a b)%Q.
Proof.
  unfold py_max. destruct (Qlt_bool a b) eqn:E.
  - apply Qlt_bool_iff in E. symmetry. apply Q.max_r. now apply Qlt_le_weak.
  - apply Qlt_bool_false_iff in E. symmetry. now apply Q.max_l.
Qed.

(** ** Binary64 rounding *)

Section Rounding.
Local Open Scope Q_scope.

Lemma pow2_pos e : 0 < pow2 e.
Proof. apply Qpower_0_lt. reflexivity. Qed.

Lemma pow2_add a b : pow2 (a + b) == pow2 a * pow2 b.
Proof. apply Qpower_plus. discriminate. Qed.

Lemma pow2_le a b : (a <= b)%Z -> pow2 a <= pow2 b.
Proof. intros H. apply Qpower_le_compat_l; [exact H | discriminate]. Qed.

Lemma pow2_Z e : (0 <= e)%Z -> pow2 e == inject_Z (2 ^ e).
Proof. intros H. unfold pow2. now rewrite Zpower_Qpower. Qed.

Lemma rne_bounds q : inject_Z (rne q) - (1 # 2) <= q /\ q <= inject_Z (rne q) + (1 # 2).
Proof.
  unfold rne. pose proof (Qfloor_le q) as Hlo. pose proof (Qlt_floor q) as Hhi.
  rewrite inject_Z_plus in Hhi. change (inject_Z 1) with 1 in Hhi.
  destruct (Qcompare_spec (q - inject_Z (Qfloor q)) (1 # 2)) as [E | E | E].
  - destruct (Z.even (Qfloor q)); [|rewrite inject_Z_plus; change (inject_Z 1) with 1]; lra.
  - lra.
  - rewrite inject_Z_plus. change (inject_Z 1) with 1. lra.
Qed.

Lemma rne_Z n : rne (inject_Z n) = n.
Proof.
  unfold rne. rewrite Qfloor_Z.
  destruct (Qcompare_spec (inject_Z n - inject_Z n) (1 # 2)) as [E | E | E];
    [lra | reflexivity | lra].
Qed.

Lemma rne_le q q' : q <= q' -> (rne q <= rne q')%Z.
Proof.
  intros H. pose proof (Qfloor_resp_le _ _ H) as Hf.
  destruct (Z.eq_dec (Qfloor q) (Qfloor q')) as [E | Hne].
  - unfold rne. rewrite <- E.
    destruct (Qcompare_spec (q - inject_Z (Qfloor q)) (1 # 2)) as [E1 | E1 | E1];
      destruct (Qcompare_spec (q' - inject_Z (Qfloor q)) (1 # 2)) as [E2 | E2 | E2];
      try destruct (Z.even (Qfloor q)); try lia; lra.
  - assert (Hlt : (Qfloor q + 1 <= Qfloor q')%Z) by lia.
    assert (H1 : (rne q <= Qfloor q + 1)%Z).
    { unfold rne. destruct (Qcompare _ _); try destruct (Z.even _); lia. }
    assert (H2 : (Qfloor q' <= rne q')%Z).
    { unfold rne. destruct (Qcompare _ _); try destruct (Z.even _); lia. }
    lia.
Qed.

Lemma rne_le_Z q n : q <= inject_Z n -> (rne q <= n)%Z.
Proof. intros H. rewrite <- (rne_Z n). now apply rne_le. Qed.

Lemma rne_ge_Z q n : inject_Z n <= q -> (n <= rne q)%Z.
Proof. intros H. rewrite <- (rne_Z n). now apply rne_le. Qed.

Lemma Qabs_frac x : Qabs x == inject_Z (Z.abs (Qnum x)) / inject_Z (Zpos (Qden x)).
Proof. destruct x as [n d]. cbn [Qabs Qnum Qden]. apply Qmake_Qdiv. Qed.

Lemma log2_bounds n : (0 < n)%Z -> pow2 (Z.log2 n) <= inject_Z n < pow2 (Z.log2 n + 1).
Proof.
  intros H. destruct (Z.log2_spec n H) as [H1 H2].
  pose proof (Z.log2_nonneg n) as H0.
  rewrite !pow2_Z by lia. rewrite <- Zle_Qle, <- Zlt_Qlt.
  unfold Z.succ in H2. auto.
Qed.

(** [mag x] is the binary exponent of [x]. *)
Lemma mag_spec x : ~ x == 0 -> pow2 (mag x - 1) <= Qabs x /\ Qabs x < pow2 (mag x).
Proof.
  intros Hx.
  assert (Hn : (0 < Z.abs (Qnum x))%Z).
  { destruct x as [n d]. unfold Qeq in Hx. cbn in *. lia. }
  destruct (log2_bounds _ Hn) as [Hn1 Hn2].
  destruct (log2_bounds (Zpos (Qden x)) eq_refl) as [Hd1 Hd2].
  set (A := inject_Z (Z.abs (Qnum x))) in *. set (D := inject_Z (Zpos (Qden x))) in *.
  set (ln := Z.log2 (Z.abs (Qnum x))) in *. set (ld := Z.log2 (Zpos (Qden x))) in *.
  assert (HD : 0 < D) by (unfold D; rewrite <- (Zlt_Qlt 0); reflexivity).
  pose proof (Qabs_frac x) as Habs. fold A D in Habs.
  assert (Hup : Qabs x < pow2 (ln - ld + 1)).
  { rewrite Habs. apply Qlt_shift_div_r; [exact HD|].
    eapply Qlt_le_trans; [exact Hn2|].
    replace (ln + 1)%Z with ((ln - ld + 1) + ld)%Z by lia. rewrite pow2_add.
    apply Qmult_le_l; [apply pow2_pos | exact Hd1]. }
  assert (Hlo : pow2 (ln - ld - 1) < Qabs x).
  { rewrite Habs. apply Qlt_shift_div_l; [exact HD|].
    eapply Qlt_le_trans; [|exact Hn1].
    replace ln with ((ln - ld - 1) + (ld + 1))%Z at 2 by lia. rewrite pow2_add.
    apply Qmult_lt_l; [apply pow2_pos | exact Hd2]. }
  unfold mag. fold ln ld.
  destruct (Qle_bool (pow2 (ln - ld)) (Qabs x)) eqn:E.
  - apply Qle_bool_iff in E. replace (ln - ld + 1 - 1)%Z with (ln - ld)%Z by lia. auto.
  - assert (E' : Qabs x < pow2 (ln - ld)).
    { apply Qnot_le_lt. intros H. apply Qle_bool_iff in H. congruence. }
    split; [apply Qlt_le_weak; exact Hlo | exact E'].
Qed.

Lemma pow2_lt_inv a b : pow2 a < pow2 b -> (a < b)%Z.
Proof.
  intros H. destruct (Z_lt_le_dec a b) as [Hlt | Hge]; [exact Hlt|].
  exfalso. apply (Qlt_not_le _ _ H). now apply pow2_le.
Qed.

Lemma mag_le x y : ~ x == 0 -> ~ y == 0 -> Qabs x <= Qabs y -> (mag x <= mag y)%Z.
Proof.
  intros Hx Hy Hle.
  destruct (mag_spec x Hx) as [Hx1 _]. destruct (mag_spec y Hy) as [_ Hy2].
  assert (H : pow2 (mag x - 1) < pow2 (mag y)).
  { eapply Qle_lt_trans; [exact Hx1|]. eapply Qle_lt_trans; [exact Hle | exact Hy2]. }
  apply pow2_lt_inv in H. lia.
Qed.

Lemma round64_0 x : x == 0 -> round64 x = 0.
Proof. intros H. unfold round64. apply Qeq_bool_iff in H. now rewrite H. Qed.

Lemma round64_eq x :
  ~ x == 0 -> round64 x == inject_Z (rne (x / pow2 (cexp x))) * pow2 (cexp x).
Proof.
  intros H. unfold round64. destruct (Qeq_bool x 0) eqn:E.
  - apply Qeq_bool_iff in E. contradiction.
  - apply Qred_correct.
Qed.

(** A multiple of the unit in the last place of [x] that is not below [x]
    is not below its rounding. *)
Lemma round64_le_grid x M :
  ~ x == 0 -> x <= inject_Z M * pow2 (cexp x) -> round64 x <= inject_Z M * pow2 (cexp x).
Proof.
  intros Hx H. rewrite (round64_eq x Hx).
  apply Qmult_le_compat_r; [|apply Qlt_le_weak, pow2_pos].
  rewrite <- Zle_Qle. apply rne_le_Z.
  apply Qle_shift_div_r; [apply pow2_pos | exact H].
Qed.

(** A float is a multiple of every power of two up to its own unit in the
    last place. *)
Lemma float_on_grid t c :
  is_float64 t -> ~ t == 0 -> (c <= cexp t)%Z -> exists M, t == inject_Z M * pow2 c.
Proof.
  intros Hf Ht Hc. unfold is_float64 in Hf. rewrite (round64_eq t Ht) in Hf.
  exists (rne (t / pow2 (cexp t)) * 2 ^ (cexp t - c))%Z.
  rewrite <- Hf at 1. rewrite inject_Z_mult, <- pow2_Z by lia.
  rewrite <- Qmult_assoc, <- pow2_add.
  replace (cexp t - c + c)%Z with (cexp t) by lia. reflexivity.
Qed.

(** Rounding is monotone against floats: a float that is not below [x] is
    not below the rounding of [x]. *)
Theorem round64_le_float x t : is_float64 t -> x <= t -> round64 x <= t.
Proof.
  intros Hf Hle.
  destruct (Qeq_dec x 0) as [Hx0 | Hx].
  { rewrite (round64_0 x Hx0). now rewrite <- Hx0. }
  destruct (Qeq_dec t 0) as [Ht0 | Ht].
  { rewrite Ht0 in *.
    assert (H : round64 x <= inject_Z 0 * pow2 (cexp x)).
    { apply round64_le_grid; [exact Hx|]. now rewrite Qmult_0_l. }
    now rewrite Qmult_0_l in H. }
  destruct (Z_le_gt_dec (cexp x) (cexp t)) as [Hc | Hc].
  { destruct (float_on_grid t (cexp x) Hf Ht Hc) as [M HM].
    rewrite HM in *. now apply round64_le_grid. }
  (* the float has the smaller exponent: [x] is negative and a power of
     two lies between them *)
  assert (Hmag : (mag t < mag x)%Z) by (unfold cexp in Hc; lia).
  assert (Hcx : cexp x = (mag x - 53)%Z) by (unfold cexp in *; lia).
  destruct (mag_spec x Hx) as [Hx1 _]. destruct (mag_spec t Ht) as [_ Ht2].
  assert (Hpow : pow2 (mag t) <= pow2 (mag x - 1)) by (apply pow2_le; lia).
  assert (Habs : Qabs t < Qabs x).
  { eapply Qlt_le_trans; [exact Ht2|]. eapply Qle_trans; [exact Hpow | exact Hx1]. }
  assert (Hneg : x < 0).
  { apply Qnot_le_lt. intros Hpos.
    assert (Htpos : 0 <= t) by (eapply Qle_trans; [exact Hpos | exact Hle]).
    rewrite (Qabs_pos x Hpos), (Qabs_pos t Htpos) in Habs.
    exact (Qlt_not_le _ _ Habs Hle). }
  assert (Hxabs : Qabs x == - x) by (apply Qabs_neg; now apply Qlt_le_weak).
  assert (Hgrid : pow2 (mag x - 1) == inject_Z (2 ^ 52) * pow2 (cexp x)).
  { rewrite <- pow2_Z by lia. rewrite <- pow2_add. rewrite Hcx.
    replace (52 + (mag x - 53))%Z with (mag x - 1)%Z by lia. reflexivity. }
  assert (Hbound : round64 x <= inject_Z (- 2 ^ 52) * pow2 (cexp x)).
  { apply round64_le_grid; [exact Hx|].
    rewrite inject_Z_opp. setoid_replace (- inject_Z (2 ^ 52) * pow2 (cexp x))
      with (- (inject_Z (2 ^ 52) * pow2 (cexp x))) using relation Qeq by ring.
    rewrite <- Hgrid. rewrite Hxabs in Hx1. lra. }
  rewrite inject_Z_opp in Hbound.
  setoid_replace (- inject_Z (2 ^ 52) * pow2 (cexp x))
    with (- (inject_Z (2 ^ 52) * pow2 (cexp x))) using relation Qeq in Hbound by ring.
  rewrite <- Hgrid in Hbound.
  assert (Ht_lo : - Qabs t <= t).
  { destruct (Qabs_Qle_condition t (Qabs t)) as [H _]. apply H. apply Qle_refl. }
  lra.
Qed.

(** The rounding of [x] is within half a unit in the last place of [x]. *)
Lemma round64_nearest x :
  ~ x == 0 -> Qabs (round64 x - x) <= (1 # 2) * pow2 (cexp x).
Proof.
  intros Hx. rewrite (round64_eq x Hx).
  pose proof (pow2_pos (cexp x)) as Hp.
  destruct (rne_bounds (x / pow2 (cexp x))) as [H1 H2].
  assert (Hq : x / pow2 (cexp x) * pow2 (cexp x) == x).
  { field. intros E. rewrite E in Hp. discriminate. }
  set (m := inject_Z (rne (x / pow2 (cexp x)))) in *.
  set (q := x / pow2 (cexp x)) in *. set (p := pow2 (cexp x)) in *.
  assert (A1 : (m - (1 # 2)) * p <= q * p)
    by (apply Qmult_le_compat_r; [exact H1 | now apply Qlt_le_weak]).
  assert (A2 : q * p <= (m + (1 # 2)) * p)
    by (apply Qmult_le_compat_r; [exact H2 | now apply Qlt_le_weak]).
  rewrite Hq in A1, A2.
  apply Qabs_Qle_condition. split; lra.
Qed.

(** The window start the code computes is not above any float timestamp
    that is inside the exact window. *)
Lemma window_start_le_float T W t : is_float64 t -> T - W <= t -> fsub T W <= t.
Proof. apply round64_le_float. Qed.

End Rounding.

(** On the sample operands [fsub] agrees with the binary64 subtraction of
    the Standard Library's IEEE 754 model. *)
Example fsub_agrees_with_SFsub :
  forallb (fun xy : spec_float * spec_float =>
             Qeq_bool (SF2Q (SFsub 53 1024 xy.1 xy.2)) (fsub (SF2Q xy.1) (SF2Q xy.2)))
    binary64_samples = true.
Proof. vm_compute. reflexivity. Qed.

(** ** The sliding window *)

Section Window.
Import Extractor.

Lemma popleft_old_split ws dq :
  exists evicted,
    dq = evicted ++ popleft_old ws dq
    /\ Forall (fun ev => (ts ev < ws)%Q) evicted.
Proof.
  induction dq as [|ev rest IH]; simpl.
  - exists []. split; [reflexivity | constructor].
  - destruct (Qlt_bool (ts ev) ws) eqn:E.
    + destruct IH as (evicted & Heq & Hall).
      exists (ev :: evicted). split.
      * simpl. now rewrite <- Heq.
      * constructor; [now apply Qlt_bool_iff | exact Hall].
    + exists []. split; [reflexivity | constructor].
Qed.

Lemma filter_in_window_id ws (l : list Event) :
  Forall (fun ev => (ws <= ts ev)%Q) l -> List.filter (in_window ws) l = l.
Proof.
  induction 1 as [|ev l Hev _ IH]; simpl; [reflexivity|].
  unfold in_window at 1. apply Qle_bool_iff in Hev. rewrite Hev. now rewrite IH.
Qed.

Lemma nondecreasing_tail ev rest : nondecreasing (ev :: rest) -> nondecreasing rest.
Proof. intros H. now inversion H. Qed.

Lemma nondecreasing_head_le ev rest :
  nondecreasing (ev :: rest) -> Forall (fun e => (ts ev <= ts e)%Q) rest.
Proof.
  intros H. apply Sorted_StronglySorted in H.
  - now inversion H.
  - intros a b c Hab Hbc. exact (Qle_trans _ _ _ Hab Hbc).
Qed.

(** On a time-ordered deque, popping stale events from the front leaves
    exactly the events inside the window. *)
Lemma popleft_old_filter ws dq :
  nondecreasing dq -> popleft_old ws dq = List.filter (in_window ws) dq.
Proof.
  induction dq as [|ev rest IH]; intros Hs; [reflexivity|].
  cbn [popleft_old]. destruct (Qlt_bool (ts ev) ws) eqn:E.
  - cbn [List.filter]. unfold in_window at 1.
    apply Qlt_bool_iff in E.
    destruct (Qle_bool ws (ts ev)) eqn:E2.
    + apply Qle_bool_iff in E2. exfalso. exact (Qlt_not_le _ _ E E2).
    + apply IH. exact (nondecreasing_tail _ _ Hs).
  - apply Qlt_bool_false_iff in E. symmetry. apply filter_in_window_id.
    constructor; [exact E|].
    eapply Forall_impl; [exact (nondecreasing_head_le _ _ Hs)|].
    intros e He. exact (Qle_trans _ _ _ E He).
Qed.

(** What the aggregation loop accumulates, from any starting accumulator. *)
Lemma fold_loop_body_sums l a :
  a_total_packets (fold_left loop_body l a) = a_total_packets a + Z.of_nat (length l)
  /\ a_total_bytes (fold_left loop_body l a) = a_total_bytes a + sum_of size l
  /\ a_syn_count (fold_left loop_body l a) = a_syn_count a + sum_of is_syn l
  /\ a_dst_ports (fold_left loop_body l a) = ports_of l ∪ a_dst_ports a.
Proof.
  revert a. induction l as [|ev l IH]; intros a.
  - cbn. repeat split; try lia. symmetry. apply (left_id_L ∅ (∪)).
  - cbn [fold_left length sum_of ports_of fold_right].
    destruct (IH (loop_body a ev)) as (Hp & Hb & Hs & Hd).
    rewrite Hp, Hb, Hs, Hd. cbn [loop_body a_total_packets a_total_bytes a_syn_count a_dst_ports].
    fold (sum_of size l). fold (sum_of is_syn l). fold (ports_of l).
    repeat split; try lia.
    destruct (dport ev) as [p|]; [|reflexivity].
    now rewrite (assoc_L (∪)), (comm_L (∪) (ports_of l)).
Qed.

Lemma aggregate_sums l :
  a_total_packets (aggregate l) = Z.of_nat (length l)
  /\ a_total_bytes (aggregate l) = sum_of size l
  /\ a_syn_count (aggregate l) = sum_of is_syn l
  /\ a_dst_ports (aggregate l) = ports_of l.
Proof.
  unfold aggregate. destruct (fold_loop_body_sums l acc0) as (Hp & Hb & Hs & Hd).
  rewrite Hp, Hb, Hs, Hd. cbn. repeat split; try lia. apply (right_id_L ∅ (∪)).
Qed.

Lemma ports_of_no_port l :
  Forall (fun ev => dport ev = None) l -> ports_of l = ∅.
Proof.
  induction 1 as [|ev l Hev _ IH]; [reflexivity|].
  cbn [ports_of fold_right]. rewrite Hev. exact IH.
Qed.

(** The two outcomes of [compute_features_for_src] in terms of the trimmed
    deque. *)
Lemma compute_features_unfold src W T st dq :
  buffers st !! src = Some dq ->
  let res := compute_features_for_src src W T st in
  let dq' := popleft_old (fsub T W) dq in
  buffers res.1 !! src = Some dq'
  /\ (forall s, s ≠ src -> buffers res.1 !! s = buffers st !! s)
  /\ res.2 = match dq' with
             | [] => None
             | _ :: _ => Some (features_of src W T dq')
             end.
Proof.
  intros Hdq. unfold compute_features_for_src. rewrite Hdq.
  destruct dq as [|ev rest].
  - cbn. auto.
  - destruct (popleft_old (fsub T W) (ev :: rest)) as [|ev' rest'] eqn:E; cbn -[popleft_old].
    + repeat split; [apply lookup_insert_eq|].
      intros s Hs. now apply lookup_insert_ne.
    + repeat split; [apply lookup_insert_eq|].
      intros s Hs. now apply lookup_insert_ne.
Qed.

Lemma len_or_1_pos n : 0 <= n -> 1 <= len_or_1 n.
Proof. unfold len_or_1. intros H. destruct (n =? 0) eqn:E; lia. Qed.

(** C1 as stated fails at the edge of the window: the code compares
    timestamps with the float [now - window_size], not with the exact
    difference. With [T] = 1700000000, [W] the float 0.002 and an event
    stamped with the float 1699999999.998, the exact [T - W] lies above the
    timestamp, but it rounds to the timestamp itself; the event is not
    below the computed window start, so it is kept and reported. *)
Lemma window_start_is_rounded :
  let T := 1700000000%Q in
  let W := (1152921504606847 # 576460752303423488)%Q in
  let ev := sample_event (7130316799991611 # 4194304) (Some 80) 60 in
  let st := {| buffers := {[ "198.51.100.7"%string := [ev] ]};
               last_activity := {[ "198.51.100.7"%string := ts ev ]};
               replay_done := false |} in
  (ts ev < T - W)%Q
  /\ fsub T W = ts ev
  /\ buffers (compute_features_for_src "198.51.100.7" W T st).1 !! "198.51.100.7"%string
     = Some [ev]
  /\ exists f,
       (compute_features_for_src "198.51.100.7" W T st).2 = Some f
       /\ total_packets f = 1.
Proof.
  cbv zeta. split; [reflexivity|]. split; [vm_compute; reflexivity|].
  split; [vm_compute; reflexivity|].
  eexists. split; [vm_compute; reflexivity | reflexivity].
Qed.

(** C1, amended: on a buffer with non-decreasing timestamps,
    [compute_features_for_src] with window [W] at time [T] pops from the
    front exactly the events with [ts < window_start], where
    [window_start] is the float [T - W] (the exact difference rounded to
    binary64); it leaves in the buffer exactly the events with
    [ts >= window_start], returns [None] when none is left, and otherwise
    returns the feature vector computed from exactly those events (its
    packet, byte and SYN totals are the count and sums over them), which
    reports that [window_start]. Other sources' buffers are untouched. *)
Theorem compute_window_exact st src dq W T :
  buffers st !! src = Some dq ->
  nondecreasing dq ->
  let kept := List.filter (in_window (fsub T W)) dq in
  let res := compute_features_for_src src W T st in
  buffers res.1 !! src = Some kept
  /\ (exists evicted,
        dq = evicted ++ kept /\ Forall (fun ev => (ts ev < fsub T W)%Q) evicted)
  /\ Forall (fun ev => (fsub T W <= ts ev)%Q) kept
  /\ (forall s, s ≠ src -> buffers res.1 !! s = buffers st !! s)
  /\ match kept with
     | [] => res.2 = None
     | _ :: _ =>
         res.2 = Some (features_of src W T kept)
         /\ total_packets (features_of src W T kept) = Z.of_nat (length kept)
         /\ total_bytes (features_of src W T kept) = sum_of size kept
         /\ syn_count (features_of src W T kept) = sum_of is_syn kept
         /\ window_start (extra (features_of src W T kept)) = fsub T W
     end.
Proof.
  intros Hdq Hs kept res.
  destruct (compute_features_unfold src W T st dq Hdq) as (Hbuf & Hother & Hres).
  fold res in Hbuf, Hother, Hres.
  rewrite (popleft_old_filter _ _ Hs) in Hbuf, Hres. fold kept in Hbuf, Hres.
  split; [exact Hbuf|]. split.
  - destruct (popleft_old_split (fsub T W) dq) as (evicted & Heq & Hall).
    rewrite (popleft_old_filter _ _ Hs) in Heq. now exists evicted.
  - split.
    + apply List.Forall_forall. intros ev Hin.
      apply List.filter_In in Hin. destruct Hin as [_ Hin].
      now apply Qle_bool_iff in Hin.
    + split; [exact Hother|].
      destruct kept as [|ev rest] eqn:Ek; [exact Hres|].
      split; [exact Hres|].
      unfold features_of. cbn [total_packets total_bytes syn_count extra window_start].
      destruct (aggregate_sums (ev :: rest)) as (Hp & Hb & Hsy & _).
      now rewrite Hp, Hb, Hsy.
Qed.

Lemma sample_dq_nondecreasing : nondecreasing sample_dq.
Proof.
  unfold nondecreasing, sample_dq.
  repeat (constructor; cbn [ts sample_event]); unfold Qle; cbn; lia.
Defined.

Lemma compute_window_exact_witness :
  buffers sample_store !! "198.51.100.7"%string = Some sample_dq
  /\ nondecreasing sample_dq
  /\ buffers (compute_features_for_src "198.51.100.7" 5 10 sample_store).1
       !! "198.51.100.7"%string
     = Some (List.filter (in_window (fsub 10 5)) sample_dq).
Proof.
  assert (H1 : buffers sample_store !! "198.51.100.7"%string = Some sample_dq)
    by reflexivity.
  split; [exact H1|]. split; [exact sample_dq_nondecreasing|].
  exact (proj1 (compute_window_exact sample_store "198.51.100.7" sample_dq 5 10
                  H1 sample_dq_nondecreasing)).
Defined.

(** C5 as stated fails: a buffer left with a single event (timestamp 9,
    window 5 at time 10) yields a duration different from the window size,
    and a packet rate of one million per second. *)
Lemma single_event_duration_not_window :
  popleft_old (fsub 10 5) sample_dq = [sample_event 9 None 84]
  /\ exists f,
       (compute_features_for_src "198.51.100.7" 5 10 sample_store).2 = Some f
       /\ ~ (duration f == 5)%Q
       /\ (pkts_per_sec f == 1000000)%Q.
Proof.
  split; [reflexivity|].
  eexists. split; [reflexivity|]. split.
  - intros H. vm_compute in H. discriminate H.
  - vm_compute. reflexivity.
Qed.

(** C5, amended: when exactly one event is left after trimming, the
    duration is the floor [eps] = 1e-6 (the span of a single event is 0),
    whatever the window size; hence [pkts_per_sec] is 1000000 and
    [bytes_per_sec] is the event size times 1000000. *)
Theorem single_event_duration st src W T dq ev :
  buffers st !! src = Some dq ->
  popleft_old (fsub T W) dq = [ev] ->
  exists f,
    (compute_features_for_src src W T st).2 = Some f
    /\ duration f = eps
    /\ (pkts_per_sec f == 1000000)%Q
    /\ (bytes_per_sec f == inject_Z (size ev) * 1000000)%Q.
Proof.
  intros Hdq Htrim.
  destruct (compute_features_unfold src W T st dq Hdq) as (_ & _ & Hres).
  rewrite Htrim in Hres.
  exists (features_of src W T [ev]). split; [exact Hres|].
  assert (Hd : duration (features_of src W T [ev]) = eps).
  { unfold features_of, aggregate, duration_of.
    cbn [fold_left loop_body acc0 a_first_ts a_last_ts duration].
    apply py_max_r. unfold eps. lra. }
  split; [exact Hd|].
  unfold features_of in *. cbn [duration pkts_per_sec bytes_per_sec] in *.
  rewrite Hd. replace (Qlt_bool 0 eps) with true by reflexivity.
  unfold aggregate. cbn. unfold eps. split.
  - reflexivity.
  - unfold Qeq. cbn. lia.
Qed.

Lemma single_event_duration_witness :
  exists f,
    (compute_features_for_src "198.51.100.7" 5 10 sample_store).2 = Some f
    /\ duration f = eps
    /\ (pkts_per_sec f == 1000000)%Q
    /\ (bytes_per_sec f == inject_Z 84 * 1000000)%Q.
Proof.
  exact (single_event_duration sample_store "198.51.100.7" 5 10 sample_dq
           (sample_event 9 None 84) eq_refl eq_refl).
Defined.

(** C9: whenever the buffer of a source is non-empty after trimming,
    [compute_features_for_src] returns a feature vector whose
    [unique_dst_ports] is at least 1; it is exactly 1 when no retained
    event carries a destination port. *)
Theorem unique_dst_ports_positive st src W T kept :
  buffers (compute_features_for_src src W T st).1 !! src = Some kept ->
  kept ≠ [] ->
  exists f,
    (compute_features_for_src src W T st).2 = Some f
    /\ 1 <= unique_dst_ports f
    /\ (Forall (fun ev => dport ev = None) kept -> unique_dst_ports f = 1).
Proof.
  intros Hkept Hne.
  destruct (buffers st !! src) as [dq|] eqn:Hdq.
  - destruct (compute_features_unfold src W T st dq Hdq) as (Hbuf & _ & Hres).
    rewrite Hbuf in Hkept. injection Hkept as Hk. rewrite Hk in Hres.
    destruct kept as [|ev rest]; [congruence|].
    exists (features_of src W T (ev :: rest)). split; [exact Hres|].
    unfold features_of. cbn [unique_dst_ports]. split.
    + apply len_or_1_pos. lia.
    + intros Hnone.
      destruct (aggregate_sums (ev :: rest)) as (_ & _ & _ & Hp).
      rewrite Hp, (ports_of_no_port _ Hnone). reflexivity.
  - unfold compute_features_for_src in Hkept. rewrite Hdq in Hkept. cbn in Hkept.
    congruence.
Qed.

Lemma unique_dst_ports_positive_witness :
  exists f,
    (compute_features_for_src "198.51.100.7" 5 10 sample_store).2 = Some f
    /\ 1 <= unique_dst_ports f
    /\ (Forall (fun ev => dport ev = None) [sample_event 9 None 84]
        -> unique_dst_ports f = 1).
Proof.
  refine (unique_dst_ports_positive sample_store "198.51.100.7" 5 10
            [sample_event 9 None 84] eq_refl _).
  discriminate.
Defined.

End Window.

(** ** The replay driver *)

Section Replay.
Import Extractor.

Lemma replay_loop_trace speed pkts : forall prev st i p q,
  pkts !! i = Some p ->
  pkts !! S i = Some q ->
  (replay_loop speed prev pkts st).2 !! (2 * i + 1)%nat = Some (Push (packet_to_event p))
  /\ (replay_loop speed prev pkts st).2 !! (2 * i + 2)%nat
     = Some (Sleep (replay_wait (time p) (time q) speed))
  /\ (replay_loop speed prev pkts st).2 !! (2 * i + 3)%nat
     = Some (Push (packet_to_event q)).
Proof.
  induction pkts as [|p0 rest IH]; intros prev st i p q Hp Hq; [discriminate|].
  cbn [replay_loop].
  destruct (replay_loop speed (time p0) rest (push_event (packet_to_event p0) st))
    as [st' tr] eqn:Etail.
  cbn [snd].
  destruct i as [|i].
  - cbn in Hp. injection Hp as ->.
    destruct rest as [|q0 rest']; [discriminate|].
    cbn in Hq. injection Hq as ->.
    cbn [replay_loop] in Etail.
    destruct (replay_loop speed (time q) rest'
                (push_event (packet_to_event q) (push_event (packet_to_event p) st)))
      as [st'' tr'].
    injection Etail as _ <-. cbn. auto.
  - cbn in Hp, Hq.
    specialize (IH (time p0) (push_event (packet_to_event p0) st) i p q Hp Hq).
    rewrite Etail in IH. cbn [snd] in IH.
    replace (2 * S i + 1)%nat with (S (S (2 * i + 1))) by lia.
    replace (2 * S i + 2)%nat with (S (S (2 * i + 2))) by lia.
    replace (2 * S i + 3)%nat with (S (S (2 * i + 3))) by lia.
    exact IH.
Qed.

Lemma start_replay_trace pkts speed st :
  pkts ≠ [] ->
  exists prev,
    (start_replay (Packets pkts) speed st).2 = (replay_loop speed prev pkts st).2.
Proof.
  intros Hne. destruct pkts as [|p0 rest]; [congruence|].
  exists (time p0). unfold start_replay.
  destruct (replay_loop speed (time p0) (p0 :: rest) st) as [st' tr]. reflexivity.
Qed.

Lemma replay_wait_Qmax prev cur speed :
  (replay_wait prev cur speed == Qmax 0 ((cur - prev) / Qmax 1 speed))%Q.
Proof.
  unfold replay_wait. rewrite py_max_Qmax.
  apply Q.max_compat; [reflexivity|].
  apply Qdiv_comp; [reflexivity|]. apply py_max_Qmax.
Qed.

Lemma Qmax0_nonneg x : (0 <= x)%Q -> (Qmax 0 x == x)%Q.
Proof. intros H. now apply Q.max_r. Qed.

Lemma Qdiv_nonneg x y : (0 <= x)%Q -> (0 < y)%Q -> (0 <= x / y)%Q.
Proof.
  intros Hx Hy. apply Qle_shift_div_l; [exact Hy|]. now rewrite Qmult_0_l.
Qed.

(** C8 as stated fails for a slow-down: two packets one second apart
    replayed at speed 1/2 are separated by a wait of 1 second, not 2. *)
Lemma replay_slowdown_not_scaled :
  exists w,
    (start_replay (Packets [sample_packet 0; sample_packet 1]) (1 # 2) empty_store).2
      !! 2%nat = Some (Sleep w)
    /\ (w == 1)%Q
    /\ ~ (w == Qmax 0 ((1 - 0) / (1 # 2)))%Q.
Proof.
  eexists. split; [reflexivity|]. split.
  - vm_compute. reflexivity.
  - intros H. vm_compute in H. discriminate H.
Qed.

(** C8, amended: between appending two consecutive packets [p] and [q] of
    the capture the replay driver sleeps
    [max(0, (time q - time p) / max(1, speed))]. For non-decreasing
    timestamps this is the gap divided by the speed when [speed >= 1], and
    the unscaled gap when [speed <= 1]. *)
Theorem replay_wait_between_packets pkts speed st i p q :
  pkts !! i = Some p ->
  pkts !! S i = Some q ->
  let tr := (start_replay (Packets pkts) speed st).2 in
  let wait := replay_wait (time p) (time q) speed in
  tr !! (2 * i + 1)%nat = Some (Push (packet_to_event p))
  /\ tr !! (2 * i + 2)%nat = Some (Sleep wait)
  /\ tr !! (2 * i + 3)%nat = Some (Push (packet_to_event q))
  /\ (wait == Qmax 0 ((time q - time p) / Qmax 1 speed))%Q
  /\ ((time p <= time q)%Q -> (1 <= speed)%Q ->
      (wait == (time q - time p) / speed)%Q)
  /\ ((time p <= time q)%Q -> (speed <= 1)%Q ->
      (wait == time q - time p)%Q).
Proof.
  intros Hp Hq tr wait.
  assert (Hne : pkts ≠ []) by (intros ->; discriminate).
  subst tr. destruct (start_replay_trace pkts speed st Hne) as [prev ->].
  destruct (replay_loop_trace speed pkts prev st i p q Hp Hq) as (H1 & H2 & H3).
  repeat (split; [assumption|]).
  split; [apply replay_wait_Qmax|].
  split; intros Hle Hs; subst wait; rewrite replay_wait_Qmax.
  - assert (Hm : (Qmax 1 speed == speed)%Q) by now apply Q.max_r.
    rewrite Hm. apply Qmax0_nonneg. apply Qdiv_nonneg; lra.
  - assert (Hm : (Qmax 1 speed == 1)%Q) by now apply Q.max_l.
    rewrite Hm. rewrite Qmax0_nonneg.
    + field.
    + apply Qdiv_nonneg; lra.
Qed.

Lemma replay_wait_between_packets_witness :
  (start_replay (Packets [sample_packet 0; sample_packet 3]) 2 empty_store).2 !! 2%nat
    = Some (Sleep (replay_wait 0 3 2))
  /\ (replay_wait 0 3 2 == (3 - 0) / 2)%Q.
Proof.
  pose proof (replay_wait_between_packets [sample_packet 0; sample_packet 3] 2
                empty_store 0 (sample_packet 0) (sample_packet 3) eq_refl eq_refl)
    as (_ & H2 & _ & _ & H5 & _).
  split; [exact H2|].
  apply H5; unfold Qle; cbn; lia.
Defined.

End Replay.

(** ** Attack-type classification *)

Section Classification.
Import Api.

Lemma port_scan_rule_400_500 fv :
  unique_dst_ports fv = 400 -> total_packets fv = 500 -> port_scan_rule fv = true.
Proof.
  intros Hu Ht. unfold port_scan_rule. rewrite Hu, Ht. reflexivity.
Qed.

(** C6: [classify_attack_type] returns the label of the first rule that
    matches in the order port scan, flood, brute force, low-and-slow,
    generic; a rule's label is returned only when every earlier rule fails;
    and a vector with 400 distinct destination ports and 500 packets is a
    port scan whatever its other fields. *)
Theorem classify_first_match_wins fv :
  first_match ordered_rules fv = Some (classify_attack_type fv)
  /\ (port_scan_rule fv = true -> classify_attack_type fv = "Port Scan"%string)
  /\ (port_scan_rule fv = false -> ddos_rule fv = true ->
      classify_attack_type fv = "DDoS"%string)
  /\ (port_scan_rule fv = false -> ddos_rule fv = false ->
      brute_force_rule fv = true -> classify_attack_type fv = "Brute Force"%string)
  /\ (port_scan_rule fv = false -> ddos_rule fv = false ->
      brute_force_rule fv = false -> bot_rule fv = true ->
      classify_attack_type fv = "Bot"%string)
  /\ (port_scan_rule fv = false -> ddos_rule fv = false ->
      brute_force_rule fv = false -> bot_rule fv = false ->
      classify_attack_type fv = "Suspicious Activity"%string)
  /\ (unique_dst_ports fv = 400 -> total_packets fv = 500 ->
      classify_attack_type fv = "Port Scan"%string).
Proof.
  unfold classify_attack_type, ordered_rules. cbn [first_match].
  split.
  { destruct (port_scan_rule fv), (ddos_rule fv), (brute_force_rule fv), (bot_rule fv);
      reflexivity. }
  repeat split.
  - now intros ->.
  - now intros -> ->.
  - now intros -> -> ->.
  - now intros -> -> -> ->.
  - now intros -> -> -> ->.
  - intros Hu Ht. now rewrite (port_scan_rule_400_500 fv Hu Ht).
Qed.

Lemma classify_first_match_wins_witness :
  ddos_rule scan_and_flood = true
  /\ brute_force_rule scan_and_flood = true
  /\ classify_attack_type scan_and_flood = "Port Scan"%string.
Proof.
  split; [reflexivity|]. split; [reflexivity|].
  destruct (classify_first_match_wins scan_and_flood) as (_ & _ & _ & _ & _ & _ & H).
  exact (H eq_refl eq_refl).
Defined.

End Classification.

(** ** The enforcement boundary *)

Section Enforcement.
Import Api.

(** C4 as stated fails for the removal helper: on a host with real
    blocking enabled it runs the [iptables -D] command for a private
    address, and with real blocking disabled it takes the mock path for
    it. *)
Lemma unblock_private_attempted :
  startswith_any "10.0.0.1" private_prefixes = true
  /\ unblock_ip_iptables linux_host "10.0.0.1"
     = (true, [Exec ["sudo"; "iptables"; "-D"; "INPUT"; "-s"; "10.0.0.1"; "-j"; "DROP"]%string;
               Succeeded Remove "10.0.0.1"])
  /\ unblock_ip_iptables mock_host "10.0.0.1" = (false, [MockSkip Remove "10.0.0.1"]).
Proof. repeat split; reflexivity. Qed.

Lemma prefix_app p rest : String.prefix p (p ++ rest) = true.
Proof.
  induction p as [|c p IH].
  - now destruct rest.
  - change (String.prefix (String c p) (String c (p ++ rest)) = true).
    cbn [String.prefix].
    destruct (Ascii.ascii_dec c c) as [_|Hne]; [exact IH | congruence].
Qed.

Lemma prefix_split p : forall s,
  String.prefix p s = true -> exists rest, s = (p ++ rest)%string.
Proof.
  induction p as [|c p IH]; intros s H.
  - exists s. reflexivity.
  - destruct s as [|c' s]; cbn in H; [discriminate|].
    destruct (Ascii.ascii_dec c c') as [->|]; [|discriminate].
    destruct (IH s H) as [rest ->]. exists rest. reflexivity.
Qed.

(** The test made by [block_ip_iptables] is membership in a private range. *)
Lemma startswith_private addr :
  startswith_any addr private_prefixes = true <-> in_private_range addr.
Proof.
  unfold startswith_any, in_private_range. rewrite existsb_exists. split.
  - intros (p & Hin & Hp). destruct (prefix_split p addr Hp) as [rest ->]. eauto.
  - intros (p & rest & Hin & ->). exists p. split; [exact Hin | apply prefix_app].
Qed.

(** C4, amended: for every address in a private or local range (one of
    the prefixes 127., 10., 192.168., 172.16. to 172.31. followed by
    anything), [block_ip_iptables] attempts nothing on any host: neither
    the [iptables] command nor the mock path; it records the refusal and
    returns [False] without raising. Accordingly a block scheduled for
    such an address adds nothing but that refusal to the enforcement
    trace. *)
Theorem block_private_refused env addr :
  in_private_range addr ->
  block_ip_iptables env addr = (false, [RefusedPrivate addr])
  /\ (forall t1 t2 t3 dur rsn act nt w w',
        schedule_block_and_unblock env t1 t2 t3 addr dur rsn act nt w = Some w' ->
        enforcement w' = enforcement w
        \/ enforcement w' = enforcement w ++ [RefusedPrivate addr])
  /\ (forall t i dur w,
        running w !! i = Some (AwaitEnforcement addr dur) ->
        enforcement (resume env t i w) = enforcement w ++ [RefusedPrivate addr]).
Proof.
  intros H. apply startswith_private in H.
  assert (Hb : block_ip_iptables env addr = (false, [RefusedPrivate addr])).
  { unfold block_ip_iptables. now rewrite H. }
  split; [exact Hb|]. split.
  - intros t1 t2 t3 dur rsn act nt w w'.
    unfold schedule_block_and_unblock.
    destruct (schedule_lookup t1 t2 addr dur rsn act nt (db w));
      [intros [= <-]; now left | discriminate |].
    intros [= <-]. right. cbn [enforcement apply_block]. now rewrite Hb.
  - intros t i dur w Hi. unfold resume. rewrite Hi.
    cbn [enforcement with_running apply_block]. now rewrite Hb.
Qed.

Lemma block_private_refused_witness :
  block_ip_iptables linux_host "172.20.3.4" = (false, [RefusedPrivate "172.20.3.4"]).
Proof.
  refine (proj1 (block_private_refused linux_host "172.20.3.4" _)).
  exists "172.20."%string, "3.4"%string. split; [|reflexivity].
  cbn. tauto.
Defined.

End Enforcement.

(** ** The mitigation scheduler *)

Section Scheduler.
Import Api.

Lemma find_none_filter {A} (f : A -> bool) (l : list A) :
  List.find f l = None -> List.filter f l = [].
Proof.
  induction l as [|x l IH]; cbn; [reflexivity|].
  destruct (f x); [discriminate | exact IH].
Qed.

Lemma find_some_filter {A} (f : A -> bool) (l : list A) x :
  List.find f l = Some x -> (1 <= length (List.filter f l))%nat.
Proof.
  induction l as [|y l IH]; cbn; [discriminate|].
  destruct (f y); cbn; [lia | exact IH].
Qed.

Lemma filter_nonempty_find {A} (f : A -> bool) (l : list A) :
  (1 <= length (List.filter f l))%nat -> exists x, List.find f l = Some x.
Proof.
  induction l as [|y l IH]; cbn; [lia|].
  destruct (f y); cbn; [eauto | exact IH].
Qed.

Lemma find_app_none {A} (f : A -> bool) (l : list A) x :
  List.find f l = None -> List.find f (l ++ [x]) = if f x then Some x else None.
Proof.
  induction l as [|y l IH]; cbn; [reflexivity|].
  destruct (f y); [discriminate | exact IH].
Qed.

Lemma find_filter_none {A} (f g : A -> bool) (l : list A) :
  (forall x, In x l -> f x = true -> g x = false) ->
  List.find f (List.filter g l) = None.
Proof.
  induction l as [|y l IH]; intros H; cbn; [reflexivity|].
  destruct (g y) eqn:Eg.
  - cbn. destruct (f y) eqn:Ef.
    + rewrite (H y (or_introl eq_refl) Ef) in Eg. discriminate.
    + apply IH. intros x Hx. apply H. now right.
  - apply IH. intros x Hx. apply H. now right.
Qed.

Lemma filter_filter_length {A} (f g : A -> bool) (l : list A) :
  (length (List.filter f (List.filter g l)) <= length (List.filter f l))%nat.
Proof.
  induction l as [|x l IH]; cbn; [lia|].
  destruct (g x), (f x) eqn:E; cbn; rewrite ?E; cbn; lia.
Qed.

Lemma active_count_same addr w w' :
  blocked_ips (db w') = blocked_ips (db w) -> active_count addr w' = active_count addr w.
Proof. unfold active_count. now intros ->. Qed.

(** *** Dates *)

Lemma unblock_time_some now dur u :
  unblock_time now dur = Some u ->
  u = now + timedelta_seconds dur /\ DATETIME_MIN <= u <= DATETIME_MAX.
Proof.
  unfold unblock_time, timedelta, datetime_add.
  destruct (_ && _); [|discriminate].
  destruct (_ && _) eqn:E; [|discriminate].
  intros [= <-]. apply andb_true_iff in E. destruct E as [E1 E2].
  apply Z.leb_le in E1, E2. auto.
Qed.

(** *** One call, uninterrupted *)

(** The three ways a call can go. *)
Lemma schedule_cases env t1 t2 t3 addr dur rsn act nt w :
  (exists b, find_block addr (db w) = Some b
     /\ schedule_lookup t1 t2 addr dur rsn act nt (db w) = AlreadyBlocked
     /\ schedule_block_and_unblock env t1 t2 t3 addr dur rsn act nt w = Some w)
  \/ (find_block addr (db w) = None /\ unblock_time t1 dur = None
      /\ schedule_lookup t1 t2 addr dur rsn act nt (db w) = RaisesOverflow
      /\ schedule_block_and_unblock env t1 t2 t3 addr dur rsn act nt w = None)
  \/ (exists u, find_block addr (db w) = None /\ unblock_time t1 dur = Some u
      /\ schedule_lookup t1 t2 addr dur rsn act nt (db w)
         = Builds (block_doc t2 u addr dur rsn act nt)
      /\ schedule_block_and_unblock env t1 t2 t3 addr dur rsn act nt w
         = Some (apply_block env addr dur
                   (insert_history (history_of (block_doc t2 u addr dur rsn act nt) t3)
                      (insert_block (block_doc t2 u addr dur rsn act nt) w)))).
Proof.
  unfold schedule_block_and_unblock, schedule_lookup.
  destruct (find_block addr (db w)) as [b|]; [left; eauto|].
  destruct (unblock_time t1 dur) as [u|]; [right; right; eauto | right; left; auto].
Qed.

(** What a call that returns does to the active-block collection. *)
Lemma schedule_blocked_ips env t1 t2 t3 addr dur rsn act nt w w' :
  schedule_block_and_unblock env t1 t2 t3 addr dur rsn act nt w = Some w' ->
  blocked_ips (db w')
  = match find_block addr (db w) with
    | Some _ => blocked_ips (db w)
    | None =>
        blocked_ips (db w) ++
        [block_doc t2 (t1 + timedelta_seconds dur) addr dur rsn act nt]
    end.
Proof.
  intros Hs.
  destruct (schedule_cases env t1 t2 t3 addr dur rsn act nt w)
    as [(b & Hf & _ & E) | [(Hf & _ & _ & E) | (u & Hf & Hu & _ & E)]];
    rewrite E in Hs; [|discriminate|]; injection Hs as <-; rewrite Hf; [reflexivity|].
  destruct (unblock_time_some _ _ _ Hu) as [-> _]. reflexivity.
Qed.

Lemma detect_blocked_ips env inp fv w :
  blocked_ips (db (detect env inp fv w).1) = blocked_ips (db w).
Proof.
  unfold detect.
  destruct (to_float _); [|reflexivity].
  destruct (to_int _); [|reflexivity].
  destruct (Qle_bool _ _); [|reflexivity].
  destruct (find_whitelist _ _); reflexivity.
Qed.

Lemma schedule_at_most_one env t1 t2 t3 addr dur rsn act nt w w' :
  schedule_block_and_unblock env t1 t2 t3 addr dur rsn act nt w = Some w' ->
  at_most_one w -> at_most_one w'.
Proof.
  intros Hs Hinv a. unfold active_count. rewrite (schedule_blocked_ips _ _ _ _ _ _ _ _ _ _ _ Hs).
  destruct (find_block addr (db w)) eqn:Hf; [apply Hinv|].
  rewrite List.filter_app, length_app. cbn [List.filter ip block_doc].
  destruct (String.eqb addr a) eqn:E; cbn [length].
  - apply String.eqb_eq in E. subst a.
    unfold find_block in Hf. rewrite (find_none_filter _ _ Hf). cbn. lia.
  - specialize (Hinv a). unfold active_count in Hinv. lia.
Qed.

Lemma schedule_find_some env t1 t2 t3 addr dur rsn act nt w w' :
  schedule_block_and_unblock env t1 t2 t3 addr dur rsn act nt w = Some w' ->
  exists b, find_block addr (db w') = Some b.
Proof.
  intros Hs. unfold find_block. rewrite (schedule_blocked_ips _ _ _ _ _ _ _ _ _ _ _ Hs).
  unfold find_block.
  destruct (List.find _ (blocked_ips (db w))) as [b|] eqn:Hf.
  - exists b. exact Hf.
  - rewrite (find_app_none _ _ _ Hf). cbn [ip block_doc]. rewrite String.eqb_refl. eauto.
Qed.

(** X29: a block call that nothing interrupts. If it returns, the
    address has an active block afterwards; when the address already had
    one, the call changed nothing at all (no document, no history record,
    no enforcement call, no timer); any later call for the address,
    whatever its duration and clock readings, returns and changes
    nothing; and a store with at most one active block per address still
    has at most one. *)
Theorem uninterrupted_block_keeps_one env t1 t2 t3 addr dur rsn act nt w w' :
  schedule_block_and_unblock env t1 t2 t3 addr dur rsn act nt w = Some w' ->
  (1 <= active_count addr w')%nat
  /\ ((1 <= active_count addr w)%nat -> w' = w)
  /\ (forall t1' t2' t3' dur' rsn' act' nt',
        schedule_block_and_unblock env t1' t2' t3' addr dur' rsn' act' nt' w' = Some w')
  /\ (at_most_one w -> at_most_one w' /\ active_count addr w' = 1%nat).
Proof.
  intros Hs.
  destruct (schedule_find_some _ _ _ _ _ _ _ _ _ _ _ Hs) as [b Hb].
  pose proof (find_some_filter _ _ _ Hb) as Hge. fold (active_count addr w') in Hge.
  split; [exact Hge|]. split; [|split].
  - intros Hex. destruct (filter_nonempty_find _ _ Hex) as [b0 Hb0].
    unfold schedule_block_and_unblock, schedule_lookup, find_block in Hs.
    rewrite Hb0 in Hs. now injection Hs as <-.
  - intros t1' t2' t3' dur' rsn' act' nt'.
    unfold schedule_block_and_unblock, schedule_lookup. now rewrite Hb.
  - intros Hinv. pose proof (schedule_at_most_one _ _ _ _ _ _ _ _ _ _ _ Hs Hinv) as Hinv'.
    split; [exact Hinv'|]. specialize (Hinv' addr). lia.
Qed.

Lemma uninterrupted_block_keeps_one_witness :
  active_count "203.0.113.5" (blocked_world mock_host) = 1%nat
  /\ schedule_block_and_unblock mock_host 5 6 7 "203.0.113.5" 300000000000 "DDoS" "model"
       None (blocked_world mock_host)
     = Some (blocked_world mock_host).
Proof.
  destruct (uninterrupted_block_keeps_one mock_host 0 1 2 "203.0.113.5" 600
              "manual" "admin" None (fresh_world mock_host) (blocked_world mock_host)
              eq_refl) as (_ & _ & Hagain & Hone).
  split.
  - apply Hone. intros a. vm_compute. lia.
  - apply Hagain.
Defined.

(** *** Interleaved calls *)

Lemma lookup_snoc {A} (l : list A) (x : A) : (l ++ [x]) !! length l = Some x.
Proof. induction l as [|y l IH]; [reflexivity | exact IH]. Qed.

Lemma insert_snoc {A} (l : list A) (x y : A) : <[length l := y]> (l ++ [x]) = l ++ [y].
Proof. induction l as [|z l IH]; [reflexivity|]. simpl. f_equal. exact IH. Qed.

Lemma delete_snoc {A} (l : list A) (x : A) : delete (length l) (l ++ [x]) = l.
Proof. induction l as [|z l IH]; [reflexivity|]. simpl. f_equal. exact IH. Qed.

(** A call suspended at its insert that is resumed three times in a row
    does what the rest of the uninterrupted call does. *)
Lemma resume_to_end env t3 doc w :
  rtc (step env) (with_running w (running w ++ [AwaitBlockInsert doc]))
    (apply_block env (ip doc) (duration_sec doc)
       (insert_history (history_of doc t3) (insert_block doc w))).
Proof.
  destruct w as [d c e p q l].
  assert (Hstep : forall t i w0, rtc (step env) (resume env t i w0)
            (apply_block env (ip doc) (duration_sec doc)
               (insert_history (history_of doc t3)
                  (insert_block doc (mkWorld d c e p q l)))) ->
          rtc (step env) w0
            (apply_block env (ip doc) (duration_sec doc)
               (insert_history (history_of doc t3)
                  (insert_block doc (mkWorld d c e p q l))))).
  { intros t i w0. apply rtc_l. apply step_resume. }
  apply (Hstep t3 (length l)).
  unfold resume. cbn [running with_running insert_block with_db].
  rewrite lookup_snoc, insert_snoc.
  apply (Hstep t3 (length l)).
  unfold resume. cbn [running with_running insert_block insert_history with_db].
  rewrite lookup_snoc, insert_snoc.
  apply (Hstep t3 (length l)).
  unfold resume. cbn [running with_running insert_block insert_history with_db].
  rewrite lookup_snoc, delete_snoc.
  cbn. apply rtc_refl.
Qed.

(** The uninterrupted run of a call is one of its interleavings. *)
Lemma schedule_steps env t1 t2 t3 addr dur rsn act nt w w' :
  schedule_block_and_unblock env t1 t2 t3 addr dur rsn act nt w = Some w' ->
  rtc (step env) (schedule_start t1 t2 addr dur rsn act nt w) w'.
Proof.
  intros Hs. unfold schedule_start.
  destruct (schedule_cases env t1 t2 t3 addr dur rsn act nt w)
    as [(b & _ & Hl & E) | [(_ & _ & Hl & E) | (u & _ & _ & Hl & E)]];
    rewrite E in Hs; rewrite Hl; [|discriminate|]; injection Hs as <-; [apply rtc_refl|].
  apply (resume_to_end env t3 (block_doc t2 u addr dur rsn act nt) w).
Qed.

Lemma manual_block_steps env authorized t1 t2 t3 payload w :
  rtc (step env) w (manual_block env authorized t1 t2 t3 payload w).1.
Proof.
  pose proof (step_manual_block env authorized t1 t2 payload w) as Hstep.
  unfold manual_block, manual_block_start in *.
  destruct authorized; cbn [negb] in *; [|apply rtc_refl].
  destruct (_ <=? 0); [apply rtc_refl|].
  destruct (schedule_block_and_unblock _ _ _ _ _ _ _ _ _ _) as [w'|] eqn:E;
    [|apply rtc_refl].
  cbn [fst]. eapply rtc_l; [exact Hstep|]. exact (schedule_steps _ _ _ _ _ _ _ _ _ _ _ E).
Qed.

Lemma run_background_task_steps env t1 t2 t3 w :
  rtc (step env) w (run_background_task env t1 t2 t3 w).
Proof.
  pose proof (step_background env t1 t2 0 w) as Hstep.
  unfold run_background_task, start_background_task in *.
  destruct (background_tasks w) as [|r rest]; [apply rtc_refl|].
  cbn [lookup list_lookup delete list_delete] in Hstep.
  destruct (schedule_block_and_unblock _ _ _ _ _ _ _ _ _ _) as [w'|] eqn:E.
  - cbn [default from_option id]. eapply rtc_l; [exact Hstep|].
    exact (schedule_steps _ _ _ _ _ _ _ _ _ _ _ E).
  - cbn [default from_option id]. eapply rtc_l; [exact Hstep|].
    unfold schedule_start.
    destruct (schedule_cases env t1 t2 t3 (br_ip r) (br_duration_sec r) (br_reason r)
                (br_actor r) (br_note r) (with_background_tasks w rest))
      as [(b & _ & _ & E') | [(_ & _ & Hl & _) | (u & _ & _ & _ & E')]];
      [congruence | rewrite Hl; apply rtc_refl | congruence].
Qed.

(** X30: the run of a handler that nothing interrupts is a run of the
    server. The state left by [manual_block] served from request to
    response, and the state left by the oldest background block call run
    from start to end, are reached from the same state by transitions of
    the server: the start of the call, then its three resumptions in a
    row (or the start alone when the call ends at its lookup). *)
Theorem uninterrupted_runs_are_interleavings env authorized t1 t2 t3 payload w :
  rtc (step env) w (manual_block env authorized t1 t2 t3 payload w).1
  /\ rtc (step env) w (run_background_task env t1 t2 t3 w).
Proof.
  split; [apply manual_block_steps | apply run_background_task_steps].
Qed.

Lemma reachable_rtc env w w' : reachable env w -> rtc (step env) w w' -> reachable env w'.
Proof.
  intros Hr Hrtc. induction Hrtc as [w | w w1 w2 Hstep _ IH]; [exact Hr|].
  apply IH. exact (reach_step env w w1 Hr Hstep).
Qed.

Lemma fresh_world_reachable env : reachable env (fresh_world env).
Proof. now apply reach_start. Qed.

Lemma blocked_world_reachable env : reachable env (blocked_world env).
Proof.
  apply (reachable_rtc env (fresh_world env)); [apply fresh_world_reachable|].
  apply manual_block_steps.
Qed.

(** C2: the invariant fails when two block requests for one address
    overlap. Two administrative requests for 203.0.113.5 reach a server
    with no block; each makes its lookup before the other has inserted
    its document, so each finds nothing and goes on. The state reached
    holds two active documents and two history records for the address,
    and the apply command was run twice. Served one after the other, the
    same two requests leave one active document and one apply command. *)
Theorem concurrent_block_requests_duplicate :
  reachable linux_host (overlapping_blocks linux_host)
  /\ running (overlapping_blocks linux_host) = []
  /\ active_count "203.0.113.5" (overlapping_blocks linux_host) = 2%nat
  /\ length (blocked_ips_history (db (overlapping_blocks linux_host))) = 2%nat
  /\ enforcement (overlapping_blocks linux_host)
     = [Exec ["sudo"; "iptables"; "-I"; "INPUT"; "-s"; "203.0.113.5"; "-j"; "DROP"];
        Succeeded Apply "203.0.113.5";
        Exec ["sudo"; "iptables"; "-I"; "INPUT"; "-s"; "203.0.113.5"; "-j"; "DROP"];
        Succeeded Apply "203.0.113.5"]%string
  /\ active_count "203.0.113.5" (successive_blocks linux_host) = 1%nat
  /\ enforcement (successive_blocks linux_host)
     = [Exec ["sudo"; "iptables"; "-I"; "INPUT"; "-s"; "203.0.113.5"; "-j"; "DROP"];
        Succeeded Apply "203.0.113.5"]%string.
Proof.
  split; [|repeat split; vm_compute; reflexivity].
  unfold overlapping_blocks.
  repeat (eapply reach_step; [|first [apply step_resume | apply step_manual_block]]).
  apply fresh_world_reachable.
Qed.

(** *** Whitelist *)

(** C3 as stated fails on the administrative path: [manual_block] creates
    an active block document for an address that is on the whitelist. *)
Lemma admin_block_ignores_whitelist :
  find_whitelist "203.0.113.5" (db (whitelisting_world mock_host))
  = Some {| wl_ip := "203.0.113.5"; wl_note := "partner"; wl_created_at := 0 |}
  /\ active_count "203.0.113.5" (whitelisting_world mock_host) = 0%nat
  /\ active_count "203.0.113.5"
       (manual_block mock_host true 0 1 2 (block_request "203.0.113.5")
          (whitelisting_world mock_host)).1 = 1%nat.
Proof. repeat split; reflexivity. Qed.

(** C3, amended: for every address on the whitelist and whatever the
    classifier score, [detect] creates no active block document, queues no
    block request, starts no unblock timer and makes no enforcement call;
    its answer is never the alert-with-block response. The administrative
    block endpoint does not consult the whitelist. *)
Theorem whitelisted_detect_never_blocks env inp fv w e :
  find_whitelist (src_ip fv) (db w) = Some e ->
  blocked_ips (db (detect env inp fv w).1) = blocked_ips (db w)
  /\ background_tasks (detect env inp fv w).1 = background_tasks w
  /\ pending_unblocks (detect env inp fv w).1 = pending_unblocks w
  /\ enforcement (detect env inp fv w).1 = enforcement w
  /\ forall id ty score th dur,
       (detect env inp fv w).2 ≠ inr (RespAlert id ty score th dur).
Proof.
  intros Hwl. unfold detect.
  destruct (to_float _); [|repeat split; discriminate].
  destruct (to_int _); [|repeat split; discriminate].
  destruct (Qle_bool _ _); [|repeat split; discriminate].
  unfold find_whitelist in *. cbn [whitelist]. rewrite Hwl.
  repeat split; discriminate.
Qed.

Lemma whitelisted_detect_never_blocks_witness :
  blocked_ips (db (detect mock_host attack_inputs scan_and_flood
                     (whitelisting_world mock_host)).1) = []
  /\ (detect mock_host attack_inputs scan_and_flood (whitelisting_world mock_host)).2
     = inr (RespWhitelisted (99 # 100)).
Proof.
  split; [|reflexivity].
  exact (proj1 (whitelisted_detect_never_blocks mock_host attack_inputs scan_and_flood
                  (whitelisting_world mock_host) _ eq_refl)).
Defined.

(** *** Expiry and the audit trail *)

Lemma detect_history env inp fv w :
  blocked_ips_history (db (detect env inp fv w).1) = blocked_ips_history (db w).
Proof.
  unfold detect.
  destruct (to_float _); [|reflexivity].
  destruct (to_int _); [|reflexivity].
  destruct (Qle_bool _ _); [|reflexivity].
  destruct (find_whitelist _ _); reflexivity.
Qed.

Lemma schedule_start_db t1 t2 addr dur rsn act nt w :
  db (schedule_start t1 t2 addr dur rsn act nt w) = db w
  /\ CONFIG_CACHE (schedule_start t1 t2 addr dur rsn act nt w) = CONFIG_CACHE w
  /\ background_tasks (schedule_start t1 t2 addr dur rsn act nt w) = background_tasks w.
Proof. unfold schedule_start. now destruct (schedule_lookup _ _ _ _ _ _ _ _). Qed.

Lemma start_background_task_db t1 t2 i w :
  db (start_background_task t1 t2 i w) = db w
  /\ CONFIG_CACHE (start_background_task t1 t2 i w) = CONFIG_CACHE w.
Proof.
  unfold start_background_task. destruct (background_tasks w !! i); [|auto].
  destruct (schedule_start_db t1 t2 (br_ip b) (br_duration_sec b) (br_reason b)
              (br_actor b) (br_note b)
              (with_background_tasks w (delete i (background_tasks w)))) as (-> & -> & _).
  auto.
Qed.

Lemma manual_block_start_db env authorized t1 t2 payload w :
  db (manual_block_start env authorized t1 t2 payload w) = db w
  /\ CONFIG_CACHE (manual_block_start env authorized t1 t2 payload w) = CONFIG_CACHE w
  /\ background_tasks (manual_block_start env authorized t1 t2 payload w)
     = background_tasks w.
Proof.
  unfold manual_block_start. destruct authorized; cbn [negb]; [|auto].
  destruct (_ <=? 0); [auto | apply schedule_start_db].
Qed.

(** What resuming a suspended call does to the collections. *)
Lemma resume_db env t i w :
  CONFIG_CACHE (resume env t i w) = CONFIG_CACHE w
  /\ whitelist (db (resume env t i w)) = whitelist (db w)
  /\ background_tasks (resume env t i w) = background_tasks w
  /\ match running w !! i with
     | Some (AwaitBlockInsert doc) =>
         blocked_ips (db (resume env t i w)) = blocked_ips (db w) ++ [doc]
         /\ blocked_ips_history (db (resume env t i w)) = blocked_ips_history (db w)
     | Some (AwaitHistoryInsert h) =>
         blocked_ips (db (resume env t i w)) = blocked_ips (db w)
         /\ blocked_ips_history (db (resume env t i w)) = blocked_ips_history (db w) ++ [h]
     | _ => db (resume env t i w) = db w
     end.
Proof.
  unfold resume. destruct (running w !! i) as [[doc|h|addr dur]|]; cbn; auto.
Qed.

(** No operation removes a history document: every transition extends the
    history collection at its end. *)
Lemma step_history env w w' :
  step env w w' ->
  exists added, blocked_ips_history (db w') = blocked_ips_history (db w) ++ added.
Proof.
  assert (Hsame : forall l l' : list HistoryDoc,
            l' = l -> exists added, l' = l ++ added).
  { intros l l' ->. exists []. now rewrite app_nil_r. }
  intros Hstep. destruct Hstep.
  - apply Hsame, detect_history.
  - apply Hsame. now rewrite (proj1 (start_background_task_db t1 t2 i w)).
  - apply Hsame. now rewrite (proj1 (manual_block_start_db env authorized t1 t2 payload w)).
  - destruct (resume_db env t i w) as (_ & _ & _ & H).
    destruct (running w !! i) as [[doc|h|addr dur]|].
    + apply Hsame. exact (proj2 H).
    + exists [h]. exact (proj2 H).
    + apply Hsame. now rewrite H.
    + apply Hsame. now rewrite H.
  - unfold manual_unblock. destruct authorized; now apply Hsame.
  - unfold run_delayed_unblock. destruct (pending_unblocks w !! i); now apply Hsame.
  - now apply Hsame.
  - unfold add_whitelist. destruct authorized; cbn [negb]; [|now apply Hsame].
    destruct db_ok; now apply Hsame.
  - unfold remove_whitelist. destruct authorized; now apply Hsame.
  - unfold update_config. destruct authorized; cbn [negb]; [|now apply Hsame].
    destruct (config_updates payload) as [err|[|u us]]; [now apply Hsame..|].
    destruct db_ok; now apply Hsame.
Qed.

Lemma history_kept env w w' h :
  rtc (step env) w w' ->
  In h (blocked_ips_history (db w)) -> In h (blocked_ips_history (db w')).
Proof.
  induction 1 as [w | w w1 w2 Hstep _ IH]; [trivial|].
  intros Hin. apply IH.
  destruct (step_history env w w1 Hstep) as [added ->].
  apply in_or_app. now left.
Qed.

(** C7 as stated fails when the clock advances between the two readings
    taken by [schedule_block_and_unblock]: with readings 0 and 1
    microsecond and a duration of 600 seconds, [unblock_at] is 600000000
    whereas [blocked_at] plus the duration is 600000001. *)
Lemma unblock_at_not_blocked_at_plus_duration :
  exists b,
    find_block "203.0.113.5" (db (blocked_world mock_host)) = Some b
    /\ duration_sec b = 600
    /\ unblock_at b ≠ blocked_at b + timedelta_seconds (duration_sec b).
Proof.
  eexists. split; [reflexivity|]. split; [reflexivity|].
  vm_compute. discriminate.
Qed.

(** C7, amended: a block created with duration [D] has
    [unblock_at = t1 + D] where [t1] is the clock reading taken first and
    [blocked_at] is the next reading [t2]; so [unblock_at <= blocked_at + D]
    when the clock does not go back, with equality when both readings
    agree. A history document with the same address, expiry and duration
    is stored alongside, and an unblock timer of [D + 1] seconds is
    started. Once the store's expiry runs at a time not before
    [unblock_at], the address has no active block; the history document is
    still present after any sequence of operations. The block is the one
    left by a call that returns, run on an address with no active block
    with nothing else running in between. *)
Theorem block_entry_round_trip env t1 t2 t3 addr dur rsn act nt w w' :
  find_block addr (db w) = None ->
  schedule_block_and_unblock env t1 t2 t3 addr dur rsn act nt w = Some w' ->
  exists b h,
    find_block addr (db w') = Some b
    /\ active_count addr w' = 1%nat
    /\ duration_sec b = dur
    /\ blocked_at b = t2
    /\ unblock_at b = t1 + timedelta_seconds dur
    /\ expireAt b = unblock_at b
    /\ (t1 = t2 -> unblock_at b = blocked_at b + timedelta_seconds dur)
    /\ (t1 <= t2 -> unblock_at b <= blocked_at b + timedelta_seconds dur)
    /\ In h (blocked_ips_history (db w'))
    /\ h_ip h = addr /\ h_unblock_at h = unblock_at b /\ h_duration_sec h = dur
    /\ In {| pu_delay := dur + 1; pu_ip := addr |} (pending_unblocks w')
    /\ (forall now, unblock_at b <= now ->
          find_block addr (db (ttl_expire now w')) = None
          /\ active_count addr (ttl_expire now w') = 0%nat
          /\ In h (blocked_ips_history (db (ttl_expire now w'))))
    /\ (forall w2, rtc (step env) w' w2 -> In h (blocked_ips_history (db w2))).
Proof.
  intros Hnone Hs.
  set (b := block_doc t2 (t1 + timedelta_seconds dur) addr dur rsn act nt).
  set (h := history_of b t3).
  assert (Hips : blocked_ips (db w') = blocked_ips (db w) ++ [b]).
  { rewrite (schedule_blocked_ips _ _ _ _ _ _ _ _ _ _ _ Hs). now rewrite Hnone. }
  assert (Hw' : w' = apply_block env addr dur (insert_history h (insert_block b w))).
  { destruct (schedule_cases env t1 t2 t3 addr dur rsn act nt w)
      as [(b0 & Hf & _) | [(_ & _ & _ & E) | (u & _ & Hu & _ & E)]]; [congruence..|].
    destruct (unblock_time_some _ _ _ Hu) as [-> _].
    rewrite E in Hs. now injection Hs as <-. }
  assert (Hhist : In h (blocked_ips_history (db w'))).
  { rewrite Hw'. cbn. apply in_or_app. right. now left. }
  assert (Hfind : find_block addr (db w') = Some b).
  { unfold find_block in *. rewrite Hips, (find_app_none _ _ _ Hnone).
    cbn [ip b block_doc]. now rewrite String.eqb_refl. }
  exists b, h. split; [exact Hfind|]. split.
  { unfold active_count. rewrite Hips, List.filter_app, length_app.
    unfold find_block in Hnone. rewrite (find_none_filter _ _ Hnone).
    cbn [List.filter ip b block_doc]. now rewrite String.eqb_refl. }
  do 4 (split; [reflexivity|]).
  split; [intros ->; reflexivity|].
  split; [cbn [unblock_at blocked_at b block_doc]; lia|].
  split; [exact Hhist|].
  do 3 (split; [reflexivity|]).
  split.
  { rewrite Hw'. cbn. apply in_or_app. right. now left. }
  split.
  - intros now Hnow.
    assert (Hgone : find_block addr (db (ttl_expire now w')) = None).
    { unfold find_block, ttl_expire. cbn [db with_db blocked_ips with_blocked_ips].
      apply find_filter_none. intros x Hx Hip. rewrite Hips in Hx.
      apply in_app_or in Hx. destruct Hx as [Hx | [<- | []]].
      - unfold find_block in Hnone.
        rewrite (List.find_none _ _ Hnone x Hx) in Hip. discriminate.
      - cbn [expireAt unblock_at b block_doc] in *. apply Z.ltb_ge. exact Hnow. }
    split; [exact Hgone|]. split.
    + unfold active_count. unfold find_block in Hgone.
      now rewrite (find_none_filter _ _ Hgone).
    + exact Hhist.
  - intros w2 Hrtc. exact (history_kept env w' w2 h Hrtc Hhist).
Qed.

Lemma block_entry_round_trip_witness :
  exists w' b h,
    schedule_block_and_unblock mock_host 0 1 2 "203.0.113.5" 600
      "manual" "admin" None (fresh_world mock_host) = Some w'
    /\ find_block "203.0.113.5" (db w') = Some b
    /\ unblock_at b = 0 + timedelta_seconds 600
    /\ In h (blocked_ips_history (db (ttl_expire 600000000 w')))
    /\ find_block "203.0.113.5" (db (ttl_expire 600000000 w')) = None.
Proof.
  eexists.
  destruct (block_entry_round_trip mock_host 0 1 2 "203.0.113.5" 600
              "manual" "admin" None (fresh_world mock_host) _ eq_refl eq_refl)
    as (b & h & Hf & _ & _ & _ & Hu & _ & _ & _ & _ & _ & _ & _ & _ & Httl & _).
  exists b, h. split; [reflexivity|]. split; [exact Hf|]. split; [exact Hu|].
  assert (Hnow : unblock_at b <= 600000000) by (rewrite Hu; vm_compute; discriminate).
  destruct (Httl 600000000 Hnow) as (Hgone & _ & Hin).
  split; [exact Hin | exact Hgone].
Defined.

End Scheduler.

(** ** Policy configuration *)

Section Policy.
Import Api.

Lemma dict_update_other updates : forall (m : gmap string Value) k,
  Forall (fun kv : string * Value => kv.1 ≠ k) updates ->
  dict_update m updates !! k = m !! k.
Proof.
  unfold dict_update. induction updates as [|[k0 v0] us IH]; intros m k Hall.
  - reflexivity.
  - inversion Hall as [|? ? Hk Hus]; subst. cbn [fold_left fst snd].
    rewrite (IH _ k Hus). now apply lookup_insert_ne.
Qed.

Lemma config_updates_keys payload updates :
  config_updates payload = inr updates ->
  Forall (fun kv : string * Value =>
            kv.1 = "threshold"%string \/ kv.1 = "block_duration_sec"%string) updates.
Proof.
  unfold config_updates.
  destruct (cu_threshold payload) as [th|];
    [destruct (Qle_bool 0 th && Qle_bool th 1); [|discriminate]|];
    (destruct (cu_block_duration_sec payload) as [d|];
     [destruct (d <=? 0); [discriminate|]|]);
    intros [= <-]; cbn [app];
    repeat match goal with
           | |- Forall _ (_ :: _) => constructor; [cbn; auto|]
           | |- Forall _ [] => constructor
           end.
Qed.

Lemma update_config_lookup authorized now db_ok payload w k :
  k ≠ "threshold"%string -> k ≠ "block_duration_sec"%string ->
  k ≠ "updated_at"%string ->
  CONFIG_CACHE (update_config authorized now db_ok payload w).1 !! k
    = CONFIG_CACHE w !! k
  /\ ((config (db w) = None -> k ≠ "_id"%string) ->
      stored_field k (db (update_config authorized now db_ok payload w).1)
      = stored_field k (db w)).
Proof.
  intros Hk1 Hk2 Hk3. unfold update_config.
  destruct authorized; cbn [negb]; [|auto].
  destruct (config_updates payload) as [err|[|u us]] eqn:Eu; [auto..|].
  destruct db_ok; cbn [negb]; [|auto].
  assert (Hkeys : Forall (fun kv : string * Value => kv.1 ≠ k)
                    ((u :: us) ++ [("updated_at"%string, VTime now)])).
  { apply Forall_app. split.
    - eapply Forall_impl; [exact (config_updates_keys _ _ Eu)|].
      intros kv [-> | ->]; congruence.
    - constructor; [cbn; congruence | constructor]. }
  cbn [fst CONFIG_CACHE db]. split; [now apply dict_update_other|].
  intros Hid. unfold stored_field. cbn [config with_config].
  destruct (config (db w)) as [doc|].
  - now apply dict_update_other.
  - rewrite (dict_update_other _ _ _ Hkeys).
    apply lookup_singleton_ne. intros E. now apply Hid.
Qed.

(** C10: whatever the request and its outcome, [update_config] leaves the
    [blocking_enabled] entry of the cached policy and of the stored policy
    document as it was. A request that carries only [blocking_enabled] is
    accepted and changes nothing at all. No entry other than [threshold],
    [block_duration_sec] and [updated_at] changes in the cache, nor in the
    stored document (whose [_id] appears only if the document had to be
    created). *)
Theorem update_config_keeps_blocking_enabled authorized now db_ok payload w :
  CONFIG_CACHE (update_config authorized now db_ok payload w).1 !! "blocking_enabled"%string
    = CONFIG_CACHE w !! "blocking_enabled"%string
  /\ stored_field "blocking_enabled" (db (update_config authorized now db_ok payload w).1)
     = stored_field "blocking_enabled" (db w)
  /\ (cu_threshold payload = None -> cu_block_duration_sec payload = None ->
      (update_config authorized now db_ok payload w).1 = w
      /\ (authorized = true ->
          (update_config authorized now db_ok payload w).2 = inr (CONFIG_CACHE w)))
  /\ (forall k,
        k ≠ "threshold"%string -> k ≠ "block_duration_sec"%string ->
        k ≠ "updated_at"%string ->
        CONFIG_CACHE (update_config authorized now db_ok payload w).1 !! k
          = CONFIG_CACHE w !! k
        /\ ((config (db w) = None -> k ≠ "_id"%string) ->
            stored_field k (db (update_config authorized now db_ok payload w).1)
            = stored_field k (db w))).
Proof.
  assert (Hbe : forall k, k = "blocking_enabled"%string ->
            k ≠ "threshold"%string /\ k ≠ "block_duration_sec"%string
            /\ k ≠ "updated_at"%string /\ k ≠ "_id"%string).
  { intros k ->. repeat split; discriminate. }
  destruct (Hbe _ eq_refl) as (H1 & H2 & H3 & H4).
  destruct (update_config_lookup authorized now db_ok payload w _ H1 H2 H3) as [Hc Hs].
  split; [exact Hc|]. split; [apply Hs; intros _; exact H4|]. split.
  - intros Ht Hd. unfold update_config, config_updates. rewrite Ht, Hd.
    destruct authorized; cbn; split; auto; discriminate.
  - intros k. apply update_config_lookup.
Qed.

Lemma update_config_keeps_blocking_enabled_witness :
  CONFIG_CACHE (update_config true 50 true disable_request (fresh_world mock_host)).1
    !! "threshold"%string = Some (VFloat (1 # 2))
  /\ CONFIG_CACHE (update_config true 50 true disable_request (fresh_world mock_host)).1
       !! "blocking_enabled"%string = Some (VBool true)
  /\ CONFIG_CACHE (update_config true 50 true disable_request (fresh_world mock_host)).1
       !! "_id"%string = CONFIG_CACHE (fresh_world mock_host) !! "_id"%string.
Proof.
  destruct (update_config_keeps_blocking_enabled true 50 true disable_request
              (fresh_world mock_host)) as (Hb & _ & _ & Hk).
  split; [reflexivity|]. split; [rewrite Hb; reflexivity|].
  refine (proj1 (Hk "_id"%string _ _ _)); discriminate.
Defined.

End Policy.

(** ** Scenarios *)

Section Scenarios.
Import Api.

(** The flood vector scored 0.9 against a threshold of 0.25 is an attack of
    type DDoS; once the queued task has run there is one active block and
    one history record. *)
Example flood_scenario :
  (detect mock_host (score_inputs (9 # 10)) flood_vector (sensitive_world mock_host)).2
    = inr (RespAlert 0 "DDoS" (9 # 10) (1 # 4) 600)
  /\ length (blocked_ips (db (run_background_task mock_host 20 21 22
               (detect mock_host (score_inputs (9 # 10)) flood_vector
                  (sensitive_world mock_host)).1))) = 1%nat
  /\ length (blocked_ips_history (db (run_background_task mock_host 20 21 22
               (detect mock_host (score_inputs (9 # 10)) flood_vector
                  (sensitive_world mock_host)).1))) = 1%nat.
Proof. repeat split; vm_compute; reflexivity. Qed.

(** The benign vector scored 0.1 against the default threshold of 0.7 is
    not an attack and queues no block. *)
Example benign_scenario :
  (detect mock_host (score_inputs (1 # 10)) benign_vector (fresh_world mock_host)).2
    = inr (RespBenign (1 # 10) (7 # 10))
  /\ background_tasks
       (detect mock_host (score_inputs (1 # 10)) benign_vector (fresh_world mock_host)).1
     = [].
Proof. repeat split; vm_compute; reflexivity. Qed.

(** Unblocking an address that has no active block leaves the active
    collection as it is. *)
Example unblock_without_block :
  blocked_ips (db (manual_unblock mock_host true "203.0.113.9" (fresh_world mock_host)).1)
  = [].
Proof. reflexivity. Qed.

(** Invalid policy values are rejected with a client error. *)
Example invalid_threshold_rejected :
  (update_config true 1 true
     {| cu_threshold := Some (3 # 2); cu_block_duration_sec := None;
        cu_blocking_enabled := None |} (fresh_world mock_host)).2
  = inl (HTTP400 "threshold must be between 0 and 1").
Proof. reflexivity. Qed.

End Scenarios.

(** * Further properties *)

(** ** Buffers and feature vectors *)

Section Buffers.
Import Extractor.

Lemma popleft_old_snoc ws l ev :
  (ws <= ts ev)%Q -> popleft_old ws (l ++ [ev]) = popleft_old ws l ++ [ev].
Proof.
  intros Hev. induction l as [|e l IH]; cbn [popleft_old app].
  - apply Qlt_bool_false_iff in Hev. now rewrite Hev.
  - destruct (Qlt_bool (ts e) ws); [exact IH | reflexivity].
Qed.

Lemma popleft_old_all_stale ws l :
  Forall (fun ev => (ts ev < ws)%Q) l -> popleft_old ws l = [].
Proof.
  induction 1 as [|e l He _ IH]; [reflexivity|].
  cbn [popleft_old]. apply Qlt_bool_iff in He. now rewrite He.
Qed.

(** A returned feature vector is the one computed from the buffer left in
    the store, which is not empty. *)
Lemma compute_features_some src W T st f :
  (compute_features_for_src src W T st).2 = Some f ->
  exists ev rest,
    buffers (compute_features_for_src src W T st).1 !! src = Some (ev :: rest)
    /\ f = features_of src W T (ev :: rest).
Proof.
  intros Hf. destruct (buffers st !! src) as [dq|] eqn:Hdq.
  - destruct (compute_features_unfold src W T st dq Hdq) as (Hbuf & _ & Hres).
    rewrite Hres in Hf. destruct (popleft_old (fsub T W) dq) as [|ev rest]; [discriminate|].
    injection Hf as <-. now exists ev, rest.
  - unfold compute_features_for_src in Hf. rewrite Hdq in Hf. discriminate.
Qed.

Lemma push_event_lookup ev st :
  buffers (push_event (Some ev) st) !! src_ip ev
  = Some (default [] (buffers st !! src_ip ev) ++ [ev]).
Proof. cbn. apply lookup_insert_eq. Qed.

(** X1: an event that has just been appended and is not older than the
    window start the code computes (the float [T - W]) is never trimmed:
    the next computation for its source returns a feature vector, the
    event is the newest one left in the buffer, and the packet total
    counts it. No ordering of the older events is needed. By
    [window_start_le_float] every float timestamp with [T - W <= ts] is
    such a timestamp. *)
Theorem pushed_event_is_reported ev W T st :
  (fsub T W <= ts ev)%Q ->
  exists f kept,
    (compute_features_for_src (src_ip ev) W T (push_event (Some ev) st)).2 = Some f
    /\ buffers (compute_features_for_src (src_ip ev) W T (push_event (Some ev) st)).1
         !! src_ip ev = Some (kept ++ [ev])
    /\ total_packets f = Z.of_nat (length kept) + 1.
Proof.
  intros Hev.
  destruct (compute_features_unfold (src_ip ev) W T _ _ (push_event_lookup ev st))
    as (Hbuf & _ & Hres).
  rewrite (popleft_old_snoc _ _ _ Hev) in Hbuf, Hres.
  set (kept := popleft_old (fsub T W) (default [] (buffers st !! src_ip ev))) in *.
  exists (features_of (src_ip ev) W T (kept ++ [ev])), kept.
  split; [|split; [exact Hbuf|]].
  - rewrite Hres. now destruct kept.
  - unfold features_of. cbn [total_packets].
    destruct (aggregate_sums (kept ++ [ev])) as (Hp & _).
    rewrite Hp, length_app. cbn. lia.
Qed.

Lemma pushed_event_is_reported_witness :
  exists f kept,
    (compute_features_for_src "198.51.100.7" 5 10
       (push_event (Some (sample_event 7 (Some 22) 40)) sample_store)).2 = Some f
    /\ buffers (compute_features_for_src "198.51.100.7" 5 10
                  (push_event (Some (sample_event 7 (Some 22) 40)) sample_store)).1
         !! "198.51.100.7"%string = Some (kept ++ [sample_event 7 (Some 22) 40])
    /\ total_packets f = Z.of_nat (length kept) + 1.
Proof.
  refine (pushed_event_is_reported (sample_event 7 (Some 22) 40) 5 10 sample_store _).
  apply window_start_le_float; [reflexivity | unfold Qle; cbn; lia].
Defined.

(** X2: when every buffered event of a source is older than the window
    start the code computes, the float [T - W] (as with a capture replayed
    long after it was recorded, since the window is anchored at the wall
    clock), the computation returns nothing and leaves the source with an
    empty buffer; its activity stamp stays. *)
Theorem stale_buffer_drains st src dq W T :
  buffers st !! src = Some dq ->
  Forall (fun ev => (ts ev < fsub T W)%Q) dq ->
  (compute_features_for_src src W T st).2 = None
  /\ buffers (compute_features_for_src src W T st).1 !! src = Some []
  /\ last_activity (compute_features_for_src src W T st).1 = last_activity st.
Proof.
  intros Hdq Hold.
  destruct (compute_features_unfold src W T st dq Hdq) as (Hbuf & _ & Hres).
  rewrite (popleft_old_all_stale _ _ Hold) in Hbuf, Hres.
  repeat split; [exact Hres | exact Hbuf |].
  unfold compute_features_for_src. rewrite Hdq.
  destruct dq as [|e l]; [reflexivity|].
  now destruct (popleft_old (fsub T W) (e :: l)).
Qed.

Lemma stale_buffer_drains_witness :
  (compute_features_for_src "198.51.100.7" 5 1000 sample_store).2 = None
  /\ buffers (compute_features_for_src "198.51.100.7" 5 1000 sample_store).1
       !! "198.51.100.7"%string = Some [].
Proof.
  destruct (stale_buffer_drains sample_store "198.51.100.7" sample_dq 5 1000 eq_refl)
    as (H1 & H2 & _).
  - unfold sample_dq. repeat constructor; vm_compute; reflexivity.
  - split; assumption.
Defined.

(** X31: how far the window the code uses is from the exact one. On a
    buffer of float timestamps in non-decreasing order, every event with
    [T - W <= ts] is kept, so nothing inside the exact window is ever
    evicted; and every event that is kept has a timestamp at most half a
    unit in the last place of [T - W] below [T - W]. *)
Theorem window_edge_within_rounding st src dq W T :
  buffers st !! src = Some dq ->
  nondecreasing dq ->
  Forall (fun ev => is_float64 (ts ev)) dq ->
  exists kept,
    buffers (compute_features_for_src src W T st).1 !! src = Some kept
    /\ (forall ev, In ev dq -> (T - W <= ts ev)%Q -> In ev kept)
    /\ (forall ev, In ev kept ->
          In ev dq /\ (T - W - (1 # 2) * pow2 (cexp (T - W)) <= ts ev)%Q).
Proof.
  intros Hdq Hs Hfl.
  destruct (compute_features_unfold src W T st dq Hdq) as (Hbuf & _ & _).
  rewrite (popleft_old_filter _ _ Hs) in Hbuf.
  exists (List.filter (in_window (fsub T W)) dq). split; [exact Hbuf|]. split.
  - intros ev Hin Hle. apply List.filter_In. split; [exact Hin|].
    apply Qle_bool_iff. apply window_start_le_float; [|exact Hle].
    rewrite List.Forall_forall in Hfl. now apply Hfl.
  - intros ev Hin. apply List.filter_In in Hin. destruct Hin as [Hin Hw].
    split; [exact Hin|]. apply Qle_bool_iff in Hw.
    pose proof (pow2_pos (cexp (T - W))) as Hp.
    destruct (Qeq_dec (T - W) 0) as [E | Hne].
    + unfold fsub in Hw. rewrite (round64_0 _ E) in Hw. lra.
    + pose proof (round64_nearest (T - W) Hne) as Hn.
      apply Qabs_Qle_condition in Hn. fold (fsub T W) in Hn. lra.
Qed.

Lemma window_edge_within_rounding_witness :
  exists kept,
    buffers (compute_features_for_src "198.51.100.7" 5 10 sample_store).1
      !! "198.51.100.7"%string = Some kept
    /\ In (sample_event 9 None 84) kept.
Proof.
  destruct (window_edge_within_rounding sample_store "198.51.100.7" sample_dq 5 10
              eq_refl sample_dq_nondecreasing) as (kept & Hb & Hin & _).
  - unfold sample_dq. repeat constructor.
  - exists kept. split; [exact Hb|].
    apply Hin; [cbn; auto | unfold Qle; cbn; lia].
Defined.

Lemma last_cons_default {A} (l : list A) (x d : A) :
  List.last (x :: l) d = List.last l x.
Proof.
  revert x d. induction l as [|y l IH]; intros x d; [reflexivity|].
  change (List.last (y :: l) d = List.last (y :: l) x).
  now rewrite (IH y d), (IH y x).
Qed.

(** On a time-ordered list the loop keeps the first timestamp it saw and
    ends with a last timestamp equal to that of the final event. *)
Lemma fold_first_last l : forall a f0 l0 e0,
  a_first_ts a = Some f0 -> a_last_ts a = Some l0 -> (l0 == ts e0)%Q ->
  Forall (fun e => (f0 <= ts e)%Q) l ->
  StronglySorted (fun x y => (ts x <= ts y)%Q) (e0 :: l) ->
  a_first_ts (fold_left loop_body l a) = Some f0
  /\ exists l1, a_last_ts (fold_left loop_body l a) = Some l1
                /\ (l1 == ts (List.last l e0))%Q.
Proof.
  induction l as [|e l IH]; intros a f0 l0 e0 Hf Hl Hl0 Hlow Hs.
  - cbn. split; [exact Hf|]. now exists l0.
  - cbn [fold_left]. rewrite last_cons_default.
    inversion Hlow as [|? ? He Hlow']; subst.
    inversion Hs as [|? ? Hs' Hall]; subst.
    inversion Hall as [|? ? Hle _]; subst.
    assert (Hf' : a_first_ts (loop_body a e) = Some f0).
    { cbn [loop_body a_first_ts]. rewrite Hf.
      apply Qlt_bool_false_iff in He. now rewrite He. }
    assert (Hl' : exists l', a_last_ts (loop_body a e) = Some l' /\ (l' == ts e)%Q).
    { cbn [loop_body a_last_ts]. rewrite Hl.
      destruct (Qlt_bool l0 (ts e)) eqn:E.
      - now exists (ts e).
      - exists l0. split; [reflexivity|]. apply Qlt_bool_false_iff in E.
        apply Qle_antisym; [|exact E]. now rewrite Hl0. }
    destruct Hl' as (l' & Hl' & Hl'e).
    exact (IH (loop_body a e) f0 l' e Hf' Hl' Hl'e Hlow' Hs').
Qed.

Lemma nondecreasing_suffix l1 l2 : nondecreasing (l1 ++ l2) -> nondecreasing l2.
Proof.
  induction l1 as [|e l1 IH]; [trivial|].
  intros H. apply IH. exact (nondecreasing_tail _ _ H).
Qed.

(** X4: on a buffer with non-decreasing timestamps, the duration of the
    returned feature vector is the span between the oldest and the newest
    retained event, floored at 1e-6. *)
Theorem duration_is_span st src dq W T f :
  buffers st !! src = Some dq ->
  nondecreasing dq ->
  (compute_features_for_src src W T st).2 = Some f ->
  exists ev rest,
    buffers (compute_features_for_src src W T st).1 !! src = Some (ev :: rest)
    /\ (duration f == Qmax (ts (List.last rest ev) - ts ev) eps)%Q.
Proof.
  intros Hdq Hs Hf.
  destruct (compute_features_some src W T st f Hf) as (ev & rest & Hbuf & ->).
  exists ev, rest. split; [exact Hbuf|].
  assert (Hkept : nondecreasing (ev :: rest)).
  { destruct (compute_features_unfold src W T st dq Hdq) as (Hbuf' & _).
    rewrite Hbuf in Hbuf'. injection Hbuf' as Hk.
    destruct (popleft_old_split (fsub T W) dq) as (evicted & Heq & _).
    rewrite <- Hk in Heq. rewrite Heq in Hs. exact (nondecreasing_suffix _ _ Hs). }
  assert (Hss : StronglySorted (fun x y => (ts x <= ts y)%Q) (ev :: rest)).
  { apply Sorted_StronglySorted; [|exact Hkept].
    intros a b c Hab Hbc. exact (Qle_trans _ _ _ Hab Hbc). }
  destruct (fold_first_last rest (loop_body acc0 ev) (ts ev) (ts ev) ev
              eq_refl eq_refl (Qeq_refl _) (nondecreasing_head_le _ _ Hkept) Hss)
    as (Hfirst & l1 & Hlast & Hl1).
  unfold features_of. cbn [duration]. unfold duration_of, aggregate.
  cbn [fold_left]. rewrite Hfirst, Hlast.
  rewrite py_max_Qmax. apply Q.max_compat; [|reflexivity]. now rewrite Hl1.
Qed.

Lemma duration_is_span_witness :
  exists f ev rest,
    (compute_features_for_src "198.51.100.7" 50 10 sample_store).2 = Some f
    /\ buffers (compute_features_for_src "198.51.100.7" 50 10 sample_store).1
         !! "198.51.100.7"%string = Some (ev :: rest)
    /\ (duration f == Qmax (ts (List.last rest ev) - ts ev) eps)%Q
    /\ (duration f == 8)%Q.
Proof.
  destruct (duration_is_span sample_store "198.51.100.7" sample_dq 50 10 _
              eq_refl sample_dq_nondecreasing eq_refl) as (ev & rest & Hb & Hd).
  eexists. exists ev, rest. split; [reflexivity|]. split; [exact Hb|].
  split; [exact Hd|]. vm_compute. reflexivity.
Defined.

Lemma size_insert_le `{Countable K} (x : K) (X : gset K) :
  (base.size ({[x]} ∪ X) <= S (base.size X))%nat.
Proof.
  rewrite size_union_alt, size_singleton.
  pose proof (subseteq_size (X ∖ {[x]}) X) as Hle.
  cbn. apply le_n_S. apply Hle. now apply subseteq_difference_l.
Qed.

Lemma size_ports_of l : (base.size (ports_of l) <= length l)%nat.
Proof.
  induction l as [|ev l IH]; cbn [ports_of fold_right length].
  - now rewrite size_empty.
  - fold (ports_of l). destruct (dport ev).
    + etransitivity; [apply size_insert_le | lia].
    + lia.
Qed.

Lemma fold_dst_ips_size l : forall a,
  (base.size (a_dst_ips (fold_left loop_body l a))
   <= base.size (a_dst_ips a) + length l)%nat.
Proof.
  induction l as [|ev l IH]; intros a; cbn [fold_left length]; [lia|].
  etransitivity; [apply IH|].
  cbn [loop_body a_dst_ips].
  destruct (dst_ip ev) as [d|]; [|lia].
  destruct (truthy_str (Some d)); [|lia].
  pose proof (size_insert_le d (a_dst_ips a)). lia.
Qed.

(** X5: in every returned feature vector [unique_dst_ports] is the number
    of distinct destination ports among the retained events, raised to 1
    when there is none, and it never exceeds the packet total; neither
    does the number of distinct destination addresses. *)
Theorem unique_counts_bounded src W T st f :
  (compute_features_for_src src W T st).2 = Some f ->
  exists kept,
    buffers (compute_features_for_src src W T st).1 !! src = Some kept
    /\ unique_dst_ports f = Z.max 1 (Z.of_nat (base.size (ports_of kept)))
    /\ unique_dst_ports f <= total_packets f
    /\ 0 <= unique_dst_ips (extra f) <= total_packets f.
Proof.
  intros Hf. destruct (compute_features_some src W T st f Hf) as (ev & rest & Hbuf & ->).
  exists (ev :: rest). split; [exact Hbuf|].
  unfold features_of. cbn [unique_dst_ports total_packets extra unique_dst_ips].
  destruct (aggregate_sums (ev :: rest)) as (Hp & _ & _ & Hd).
  rewrite Hp, Hd.
  pose proof (size_ports_of (ev :: rest)) as Hsz.
  pose proof (fold_dst_ips_size (ev :: rest) acc0) as Hips.
  fold (aggregate (ev :: rest)) in Hips. cbn [acc0 a_dst_ips] in Hips.
  rewrite size_empty in Hips. cbn [length] in *.
  unfold len_or_1.
  destruct (Z.of_nat (base.size (ports_of (ev :: rest))) =? 0) eqn:E.
  - apply Z.eqb_eq in E. rewrite E. repeat split; lia.
  - apply Z.eqb_neq in E. repeat split; lia.
Qed.

Lemma unique_counts_bounded_witness :
  exists f,
    (compute_features_for_src "198.51.100.7" 50 10 sample_store).2 = Some f
    /\ unique_dst_ports f = 2
    /\ unique_dst_ports f <= total_packets f.
Proof.
  destruct (unique_counts_bounded "198.51.100.7" 50 10 sample_store _ eq_refl)
    as (kept & _ & _ & Hle & _).
  eexists. split; [reflexivity|]. split; [reflexivity | exact Hle].
Defined.

Lemma fold_proto_counts p l : forall a,
  default 0 (a_proto_counts (fold_left loop_body l a) !! p)
  = default 0 (a_proto_counts a !! p) + count_proto p l.
Proof.
  unfold count_proto.
  induction l as [|ev l IH]; intros a; cbn [fold_left List.filter length]; [lia|].
  rewrite IH. cbn [loop_body a_proto_counts].
  destruct (String.eqb (proto ev) p) eqn:E.
  - apply String.eqb_eq in E. subst p. rewrite lookup_insert_eq.
    unfold default at 1. cbn [from_option id length]. lia.
  - apply String.eqb_neq in E. rewrite lookup_insert_ne by exact E. lia.
Qed.

(** X6: the per-protocol counters of a returned feature vector count the
    retained events of each protocol: the entry of a protocol is the number
    of retained events carrying it, and a protocol with no retained event
    has no entry. *)
Theorem proto_counts_exact src W T st f p :
  (compute_features_for_src src W T st).2 = Some f ->
  exists kept,
    buffers (compute_features_for_src src W T st).1 !! src = Some kept
    /\ default 0 (proto_counts (extra f) !! p) = count_proto p kept
    /\ (count_proto p kept = 0 -> proto_counts (extra f) !! p = None).
Proof.
  intros Hf. destruct (compute_features_some src W T st f Hf) as (ev & rest & Hbuf & ->).
  exists (ev :: rest). split; [exact Hbuf|].
  unfold features_of. cbn [extra proto_counts]. unfold aggregate.
  split.
  - rewrite fold_proto_counts. cbn [acc0 a_proto_counts]. now rewrite lookup_empty.
  - generalize (ev :: rest) as l. intros l Hz.
    assert (Hgen : forall l a, count_proto p l = 0 -> a_proto_counts a !! p = None ->
                     a_proto_counts (fold_left loop_body l a) !! p = None).
    { clear. unfold count_proto. induction l as [|e l IH]; intros a Hc Ha; [exact Ha|].
      cbn [fold_left]. cbn [List.filter] in Hc.
      destruct (String.eqb (proto e) p) eqn:E; [cbn in Hc; lia|].
      apply IH; [exact Hc|]. cbn [loop_body a_proto_counts].
      apply String.eqb_neq in E. now rewrite lookup_insert_ne. }
    apply Hgen; [exact Hz | apply lookup_empty].
Qed.

Lemma proto_counts_exact_witness :
  exists f,
    (compute_features_for_src "198.51.100.7" 50 10 sample_store).2 = Some f
    /\ proto_counts (extra f) !! "TCP"%string = Some 2
    /\ proto_counts (extra f) !! "UDP"%string = None.
Proof.
  destruct (proto_counts_exact "198.51.100.7" 50 10 sample_store _ "UDP" eq_refl)
    as (kept & Hb & _ & Hnone).
  eexists. split; [reflexivity|]. split; [reflexivity|].
  apply Hnone. cbn in Hb. injection Hb as <-. reflexivity.
Defined.

End Buffers.

(** ** Ingestion *)

Section Ingestion.
Import Extractor.

Lemma flag_set_testbit flags n :
  0 <= n -> flag_set flags (2 ^ n) = if Z.testbit flags n then 1 else 0.
Proof.
  intros Hn. unfold flag_set.
  assert (Hland : Z.land flags (2 ^ n) = if Z.testbit flags n then 2 ^ n else 0).
  { apply Z.bits_inj'. intros m Hm. rewrite Z.land_spec, Z.pow2_bits_eqb by exact Hn.
    destruct (Z.eqb_spec n m) as [->|Hne].
    - destruct (Z.testbit flags m); [|now rewrite Z.bits_0].
      rewrite Z.pow2_bits_eqb by exact Hm. now rewrite Z.eqb_refl.
    - rewrite andb_false_r. destruct (Z.testbit flags n); [|now rewrite Z.bits_0].
      rewrite Z.pow2_bits_eqb by exact Hn.
      symmetry. now apply Z.eqb_neq. }
  rewrite Hland. destruct (Z.testbit flags n); [|reflexivity].
  assert (0 < 2 ^ n) by (apply Z.pow_pos_nonneg; lia).
  destruct (Z.eqb_spec (2 ^ n) 0); [lia | reflexivity].
Qed.

Lemma flag_set_01 flags mask : 0 <= flag_set flags mask <= 1.
Proof. unfold flag_set. destruct (_ =? 0); lia. Qed.

(** X7: [packet_to_event] yields no event exactly for packets without an
    IP layer; otherwise the event carries the packet's time, length and
    addresses, its four flags are 0 or 1, its protocol is TCP, UDP or
    OTHER, and only TCP events can carry a flag. For a TCP packet whose
    header is readable each flag is set exactly when the corresponding
    control bit is (FIN bit 0, SYN bit 1, RST bit 2, ACK bit 4). *)
Theorem packet_to_event_fields pkt :
  (packet_to_event pkt = None <-> ip_layer pkt = None)
  /\ forall ev, packet_to_event pkt = Some ev ->
       ts ev = time pkt /\ size ev = len pkt
       /\ ip_layer pkt = Some (src_ip ev, default ""%string (dst_ip ev))
       /\ 0 <= is_syn ev <= 1 /\ 0 <= is_ack ev <= 1
       /\ 0 <= is_rst ev <= 1 /\ 0 <= is_fin ev <= 1
       /\ (proto ev = "TCP" \/ proto ev = "UDP" \/ proto ev = "OTHER")%string
       /\ (proto ev ≠ "TCP"%string ->
           is_syn ev = 0 /\ is_ack ev = 0 /\ is_rst ev = 0 /\ is_fin ev = 0)
       /\ (proto ev = "OTHER"%string -> dport ev = None)
       /\ (forall d flags, transport pkt = TCPLayer (Some d) (Some flags) ->
           dport ev = Some d
           /\ is_fin ev = (if Z.testbit flags 0 then 1 else 0)
           /\ is_syn ev = (if Z.testbit flags 1 then 1 else 0)
           /\ is_rst ev = (if Z.testbit flags 2 then 1 else 0)
           /\ is_ack ev = (if Z.testbit flags 4 then 1 else 0)).
Proof.
  unfold packet_to_event. destruct (ip_layer pkt) as [[src dst]|].
  - split.
    { split; [|discriminate].
      destruct (transport pkt) as [[d|] [flags|] | d | ]; discriminate. }
    intros ev Hev.
    destruct (transport pkt) as [[d|] [flags|] | d | ]; injection Hev as <-; cbn;
      repeat match goal with |- _ /\ _ => split end;
      first
        [ reflexivity
        | apply flag_set_01
        | lia
        | now auto
        | intros Hne; congruence
        | intros Hne; repeat split; reflexivity
        | intros Ho; discriminate Ho
        | intros d' flags' Ht; discriminate Ht
        | intros d' flags' [= <- <-]; repeat split;
          [ exact (flag_set_testbit flags 0 ltac:(lia))
          | exact (flag_set_testbit flags 1 ltac:(lia))
          | exact (flag_set_testbit flags 2 ltac:(lia))
          | exact (flag_set_testbit flags 4 ltac:(lia)) ] ].
  - split; [split; reflexivity|]. intros ev H. discriminate.
Qed.

Lemma packet_to_event_fields_witness :
  exists ev,
    packet_to_event (tcp_packet 5 18) = Some ev
    /\ is_syn ev = 1 /\ is_ack ev = 1 /\ is_rst ev = 0 /\ is_fin ev = 0.
Proof.
  eexists. split; [reflexivity|].
  destruct (packet_to_event_fields (tcp_packet 5 18)) as [_ H].
  destruct (H _ eq_refl) as (_ & _ & _ & _ & _ & _ & _ & _ & _ & _ & Hflags).
  destruct (Hflags 443 18 eq_refl) as (_ & Hfin & Hsyn & Hrst & Hack).
  repeat split; assumption.
Defined.

Lemma packet_to_event_time pkt ev : packet_to_event pkt = Some ev -> time pkt = ts ev.
Proof.
  unfold packet_to_event. destruct (ip_layer pkt) as [[src dst]|]; [|discriminate].
  destruct (transport pkt) as [[d|] [flags|] | d | ]; intros [= <-]; reflexivity.
Qed.

Lemma capture_cons pkt pkts st :
  capture (pkt :: pkts) st = capture pkts (sniff_callback pkt st).
Proof. reflexivity. Qed.

(** The buffer of a source after a capture: what it held before, followed
    by the events of that source in arrival order. *)
Lemma capture_buffer src pkts : forall st,
  buffers (capture pkts st) !! src
  = match events_of src pkts with
    | [] => buffers st !! src
    | evs => Some (default [] (buffers st !! src) ++ evs)
    end.
Proof.
  induction pkts as [|pkt pkts IH]; intros st; [reflexivity|].
  rewrite capture_cons, IH. unfold events_of at 2. cbn [omap list_omap].
  fold (events_of src pkts). unfold sniff_callback.
  destruct (packet_to_event pkt) as [ev|]; [|reflexivity].
  destruct (String.eqb (src_ip ev) src) eqn:E.
  - apply String.eqb_eq in E. subst src. rewrite push_event_lookup.
    cbn [default from_option id].
    destruct (events_of (src_ip ev) pkts); [reflexivity|].
    now rewrite <- app_assoc.
  - apply String.eqb_neq in E. cbn [push_event buffers].
    now rewrite lookup_insert_ne.
Qed.

Lemma capture_last_activity src pkts : forall st,
  last_activity (capture pkts st) !! src
  = match last (events_of src pkts) with
    | Some ev => Some (ts ev)
    | None => last_activity st !! src
    end.
Proof.
  induction pkts as [|pkt pkts IH]; intros st; [reflexivity|].
  rewrite capture_cons, IH. unfold events_of at 2. cbn [omap list_omap].
  fold (events_of src pkts). unfold sniff_callback.
  destruct (packet_to_event pkt) as [ev|]; [|reflexivity].
  destruct (String.eqb (src_ip ev) src) eqn:E.
  - apply String.eqb_eq in E. subst src. cbn [push_event last_activity].
    rewrite lookup_insert_eq.
    destruct (events_of (src_ip ev) pkts) as [|e l] eqn:El; [reflexivity|].
    rewrite last_cons_cons. destruct (last (e :: l)) eqn:E2; [reflexivity|].
    apply last_None in E2. discriminate.
  - apply String.eqb_neq in E. cbn [push_event last_activity].
    now rewrite lookup_insert_ne.
Qed.

Lemma events_of_In src pkts ev :
  In ev (events_of src pkts) ->
  src_ip ev = src /\ exists pkt, In pkt pkts /\ packet_to_event pkt = Some ev.
Proof.
  induction pkts as [|pkt pkts IH]; [intros []|].
  unfold events_of. cbn [omap list_omap]. fold (events_of src pkts).
  destruct (packet_to_event pkt) as [e|] eqn:Ep.
  - destruct (String.eqb (src_ip e) src) eqn:E.
    + intros [<- | Hin].
      * apply String.eqb_eq in E. split; [exact E|]. exists pkt. split; [now left | exact Ep].
      * destruct (IH Hin) as (Hs & q & Hq & Hev). split; [exact Hs|].
        exists q. split; [now right | exact Hev].
    + intros Hin. destruct (IH Hin) as (Hs & q & Hq & Hev). split; [exact Hs|].
      exists q. split; [now right | exact Hev].
  - intros Hin. destruct (IH Hin) as (Hs & q & Hq & Hev). split; [exact Hs|].
    exists q. split; [now right | exact Hev].
Qed.

Lemma capture_files_by_source_aux pkts src :
  buffers (capture pkts empty_store) !! src
    = match events_of src pkts with
      | [] => None
      | evs => Some evs
      end
  /\ last_activity (capture pkts empty_store) !! src
     = ts <$> last (events_of src pkts).
Proof.
  split.
  - rewrite capture_buffer. cbn [empty_store buffers]. rewrite lookup_empty.
    now destruct (events_of src pkts).
  - rewrite capture_last_activity. cbn [empty_store last_activity].
    rewrite lookup_empty. now destruct (last (events_of src pkts)).
Qed.

(** X8: after any sequence of captured packets, starting from the empty
    store, the buffer of a source holds exactly the events of the packets
    sent by that source, in arrival order; a source has a buffer only if
    it sent a packet with an IP layer; and its activity stamp is the
    timestamp of its newest event. *)
Theorem capture_files_by_source pkts src :
  buffers (capture pkts empty_store) !! src
    = match events_of src pkts with
      | [] => None
      | evs => Some evs
      end
  /\ Forall (fun ev => src_ip ev = src) (events_of src pkts)
  /\ last_activity (capture pkts empty_store) !! src
     = ts <$> last (events_of src pkts).
Proof.
  destruct (capture_files_by_source_aux pkts src) as [Hb Hl].
  split; [exact Hb|]. split; [|exact Hl].
  apply List.Forall_forall. intros ev Hin. exact (proj1 (events_of_In _ _ _ Hin)).
Qed.

Lemma events_of_sorted src pkts :
  StronglySorted (fun p q => (time p <= time q)%Q) pkts ->
  StronglySorted (fun a b => (ts a <= ts b)%Q) (events_of src pkts).
Proof.
  induction 1 as [|pkt pkts Hs IH Hall]; [constructor|].
  unfold events_of. cbn [omap list_omap]. fold (events_of src pkts).
  destruct (packet_to_event pkt) as [ev|] eqn:Ep; [|exact IH].
  destruct (String.eqb (src_ip ev) src); [|exact IH].
  constructor; [exact IH|].
  apply List.Forall_forall. intros e Hin.
  destruct (events_of_In _ _ _ Hin) as (_ & q & Hq & He).
  destruct (packet_to_event_time pkt ev Ep), (packet_to_event_time q e He).
  rewrite List.Forall_forall in Hall. exact (Hall q Hq).
Qed.

Lemma sample_packets_nondecreasing : times_nondecreasing sample_packets.
Proof.
  unfold times_nondecreasing, sample_packets.
  repeat (constructor; cbn [time sample_packet]); unfold Qle; cbn; lia.
Defined.

(** X9: packets captured in non-decreasing time order leave every source
    buffer with non-decreasing timestamps, which is the ordering that the
    front-trimming of the window relies on. *)
Theorem capture_keeps_time_order pkts src dq :
  times_nondecreasing pkts ->
  buffers (capture pkts empty_store) !! src = Some dq ->
  nondecreasing dq.
Proof.
  intros Hs Hdq.
  rewrite (proj1 (capture_files_by_source_aux pkts src)) in Hdq.
  assert (Hss : StronglySorted (fun a b => (ts a <= ts b)%Q) (events_of src pkts)).
  { apply events_of_sorted. apply Sorted_StronglySorted; [|exact Hs].
    intros a b c Hab Hbc. exact (Qle_trans _ _ _ Hab Hbc). }
  destruct (events_of src pkts) as [|e l]; [discriminate|].
  injection Hdq as <-. apply StronglySorted_Sorted. exact Hss.
Qed.

Lemma capture_keeps_time_order_witness :
  exists dq,
    buffers (capture sample_packets empty_store) !! "198.51.100.7"%string = Some dq
    /\ nondecreasing dq.
Proof.
  eexists. split; [reflexivity|].
  exact (capture_keeps_time_order sample_packets "198.51.100.7" _
           sample_packets_nondecreasing eq_refl).
Defined.

(** ** More on the replay driver *)

Lemma replay_loop_store speed pkts : forall prev st,
  (replay_loop speed prev pkts st).1 = capture pkts st.
Proof.
  induction pkts as [|p rest IH]; intros prev st; [reflexivity|].
  cbn [replay_loop]. specialize (IH (time p) (push_event (packet_to_event p) st)).
  destruct (replay_loop speed (time p) rest (push_event (packet_to_event p) st)).
  exact IH.
Qed.

Lemma replay_loop_pushes speed pkts : forall prev st,
  pushes_of (replay_loop speed prev pkts st).2 = List.map packet_to_event pkts.
Proof.
  induction pkts as [|p rest IH]; intros prev st; [reflexivity|].
  cbn [replay_loop]. specialize (IH (time p) (push_event (packet_to_event p) st)).
  destruct (replay_loop speed (time p) rest (push_event (packet_to_event p) st)).
  cbn in *. now rewrite IH.
Qed.

Lemma py_max_ge_l a b : (a <= py_max a b)%Q.
Proof.
  unfold py_max. destruct (Qlt_bool a b) eqn:E.
  - apply Qlt_bool_iff in E. now apply Qlt_le_weak.
  - apply Qle_refl.
Qed.

Lemma replay_loop_sleeps speed pkts : forall prev st,
  length (sleeps_of (replay_loop speed prev pkts st).2) = length pkts
  /\ Forall (fun w => (0 <= w)%Q) (sleeps_of (replay_loop speed prev pkts st).2).
Proof.
  induction pkts as [|p rest IH]; intros prev st; [split; [reflexivity | constructor]|].
  cbn [replay_loop]. specialize (IH (time p) (push_event (packet_to_event p) st)).
  destruct (replay_loop speed (time p) rest (push_event (packet_to_event p) st)).
  cbn in *. destruct IH as [Hl Hall]. split; [now rewrite Hl|].
  constructor; [apply py_max_ge_l | exact Hall].
Qed.

(** X10: [start_replay] ends with the completion flag set exactly when
    reading the capture did not raise an uncaught exception: a missing
    file and a file without packets both set it; any other failure of the
    read (an empty or malformed file, a directory) leaves the store and
    the flag as they were, so that a flag that was clear stays clear.
    When the file is read, the store ends as if the packets had been
    captured live in the same order, every packet is pushed exactly once
    in file order, one wait precedes each packet, and no wait is negative
    even where timestamps go backwards. *)
Theorem start_replay_completes rdpcap speed st :
  (rdpcap ≠ ReadError -> replay_done (start_replay rdpcap speed st).1 = true)
  /\ (rdpcap = ReadError -> start_replay rdpcap speed st = (st, []))
  /\ (rdpcap = FileNotFoundError ->
      (start_replay rdpcap speed st).1 = set_replay_done st
      /\ pushes_of (start_replay rdpcap speed st).2 = [])
  /\ forall pkts, rdpcap = Packets pkts ->
       (start_replay rdpcap speed st).1 = set_replay_done (capture pkts st)
       /\ pushes_of (start_replay rdpcap speed st).2 = List.map packet_to_event pkts
       /\ length (sleeps_of (start_replay rdpcap speed st).2) = length pkts
       /\ Forall (fun w => (0 <= w)%Q) (sleeps_of (start_replay rdpcap speed st).2).
Proof.
  destruct rdpcap as [[|p0 rest]| |].
  - split; [reflexivity|]. split; [discriminate|]. split; [discriminate|].
    intros pkts [= <-]. repeat split; constructor.
  - unfold start_replay.
    pose proof (replay_loop_store speed (p0 :: rest) (time p0) st) as Hst.
    pose proof (replay_loop_pushes speed (p0 :: rest) (time p0) st) as Hpu.
    pose proof (replay_loop_sleeps speed (p0 :: rest) (time p0) st) as [Hlen Hpos].
    destruct (replay_loop speed (time p0) (p0 :: rest) st) as [st' tr].
    cbn [fst snd] in *. split; [reflexivity|].
    split; [discriminate|]. split; [discriminate|].
    intros pkts [= <-]. subst st'. auto.
  - split; [reflexivity|]. split; [discriminate|]. split; [intros _; now split|].
    intros pkts H. discriminate.
  - split; [congruence|]. split; [reflexivity|]. split; [discriminate|].
    intros pkts H. discriminate.
Qed.

Lemma start_replay_completes_witness :
  (start_replay (Packets sample_packets) 2 empty_store).1
  = set_replay_done (capture sample_packets empty_store)
  /\ replay_done (start_replay FileNotFoundError 2 empty_store).1 = true
  /\ replay_done (start_replay ReadError 2 empty_store).1 = false.
Proof.
  split; [|split].
  - exact (proj1 (proj2 (proj2 (proj2
             (start_replay_completes (Packets sample_packets) 2 empty_store)))
                    sample_packets eq_refl)).
  - apply (proj1 (start_replay_completes FileNotFoundError 2 empty_store)).
    discriminate.
  - now rewrite (proj1 (proj2 (start_replay_completes ReadError 2 empty_store)) eq_refl).
Defined.

Lemma fold_loop_body_flags l : forall a,
  a_tcp_ack (fold_left loop_body l a) = a_tcp_ack a + sum_of is_ack l
  /\ a_tcp_rst (fold_left loop_body l a) = a_tcp_rst a + sum_of is_rst l
  /\ a_tcp_fin (fold_left loop_body l a) = a_tcp_fin a + sum_of is_fin l.
Proof.
  induction l as [|ev l IH]; intros a.
  - cbn. lia.
  - cbn [fold_left sum_of fold_right].
    destruct (IH (loop_body a ev)) as (Ha & Hr & Hf). rewrite Ha, Hr, Hf.
    cbn [loop_body a_tcp_ack a_tcp_rst a_tcp_fin].
    fold (sum_of is_ack l). fold (sum_of is_rst l). fold (sum_of is_fin l). lia.
Qed.

Lemma sum_of_01 (g : Event -> Z) l :
  Forall (fun ev => 0 <= g ev <= 1) l -> 0 <= sum_of g l <= Z.of_nat (length l).
Proof.
  induction 1 as [|ev l Hev _ IH]; cbn [sum_of fold_right length]; [lia|].
  fold (sum_of g l). lia.
Qed.

(** X12: when the buffered events of a source were produced by
    [packet_to_event], the SYN, ACK, RST and FIN counts of its feature
    vector lie between 0 and the packet total. *)
Theorem flag_counts_bounded st src dq W T f :
  buffers st !! src = Some dq ->
  Forall (fun ev => exists pkt, packet_to_event pkt = Some ev) dq ->
  (compute_features_for_src src W T st).2 = Some f ->
  0 <= syn_count f <= total_packets f
  /\ 0 <= tcp_ack (extra f) <= total_packets f
  /\ 0 <= tcp_rst (extra f) <= total_packets f
  /\ 0 <= tcp_fin (extra f) <= total_packets f.
Proof.
  intros Hdq Hsrc Hf.
  destruct (compute_features_some src W T st f Hf) as (ev & rest & Hbuf & ->).
  assert (Hkept : Forall (fun e => exists pkt, packet_to_event pkt = Some e) (ev :: rest)).
  { destruct (compute_features_unfold src W T st dq Hdq) as (Hbuf' & _).
    rewrite Hbuf in Hbuf'. injection Hbuf' as Hk.
    destruct (popleft_old_split (fsub T W) dq) as (evicted & Heq & _).
    rewrite <- Hk in Heq. rewrite Heq in Hsrc.
    apply Forall_app in Hsrc. exact (proj2 Hsrc). }
  assert (Hflags : forall g : Event -> Z,
            (forall pkt e, packet_to_event pkt = Some e -> 0 <= g e <= 1) ->
            0 <= sum_of g (ev :: rest) <= Z.of_nat (length (ev :: rest))).
  { intros g Hg. apply sum_of_01. eapply Forall_impl; [exact Hkept|].
    intros e [pkt He]. exact (Hg pkt e He). }
  assert (Hfield : forall pkt e, packet_to_event pkt = Some e ->
            0 <= is_syn e <= 1 /\ 0 <= is_ack e <= 1
            /\ 0 <= is_rst e <= 1 /\ 0 <= is_fin e <= 1).
  { intros pkt e He. unfold packet_to_event in He.
    destruct (ip_layer pkt) as [[s0 d0]|]; [|discriminate].
    destruct (transport pkt) as [[d|] [flags|] | d | ]; injection He as <-; cbn;
      repeat match goal with |- _ /\ _ => split end;
      first [apply flag_set_01 | lia]. }
  unfold features_of. cbn [syn_count total_packets extra tcp_ack tcp_rst tcp_fin].
  destruct (aggregate_sums (ev :: rest)) as (Hp & _ & Hsy & _).
  destruct (fold_loop_body_flags (ev :: rest) acc0) as (Hack & Hrst & Hfin).
  fold (aggregate (ev :: rest)) in Hack, Hrst, Hfin. cbn [acc0 a_tcp_ack a_tcp_rst a_tcp_fin] in *.
  rewrite Hp, Hsy, Hack, Hrst, Hfin.
  pose proof (Hflags is_syn (fun pkt e He => proj1 (Hfield pkt e He))).
  pose proof (Hflags is_ack (fun pkt e He => proj1 (proj2 (Hfield pkt e He)))).
  pose proof (Hflags is_rst (fun pkt e He => proj1 (proj2 (proj2 (Hfield pkt e He))))).
  pose proof (Hflags is_fin (fun pkt e He => proj2 (proj2 (proj2 (Hfield pkt e He))))).
  lia.
Qed.

Lemma flag_counts_bounded_witness :
  exists f,
    (compute_features_for_src "198.51.100.7" 5 6 sample_captured).2 = Some f
    /\ 0 <= syn_count f <= total_packets f.
Proof.
  eexists. split; [reflexivity|].
  refine (proj1 (flag_counts_bounded sample_captured "198.51.100.7"
                   (events_of "198.51.100.7" sample_packets) 5 6 _ eq_refl _ eq_refl)).
  apply List.Forall_forall. intros ev Hin.
  destruct (events_of_In _ _ _ Hin) as (_ & pkt & _ & Hev). now exists pkt.
Defined.

End Ingestion.

(** ** The aggregation loop *)

Section Aggregator.
Import Extractor.

Lemma concat_chunks {A} (batch : nat) (l : list A) m :
  concat (List.map (fun i => take batch (drop i l))
            (List.map (fun k => (k * batch)%nat) (seq 0 m)))
  = take (m * batch) l.
Proof.
  induction m as [|m IH].
  - cbn. now rewrite take_0.
  - rewrite seq_S, !List.map_app, concat_app, IH. cbn [List.map concat plus].
    rewrite app_nil_r, take_take_drop. f_equal. lia.
Qed.

Lemma ceil_div_bounds n b :
  (0 < b)%nat ->
  (n <= (n + b - 1) / b * b)%nat
  /\ (forall k, k < (n + b - 1) / b -> k * b < n)%nat.
Proof.
  intros Hb.
  pose proof (Nat.div_mod_eq (n + b - 1) b) as Hdm.
  pose proof (Nat.mod_upper_bound (n + b - 1) b ltac:(lia)) as Hr.
  split; [nia|]. intros k Hk. nia.
Qed.

Lemma post_chunks_positive {A} (batch : Z) (l : list A) :
  0 < batch ->
  exists cs,
    post_chunks batch l = Some cs
    /\ concat cs = l
    /\ Forall (fun c => (1 <= length c <= Z.to_nat batch)%nat) cs.
Proof.
  intros Hb. unfold post_chunks.
  destruct (Z.eqb_spec batch 0) as [|_]; [lia|].
  destruct (Z.ltb_spec batch 0) as [|_]; [lia|].
  set (b := Z.to_nat batch). assert (Hb' : (0 < b)%nat) by (subst b; lia).
  destruct (ceil_div_bounds (length l) b Hb') as [Hcover Hstart].
  eexists. split; [reflexivity|]. split.
  - unfold range_step. rewrite concat_chunks. now apply take_ge.
  - unfold range_step. rewrite List.map_map. apply List.Forall_forall.
    intros c Hin. apply List.in_map_iff in Hin. destruct Hin as (k & <- & Hk).
    apply List.in_seq in Hk. specialize (Hstart k ltac:(lia)).
    rewrite length_take, length_drop. lia.
Qed.

(** X13: what a cycle emits. Without [--post], or with nothing to report,
    every feature vector is printed and the batch size is not looked at.
    Otherwise a positive batch size posts every feature vector exactly once,
    in order, in chunks of one to [batch] vectors; a batch size of zero
    makes the cycle fail; a negative one posts nothing. *)
Theorem emit_covers_batch post batch fs :
  emit false batch fs = Some (List.map PrintJson fs)
  /\ emit post batch [] = Some []
  /\ (fs ≠ [] -> emit true 0 fs = None)
  /\ (fs ≠ [] -> batch < 0 -> emit true batch fs = Some [])
  /\ (fs ≠ [] -> 0 < batch ->
      exists cs,
        emit true batch fs = Some (List.map PostChunk cs)
        /\ concat cs = fs
        /\ Forall (fun c => (1 <= length c <= Z.to_nat batch)%nat) cs).
Proof.
  split; [reflexivity|]. split; [now destruct post|].
  destruct fs as [|f fs]; [repeat split; congruence|].
  split; [reflexivity|]. split.
  - intros _ Hb. unfold emit, post_chunks.
    destruct (Z.eqb_spec batch 0); [lia|].
    destruct (Z.ltb_spec batch 0); [reflexivity | lia].
  - intros _ Hb. destruct (post_chunks_positive batch (f :: fs) Hb) as (cs & Hcs & Hcat & Hlen).
    exists cs. unfold emit. rewrite Hcs. auto.
Qed.

Lemma emit_covers_batch_witness :
  exists cs,
    emit true 2 [features_of "a" 5 10 sample_dq; features_of "b" 5 10 sample_dq;
                 features_of "c" 5 10 sample_dq]
      = Some (List.map PostChunk cs)
    /\ concat cs = [features_of "a" 5 10 sample_dq; features_of "b" 5 10 sample_dq;
                    features_of "c" 5 10 sample_dq]
    /\ Forall (fun c => (1 <= length c <= Z.to_nat 2)%nat) cs.
Proof.
  refine (proj2 (proj2 (proj2 (proj2 (emit_covers_batch true 2 _)))) _ _);
    [discriminate | lia].
Defined.

Lemma compute_features_frame src W T st :
  last_activity (compute_features_for_src src W T st).1 = last_activity st
  /\ replay_done (compute_features_for_src src W T st).1 = replay_done st
  /\ forall s, s ≠ src ->
       buffers (compute_features_for_src src W T st).1 !! s = buffers st !! s.
Proof.
  unfold compute_features_for_src.
  destruct (buffers st !! src) as [[|ev rest]|]; [auto| |auto].
  destruct (popleft_old (fsub T W) (ev :: rest)); cbn;
    (split; [reflexivity|]; split; [reflexivity|];
     intros s Hs; now apply lookup_insert_ne).
Qed.

(** X14: idle eviction in a cycle. A buffered source whose last activity
    is more than [keep_idle_for] seconds before the reading of the clock
    leaves both the buffer map and the activity map (its feature vector
    for this cycle is still reported); otherwise its activity stamp is
    kept and its buffer is only trimmed. Other sources are not touched. *)
Theorem idle_source_evicted W keep src t1 t2 st dq :
  buffers st !! src = Some dq ->
  let last_ts := default 0%Q (last_activity st !! src) in
  let res := process_source W keep src t1 t2 st in
  res.2 = (compute_features_for_src src W t1 st).2
  /\ ((keep < t2 - last_ts)%Q ->
      buffers res.1 !! src = None /\ last_activity res.1 !! src = None)
  /\ ((t2 - last_ts <= keep)%Q -> res.1 = (compute_features_for_src src W t1 st).1)
  /\ (forall s, s ≠ src ->
        buffers res.1 !! s = buffers st !! s
        /\ last_activity res.1 !! s = last_activity st !! s).
Proof.
  intros Hdq last_ts res. subst res last_ts. unfold process_source.
  destruct (compute_features_frame src W t1 st) as (Hla & _ & Hother).
  destruct (compute_features_unfold src W t1 st dq Hdq) as (Hbuf & _ & _).
  destruct (compute_features_for_src src W t1 st) as [st1 feat]. cbn [fst snd] in *.
  rewrite Hla. split; [reflexivity|].
  destruct (Qlt_bool keep (t2 - default 0%Q (last_activity st !! src))) eqn:E.
  - apply Qlt_bool_iff in E. unfold drop_source. rewrite Hbuf. cbn [buffers last_activity].
    split; [intros _; split; apply lookup_delete_eq|].
    split; [intros Hle; exfalso; exact (Qlt_not_le _ _ E Hle)|].
    intros s Hs. rewrite !lookup_delete_ne by congruence. rewrite Hla. auto.
  - apply Qlt_bool_false_iff in E.
    split; [intros Hlt; exfalso; exact (Qlt_not_le _ _ Hlt E)|].
    split; [reflexivity|]. intros s Hs. rewrite Hla. auto.
Qed.

Lemma idle_source_evicted_witness :
  buffers (process_source 5 60 "198.51.100.7" 100 100 sample_store).1
    !! "198.51.100.7"%string = None
  /\ last_activity (process_source 5 60 "198.51.100.7" 100 100 sample_store).1
       !! "198.51.100.7"%string = None.
Proof.
  destruct (idle_source_evicted 5 60 "198.51.100.7" 100 100 sample_store sample_dq eq_refl)
    as (_ & H & _).
  apply H. vm_compute. reflexivity.
Defined.

Lemma process_source_stale W keep src t1 t2 st cutoff :
  all_older_than cutoff st ->
  (cutoff <= fsub t1 W)%Q ->
  (process_source W keep src t1 t2 st).2 = None
  /\ replay_done (process_source W keep src t1 t2 st).1 = replay_done st
  /\ all_older_than cutoff (process_source W keep src t1 t2 st).1
  /\ (buffers (process_source W keep src t1 t2 st).1 !! src = None
      \/ buffers (process_source W keep src t1 t2 st).1 !! src = Some [])
  /\ (forall s, s ≠ src ->
        buffers (process_source W keep src t1 t2 st).1 !! s = buffers st !! s).
Proof.
  intros Hold Hcut. unfold process_source.
  destruct (compute_features_frame src W t1 st) as (Hla & Hrd & Hother).
  assert (Hcomp : (compute_features_for_src src W t1 st).2 = None
                  /\ (buffers (compute_features_for_src src W t1 st).1 !! src = None
                      \/ buffers (compute_features_for_src src W t1 st).1 !! src = Some [])).
  { destruct (buffers st !! src) as [dq|] eqn:Hdq.
    - destruct (compute_features_unfold src W t1 st dq Hdq) as (Hbuf & _ & Hres).
      assert (Hstale : Forall (fun ev => (ts ev < fsub t1 W)%Q) dq).
      { eapply Forall_impl; [exact (Hold src dq Hdq)|].
        intros ev Hev. exact (Qlt_le_trans _ _ _ Hev Hcut). }
      rewrite (popleft_old_all_stale _ _ Hstale) in Hbuf, Hres. auto.
    - unfold compute_features_for_src. rewrite Hdq. cbn. auto. }
  destruct Hcomp as [Hnone Hsrc].
  destruct (compute_features_for_src src W t1 st) as [st1 feat]. cbn [fst snd] in *.
  assert (Hold1 : all_older_than cutoff st1).
  { intros s dq Hs. destruct (decide (s = src)) as [->|Hne].
    - destruct Hsrc as [Hn | He]; rewrite Hs in *; [discriminate|].
      injection He as ->. constructor.
    - rewrite (Hother s Hne) in Hs. exact (Hold s dq Hs). }
  destruct (Qlt_bool keep (t2 - default 0%Q (last_activity st1 !! src))).
  - unfold drop_source. destruct (buffers st1 !! src) as [dq1|] eqn:Hb1.
    + cbn [buffers replay_done fst snd]. split; [exact Hnone|]. split; [exact Hrd|].
      split; [|split; [left; apply lookup_delete_eq|]].
      * intros s dq Hs. cbn [buffers] in Hs.
        destruct (decide (s = src)) as [->|Hne].
        { rewrite lookup_delete_eq in Hs. discriminate. }
        rewrite lookup_delete_ne in Hs by congruence. exact (Hold1 s dq Hs).
      * intros s Hne. rewrite lookup_delete_ne by congruence. now apply Hother.
    + cbn [fst snd]. rewrite Hb1. auto.
  - cbn [fst snd]. auto.
Qed.

Lemma aggregator_pass_stale W keep cutoff srcs : forall st,
  all_older_than cutoff st ->
  Forall (fun r : string * (Q * Q) => (cutoff <= fsub r.2.1 W)%Q) srcs ->
  (aggregator_pass W keep srcs st).2 = []
  /\ replay_done (aggregator_pass W keep srcs st).1 = replay_done st
  /\ forall s,
       buffers (aggregator_pass W keep srcs st).1 !! s = None
       \/ buffers (aggregator_pass W keep srcs st).1 !! s = Some []
       \/ (~ In s (List.map fst srcs)
           /\ buffers (aggregator_pass W keep srcs st).1 !! s = buffers st !! s).
Proof.
  induction srcs as [|[src [t1 t2]] rest IH]; intros st Hold Hcut.
  - cbn. repeat split. intros s. right. right. auto.
  - inversion Hcut as [|? ? Hc Hcut']; subst. cbn [snd fst] in Hc.
    cbn [aggregator_pass].
    destruct (process_source_stale W keep src t1 t2 st cutoff Hold Hc)
      as (Hfeat & Hrd & Hold1 & Hsrc & Hother).
    destruct (process_source W keep src t1 t2 st) as [st1 feat]. cbn [fst snd] in *.
    destruct (IH st1 Hold1 Hcut') as (Hbatch & Hrd' & Hbufs).
    destruct (aggregator_pass W keep rest st1) as [st2 batch]. cbn [fst snd] in *.
    subst feat batch. split; [reflexivity|]. split; [congruence|].
    intros s. destruct (Hbufs s) as [Hn | [He | [Hnin Heq]]]; [auto | auto |].
    destruct (decide (s = src)) as [->|Hne].
    + rewrite Heq. destruct Hsrc; auto.
    + right. right. split.
      * cbn [List.map fst]. intros [Hs | Hin]; [congruence | exact (Hnin Hin)].
      * rewrite Heq. now apply Hother.
Qed.

Lemma any_nonempty_false st :
  (forall s dq, buffers st !! s = Some dq -> dq = []) -> any_nonempty st = false.
Proof.
  intros Hall. unfold any_nonempty.
  destruct (existsb _ _) eqn:E; [|reflexivity].
  apply existsb_exists in E. destruct E as ([s dq] & Hin & Hne).
  apply list_elem_of_In, elem_of_map_to_list in Hin.
  rewrite (Hall s dq Hin) in Hne. discriminate.
Qed.

(** X15: the end of a replay. Once the replay driver has signalled
    completion, a cycle whose snapshot covers every buffered source and
    in which every buffered event is older than each window start the
    cycle computes (the float [now - W] of each clock reading) reports
    nothing, leaves no event in any buffer, and meets the termination
    test of replay mode; in live mode the test never holds, and neither
    does it in replay mode while the completion flag is not set. *)
Theorem drained_replay_exits W keep srcs st cutoff :
  replay_done st = true ->
  all_older_than cutoff st ->
  Forall (fun r : string * (Q * Q) => (cutoff <= fsub r.2.1 W)%Q) srcs ->
  (forall s, is_Some (buffers st !! s) -> In s (List.map fst srcs)) ->
  (aggregator_pass W keep srcs st).2 = []
  /\ should_exit "replay" (aggregator_pass W keep srcs st).1 = true
  /\ should_exit "live" (aggregator_pass W keep srcs st).1 = false
  /\ (forall mode st0, replay_done st0 = false -> should_exit mode st0 = false).
Proof.
  intros Hdone Hold Hcut Hcover.
  destruct (aggregator_pass_stale W keep cutoff srcs st Hold Hcut) as (Hb & Hrd & Hbufs).
  split; [exact Hb|].
  split; [|split; [reflexivity|]];
    [|intros mode st0 H0; unfold should_exit; rewrite H0; now rewrite andb_false_r].
  unfold should_exit. rewrite Hrd, Hdone. cbn [String.eqb andb].
  replace (String.eqb "replay" "replay") with true by reflexivity. cbn [andb].
  rewrite any_nonempty_false; [reflexivity|].
  intros s dq Hs. destruct (Hbufs s) as [Hn | [He | [Hnin Heq]]].
  - rewrite Hn in Hs. discriminate.
  - rewrite He in Hs. now injection Hs as <-.
  - exfalso. apply Hnin, Hcover. rewrite <- Heq, Hs. eauto.
Qed.

Lemma drained_replay_exits_witness :
  should_exit "replay"
    (aggregator_pass 5 60 [("198.51.100.7"%string, (20%Q, 20%Q))]
       (set_replay_done sample_store)).1 = true.
Proof.
  refine (proj1 (proj2 (drained_replay_exits 5 60 [("198.51.100.7"%string, (20%Q, 20%Q))]
                          (set_replay_done sample_store) 10 eq_refl _ _ _))).
  - intros src dq Hdq. cbn in Hdq.
    destruct (decide (src = "198.51.100.7"%string)) as [->|Hne].
    + rewrite lookup_singleton_eq in Hdq. injection Hdq as <-.
      unfold sample_dq. repeat constructor; unfold Qlt; cbn; lia.
    + rewrite lookup_singleton_ne in Hdq by congruence. discriminate.
  - repeat constructor. vm_compute. discriminate.
  - intros s [dq Hdq]. cbn in Hdq.
    destruct (decide (s = "198.51.100.7"%string)) as [->|Hne].
    + cbn. auto.
    + rewrite lookup_singleton_ne in Hdq by congruence. discriminate.
Defined.

End Aggregator.

(** ** More on enforcement and the block store *)

Section Blocks.
Import Api.

Lemma run_iptables_cases env op addr cmd :
  (run_iptables env op addr cmd).1 = true <-> check_call env cmd = ExecOk.
Proof.
  unfold run_iptables. destruct (check_call env cmd); cbn; split; congruence.
Qed.

Lemma run_iptables_exec env op addr cmd c :
  In (Exec c) (run_iptables env op addr cmd).2 -> c = cmd.
Proof.
  unfold run_iptables.
  destruct (check_call env cmd); cbn; intros [H | [H | []]]; congruence.
Qed.

(** X16: the enforcement helpers report success exactly when the
    [iptables] command was run and succeeded: for the apply helper this
    needs a non-private address, real blocking switched on and the binary
    present; for the remove helper the last two. With real blocking
    switched off neither helper runs any command, and the only command
    either can run is the insert, respectively delete, of the DROP rule
    for the address it was given. *)
Theorem enforcement_outcome env addr :
  ((block_ip_iptables env addr).1 = true <->
     startswith_any addr private_prefixes = false
     /\ USE_REAL_BLOCKING env = true /\ iptables_available env = true
     /\ check_call env ["sudo"; "iptables"; "-I"; "INPUT"; "-s"; addr; "-j"; "DROP"]%string
        = ExecOk)
  /\ ((unblock_ip_iptables env addr).1 = true <->
        USE_REAL_BLOCKING env = true /\ iptables_available env = true
        /\ check_call env ["sudo"; "iptables"; "-D"; "INPUT"; "-s"; addr; "-j"; "DROP"]%string
           = ExecOk)
  /\ (USE_REAL_BLOCKING env = false ->
      forall c, ~ In (Exec c) (block_ip_iptables env addr).2
                /\ ~ In (Exec c) (unblock_ip_iptables env addr).2)
  /\ (forall c, In (Exec c) (block_ip_iptables env addr).2 ->
        c = ["sudo"; "iptables"; "-I"; "INPUT"; "-s"; addr; "-j"; "DROP"]%string)
  /\ (forall c, In (Exec c) (unblock_ip_iptables env addr).2 ->
        c = ["sudo"; "iptables"; "-D"; "INPUT"; "-s"; addr; "-j"; "DROP"]%string).
Proof.
  split; [|split; [|split; [|split]]].
  - unfold block_ip_iptables.
    destruct (startswith_any addr private_prefixes), (USE_REAL_BLOCKING env),
      (iptables_available env); cbn [negb fst];
      try rewrite run_iptables_cases;
      (split; [intros H | intros (H1 & H2 & H3 & H4)]); try discriminate; auto.
  - unfold unblock_ip_iptables.
    destruct (USE_REAL_BLOCKING env), (iptables_available env); cbn [negb fst];
      try rewrite run_iptables_cases;
      (split; [intros H | intros (H1 & H2 & H3)]); try discriminate; auto.
  - intros Hoff c. unfold block_ip_iptables, unblock_ip_iptables. rewrite Hoff.
    cbn [negb]. destruct (startswith_any addr private_prefixes); cbn;
      split; intros [H | []]; discriminate H.
  - intros c. unfold block_ip_iptables.
    destruct (startswith_any addr private_prefixes), (USE_REAL_BLOCKING env),
      (iptables_available env); cbn [negb];
      try (intros Hc; exact (run_iptables_exec _ _ _ _ _ Hc));
      cbn; intros [H | []]; discriminate H.
  - intros c. unfold unblock_ip_iptables.
    destruct (USE_REAL_BLOCKING env), (iptables_available env); cbn [negb];
      try (intros Hc; exact (run_iptables_exec _ _ _ _ _ Hc));
      cbn; intros [H | []]; discriminate H.
Qed.

Lemma enforcement_outcome_witness :
  (forall c, ~ In (Exec c) (block_ip_iptables mock_host "203.0.113.5").2)
  /\ (block_ip_iptables linux_host "203.0.113.5").1 = true.
Proof.
  destruct (enforcement_outcome mock_host "203.0.113.5") as (_ & _ & Hmock & _).
  destruct (enforcement_outcome linux_host "203.0.113.5") as (Hblock & _).
  split.
  - intros c. exact (proj1 (Hmock eq_refl c)).
  - apply Hblock. repeat split; reflexivity.
Defined.

Lemma filter_filter_other {A} (f g : A -> bool) (l : list A) :
  (forall x, f x = true -> g x = true) ->
  List.filter f (List.filter g l) = List.filter f l.
Proof.
  intros H. induction l as [|x l IH]; cbn; [reflexivity|].
  destruct (g x) eqn:Eg; cbn.
  - destruct (f x); now rewrite IH.
  - destruct (f x) eqn:Ef; [|exact IH]. rewrite (H x Ef) in Eg. discriminate.
Qed.

Lemma filter_negb_none {A} (f : A -> bool) (l : list A) :
  List.filter f (List.filter (fun x => negb (f x)) l) = [].
Proof.
  induction l as [|x l IH]; cbn; [reflexivity|].
  destruct (f x) eqn:E; cbn; [exact IH|]. now rewrite E.
Qed.

Lemma filter_all_true {A} (f : A -> bool) (l : list A) :
  List.filter (fun x => negb (f x)) l = l <-> List.filter f l = [].
Proof.
  induction l as [|x l IH]; cbn; [tauto|].
  destruct (f x); cbn.
  - split; [|discriminate]. intros H.
    pose proof (List.filter_length_le (fun y => negb (f y)) l) as Hle.
    rewrite H in Hle. cbn in Hle. lia.
  - rewrite <- IH. split; [now intros [= ->] | now intros ->].
Qed.

Lemma with_blocked_ips_same d : with_blocked_ips d (blocked_ips d) = d.
Proof. now destruct d. Qed.

(** X17: an administrative unblock removes every active block of the
    address and nothing else: blocks of other addresses and the history
    are kept. The enforcement removal is attempted whether or not a block
    existed; on the store, unblocking an address with no active block
    changes nothing, and unblocking twice is the same as once. *)
Theorem unblock_clears_address env addr w :
  let w1 := (manual_unblock env true addr w).1 in
  active_count addr w1 = 0%nat
  /\ (forall a, a ≠ addr ->
        List.filter (fun b => String.eqb (ip b) a) (blocked_ips (db w1))
        = List.filter (fun b => String.eqb (ip b) a) (blocked_ips (db w)))
  /\ blocked_ips_history (db w1) = blocked_ips_history (db w)
  /\ enforcement w1 = enforcement w ++ (unblock_ip_iptables env addr).2
  /\ (active_count addr w = 0%nat -> db w1 = db w)
  /\ db (manual_unblock env true addr w1).1 = db w1.
Proof.
  cbn [manual_unblock negb fst]. unfold remove_block, active_count.
  cbn [db blocked_ips with_blocked_ips blocked_ips_history enforcement].
  split; [now rewrite filter_negb_none|]. split.
  { intros a Ha. apply filter_filter_other. intros b Hb.
    apply String.eqb_eq in Hb. apply negb_true_iff, String.eqb_neq. congruence. }
  split; [reflexivity|]. split; [reflexivity|]. split.
  - intros H0. apply length_zero_iff_nil in H0. apply filter_all_true in H0.
    rewrite H0. apply with_blocked_ips_same.
  - f_equal. apply filter_all_true. apply filter_negb_none.
Qed.

Lemma unblock_clears_address_witness :
  active_count "203.0.113.5"
    (manual_unblock mock_host true "203.0.113.5" (blocked_world mock_host)).1 = 0%nat
  /\ length (blocked_ips_history
               (db (manual_unblock mock_host true "203.0.113.5"
                      (blocked_world mock_host)).1)) = 1%nat
  /\ db (manual_unblock mock_host true "198.51.100.1" (blocked_world mock_host)).1
     = db (blocked_world mock_host).
Proof.
  destruct (unblock_clears_address mock_host "203.0.113.5" (blocked_world mock_host))
    as (H0 & _ & Hh & _).
  destruct (unblock_clears_address mock_host "198.51.100.1" (blocked_world mock_host))
    as (_ & _ & _ & _ & Hnoop & _).
  split; [exact H0|]. split; [rewrite Hh; reflexivity|].
  apply Hnoop. reflexivity.
Defined.

Lemma in_insert_or {A} (l : list A) i (x y z : A) :
  In x l -> l !! i = Some y -> x = y \/ In x (<[i := z]> l).
Proof.
  revert i. induction l as [|a l IH]; intros i Hin Hi; [destruct Hin|].
  destruct i as [|i]; cbn in Hi.
  - injection Hi as ->. destruct Hin as [-> | Hin]; [now left | right; now right].
  - destruct Hin as [-> | Hin]; [right; now left|].
    destruct (IH i Hin Hi) as [-> | H]; [now left | right; now right].
Qed.

Lemma in_insert_new {A} (l : list A) i (y z : A) :
  l !! i = Some y -> In z (<[i := z]> l).
Proof.
  revert i. induction l as [|a l IH]; intros i Hi; [discriminate|].
  destruct i as [|i]; cbn in Hi; [now left | right; exact (IH i Hi)].
Qed.

Lemma in_delete_or {A} (l : list A) i (x y : A) :
  In x l -> l !! i = Some y -> x = y \/ In x (delete i l).
Proof.
  revert i. induction l as [|a l IH]; intros i Hin Hi; [destruct Hin|].
  destruct i as [|i]; cbn in Hi.
  - injection Hi as ->. destruct Hin as [-> | Hin]; [now left | now right].
  - destruct Hin as [-> | Hin]; [right; now left|].
    destruct (IH i Hin Hi) as [-> | H]; [now left | right; now right].
Qed.

Lemma detect_running env inp fv w : running (detect env inp fv w).1 = running w.
Proof.
  unfold detect.
  destruct (to_float _); [|reflexivity].
  destruct (to_int _); [|reflexivity].
  destruct (Qle_bool _ _); [|reflexivity].
  destruct (find_whitelist _ _); reflexivity.
Qed.

Lemma schedule_start_running t1 t2 addr dur rsn act nt w :
  running (schedule_start t1 t2 addr dur rsn act nt w) = running w
  \/ exists u, unblock_time t1 dur = Some u
       /\ running (schedule_start t1 t2 addr dur rsn act nt w)
          = running w ++ [AwaitBlockInsert (block_doc t2 u addr dur rsn act nt)].
Proof.
  unfold schedule_start, schedule_lookup.
  destruct (find_block addr (db w)); [now left|].
  destruct (unblock_time t1 dur) as [u|]; [right; eauto | now left].
Qed.

(** A transition keeps the audit trail when it removes no history record,
    adds no active block, and every call suspended at its history insert
    either stays so or has made the insert. *)
Lemma audit_trail_mono (w w' : World) :
  (forall b, In b (blocked_ips (db w')) -> In b (blocked_ips (db w))) ->
  (forall h, In h (blocked_ips_history (db w)) -> In h (blocked_ips_history (db w'))) ->
  (forall h, In (AwaitHistoryInsert h) (running w) ->
     In (AwaitHistoryInsert h) (running w') \/ In h (blocked_ips_history (db w'))) ->
  audit_trail w -> audit_trail w'.
Proof.
  intros Hb Hh Hr Ha b Hin. destruct (Ha b (Hb b Hin)) as (h & Hrec & [Hin' | Hin']).
  - exists h. split; [exact Hrec|]. left. exact (Hh h Hin').
  - exists h. split; [exact Hrec|]. destruct (Hr h Hin'); auto.
Qed.

Lemma step_history_in env w w' h :
  step env w w' ->
  In h (blocked_ips_history (db w)) -> In h (blocked_ips_history (db w')).
Proof.
  intros Hstep Hin. destruct (step_history env w w' Hstep) as [added ->].
  apply in_or_app. now left.
Qed.

Lemma step_audit_trail env w w' : step env w w' -> audit_trail w -> audit_trail w'.
Proof.
  intros Hstep Ha.
  assert (Hmono : (forall b, In b (blocked_ips (db w')) -> In b (blocked_ips (db w))) ->
                  (forall c, In c (running w) -> In c (running w')) ->
                  audit_trail w').
  { intros Hb Hr. apply (audit_trail_mono w w' Hb); [| |exact Ha].
    - intros h. now apply (step_history_in env).
    - intros h Hin. left. now apply Hr. }
  assert (Hgrow : forall t1 t2 addr dur rsn act nt w0 c,
            In c (running w0) -> In c (running (schedule_start t1 t2 addr dur rsn act nt w0))).
  { intros t1 t2 addr dur rsn act nt w0 c Hin.
    destruct (schedule_start_running t1 t2 addr dur rsn act nt w0) as [-> | (u & _ & ->)];
      [exact Hin | apply in_or_app; now left]. }
  destruct Hstep.
  - apply Hmono; [now rewrite detect_blocked_ips | now rewrite detect_running].
  - apply Hmono; [now rewrite (proj1 (start_background_task_db t1 t2 i w))|].
    unfold start_background_task. destruct (background_tasks w !! i); [|trivial].
    intros c Hin. now apply Hgrow.
  - apply Hmono;
      [now rewrite (proj1 (manual_block_start_db env authorized t1 t2 payload w))|].
    unfold manual_block_start. destruct authorized; cbn [negb]; [|trivial].
    destruct (_ <=? 0); [trivial|]. intros c Hin. now apply Hgrow.
  - unfold resume. destruct (running w !! i) as [[doc|h0|addr dur]|] eqn:Hi; [| | |exact Ha].
    + intros b Hin.
      cbn [db with_running insert_block with_db blocked_ips with_blocked_ips
           blocked_ips_history running] in *.
      apply in_app_or in Hin. destruct Hin as [Hin | [<- | []]].
      * destruct (Ha b Hin) as (h & Hrec & [Hh | Hh]); exists h; (split; [exact Hrec|]);
          [now left|].
        right. destruct (in_insert_or _ i _ _ (AwaitHistoryInsert (history_of doc t)) Hh Hi)
          as [E | Hin']; [discriminate E | exact Hin'].
      * exists (history_of doc t). split; [repeat split|].
        right. exact (in_insert_new _ i _ _ Hi).
    + intros b Hin.
      cbn [db with_running insert_history with_db blocked_ips with_history
           blocked_ips_history running] in *.
      destruct (Ha b Hin) as (h & Hrec & [Hh | Hh]); exists h; (split; [exact Hrec|]).
      * left. apply in_or_app. now left.
      * destruct (in_insert_or _ i _ _ (AwaitEnforcement (h_ip h0) (h_duration_sec h0))
                    Hh Hi) as [E | Hin'].
        -- injection E as ->. left. apply in_or_app. right. now left.
        -- now right.
    + intros b Hin. cbn [db with_running apply_block blocked_ips blocked_ips_history
                         running] in *.
      destruct (Ha b Hin) as (h & Hrec & [Hh | Hh]); exists h; (split; [exact Hrec|]);
        [now left|].
      right. destruct (in_delete_or _ i _ _ Hh Hi) as [E | Hin']; [discriminate E | exact Hin'].
  - apply Hmono; unfold manual_unblock; destruct authorized; cbn [negb fst]; trivial.
    unfold remove_block. cbn [db blocked_ips with_blocked_ips].
    intros b Hin. apply List.filter_In in Hin. tauto.
  - apply Hmono; unfold run_delayed_unblock; destruct (pending_unblocks w !! i); trivial.
  - apply Hmono; [|trivial]. unfold ttl_expire. cbn [db with_db blocked_ips with_blocked_ips].
    intros b Hin. apply List.filter_In in Hin. tauto.
  - apply Hmono; unfold add_whitelist; destruct authorized; cbn [negb]; trivial;
      destruct db_ok; trivial.
  - apply Hmono; unfold remove_whitelist; destruct authorized; trivial.
  - apply Hmono; unfold update_config; destruct authorized; cbn [negb]; trivial;
      destruct (config_updates payload) as [err|[|u us]]; trivial; destruct db_ok; trivial.
Qed.

(** X18: the audit trail under interleaving. In every state the server
    can reach from a start with no active block and no block call under
    way, each active block has a history record with the same address,
    expiry, duration, reason and actor, or the call that inserted it is
    suspended at the insert of that record, which it makes when it is
    resumed. So whenever no call is suspended there, no block is without
    its record. *)
Theorem reachable_audited env w :
  reachable env w -> audit_trail w /\ (no_history_pending w -> audited w).
Proof.
  intros Hreach.
  assert (Ha : audit_trail w).
  { induction Hreach as [w H0 _ | w w' _ IH Hstep].
    - intros b Hin. rewrite H0 in Hin. destruct Hin.
    - exact (step_audit_trail env w w' Hstep IH). }
  split; [exact Ha|].
  intros Hnone b Hin. destruct (Ha b Hin) as (h & (H1 & H2 & H3 & H4 & H5) & [Hh | Hh]).
  - exists h. auto 10.
  - destruct (Hnone h Hh).
Qed.

Lemma reachable_audited_witness :
  audited (blocked_world mock_host)
  /\ audit_trail (resume mock_host 4 0
                    (manual_block_start mock_host true 0 1 (block_request "203.0.113.5")
                       (fresh_world mock_host)))
  /\ ~ audited (resume mock_host 4 0
                  (manual_block_start mock_host true 0 1 (block_request "203.0.113.5")
                     (fresh_world mock_host))).
Proof.
  split; [|split].
  - apply (proj2 (reachable_audited mock_host (blocked_world mock_host)
                    (blocked_world_reachable mock_host))).
    intros h Hin. vm_compute in Hin. exact Hin.
  - apply (proj1 (reachable_audited mock_host _
                    (reach_step mock_host _ _
                       (reach_step mock_host _ _ (fresh_world_reachable mock_host)
                          (step_manual_block mock_host true 0 1
                             (block_request "203.0.113.5") (fresh_world mock_host)))
                       (step_resume mock_host 4 0 _)))).
  - intros Ha. destruct (Ha (block_doc 1 600000000 "203.0.113.5" 600 "manual" "admin" None))
      as (h & Hin & _); [vm_compute; now left | vm_compute in Hin; exact Hin].
Defined.

(** *** Whitelist *)

Lemma upsert_find addr nt t l :
  List.find (fun e => String.eqb (wl_ip e) addr) (upsert_whitelist addr nt t l)
  = Some {| wl_ip := addr; wl_note := nt; wl_created_at := t |}.
Proof.
  induction l as [|e l IH]; cbn.
  - now rewrite String.eqb_refl.
  - destruct (String.eqb (wl_ip e) addr) eqn:E; cbn.
    + now rewrite String.eqb_refl.
    + now rewrite E.
Qed.

Lemma upsert_find_other addr nt t a l :
  a ≠ addr ->
  List.find (fun e => String.eqb (wl_ip e) a) (upsert_whitelist addr nt t l)
  = List.find (fun e => String.eqb (wl_ip e) a) l.
Proof.
  intros Hne. assert (Hf : String.eqb addr a = false) by (apply String.eqb_neq; congruence).
  induction l as [|e l IH]; cbn.
  - now rewrite Hf.
  - destruct (String.eqb (wl_ip e) addr) eqn:E; cbn.
    + apply String.eqb_eq in E. rewrite E, Hf. reflexivity.
    + destruct (String.eqb (wl_ip e) a); [reflexivity | exact IH].
Qed.

Lemma upsert_ips_in addr nt t a l :
  In a (List.map wl_ip (upsert_whitelist addr nt t l)) ->
  a = addr \/ In a (List.map wl_ip l).
Proof.
  induction l as [|e l IH]; cbn.
  - intros [<- | []]. now left.
  - destruct (String.eqb (wl_ip e) addr) eqn:E; cbn.
    + apply String.eqb_eq in E. intros [<- | Hin]; auto.
    + intros [<- | Hin]; [auto|]. destruct (IH Hin); auto.
Qed.

Lemma upsert_nodup addr nt t l :
  NoDup (List.map wl_ip l) -> NoDup (List.map wl_ip (upsert_whitelist addr nt t l)).
Proof.
  induction l as [|e l IH]; cbn; intros Hnd.
  - apply NoDup_singleton.
  - apply NoDup_cons in Hnd. destruct Hnd as [Hnin Hnd].
    destruct (String.eqb (wl_ip e) addr) eqn:E; cbn.
    + apply String.eqb_eq in E. subst addr. apply NoDup_cons. now split.
    + apply NoDup_cons. split; [|now apply IH].
      rewrite list_elem_of_In. intros Hin. apply upsert_ips_in in Hin.
      apply String.eqb_neq in E. destruct Hin as [Heq | Hin]; [congruence|].
      apply Hnin. now apply list_elem_of_In.
Qed.

Lemma delete_one_in a addr l :
  In a (List.map wl_ip (delete_one_whitelist addr l)) -> In a (List.map wl_ip l).
Proof.
  induction l as [|e l IH]; cbn; [trivial|].
  destruct (String.eqb (wl_ip e) addr); cbn; [auto|].
  intros [<- | Hin]; auto.
Qed.

Lemma delete_one_nodup addr l :
  NoDup (List.map wl_ip l) -> NoDup (List.map wl_ip (delete_one_whitelist addr l)).
Proof.
  induction l as [|e l IH]; cbn; intros Hnd; [exact Hnd|].
  apply NoDup_cons in Hnd. destruct Hnd as [Hnin Hnd].
  destruct (String.eqb (wl_ip e) addr); [exact Hnd|]. cbn.
  apply NoDup_cons. split; [|now apply IH].
  rewrite list_elem_of_In. intros Hin. apply Hnin, list_elem_of_In.
  exact (delete_one_in _ _ _ Hin).
Qed.

Lemma delete_one_find_none addr l :
  NoDup (List.map wl_ip l) ->
  List.find (fun e => String.eqb (wl_ip e) addr) (delete_one_whitelist addr l) = None.
Proof.
  induction l as [|e l IH]; cbn; intros Hnd; [reflexivity|].
  apply NoDup_cons in Hnd. destruct Hnd as [Hnin Hnd].
  destruct (String.eqb (wl_ip e) addr) eqn:E.
  - apply String.eqb_eq in E. subst addr.
    destruct (List.find _ l) as [x|] eqn:Hf; [|reflexivity].
    apply List.find_some in Hf. destruct Hf as [Hin Hx]. apply String.eqb_eq in Hx.
    exfalso. apply Hnin, list_elem_of_In. rewrite <- Hx. now apply List.in_map.
  - cbn. rewrite E. now apply IH.
Qed.

Lemma delete_one_find_other addr a l :
  a ≠ addr ->
  List.find (fun e => String.eqb (wl_ip e) a) (delete_one_whitelist addr l)
  = List.find (fun e => String.eqb (wl_ip e) a) l.
Proof.
  intros Hne. induction l as [|e l IH]; cbn; [reflexivity|].
  destruct (String.eqb (wl_ip e) addr) eqn:E; cbn.
  - apply String.eqb_eq in E.
    assert (Hf : String.eqb (wl_ip e) a = false) by (apply String.eqb_neq; congruence).
    now rewrite Hf.
  - destruct (String.eqb (wl_ip e) a); [reflexivity | exact IH].
Qed.

Lemma delete_one_length addr l x :
  List.find (fun e => String.eqb (wl_ip e) addr) l = Some x ->
  length l = S (length (delete_one_whitelist addr l)).
Proof.
  induction l as [|e l IH]; cbn; [discriminate|].
  destruct (String.eqb (wl_ip e) addr); [reflexivity|].
  intros Hf. cbn. now rewrite (IH Hf).
Qed.

(** X19: adding an address to a whitelist without duplicates makes it
    whitelisted with the given note (an absent note is stored as the empty
    string) and the time of the call, replacing an earlier entry for the
    address; removing it afterwards deletes exactly one document and leaves
    it not whitelisted. Neither operation changes the entry of any other
    address, and the whitelist stays free of duplicates. *)
Theorem whitelist_round_trip t1 t2 entry w :
  whitelist_unique w ->
  let addr := wl_req_ip entry in
  let w1 := (add_whitelist true t1 t2 true entry w).1 in
  let w2 := (remove_whitelist true addr w1).1 in
  find_whitelist addr (db w1)
  = Some {| wl_ip := addr; wl_note := default ""%string (wl_req_note entry);
            wl_created_at := t1 |}
  /\ whitelist_unique w1
  /\ (forall a, a ≠ addr -> find_whitelist a (db w1) = find_whitelist a (db w))
  /\ find_whitelist addr (db w2) = None
  /\ (remove_whitelist true addr w1).2 = inr 1%nat
  /\ whitelist_unique w2
  /\ (forall a, a ≠ addr -> find_whitelist a (db w2) = find_whitelist a (db w)).
Proof.
  intros Hu addr w1 w2. subst w2 w1. unfold whitelist_unique in *.
  cbn [add_whitelist remove_whitelist negb fst snd].
  unfold find_whitelist. cbn [db whitelist with_whitelist with_db].
  set (nt := match wl_req_note entry with
             | Some s0 => if String.eqb s0 "" then ""%string else s0
             | None => ""%string
             end).
  assert (Hnt : nt = default ""%string (wl_req_note entry)).
  { subst nt. destruct (wl_req_note entry) as [s0|]; [|reflexivity].
    cbn. destruct (String.eqb s0 "") eqn:E; [|reflexivity].
    apply String.eqb_eq in E. now subst. }
  fold addr. rewrite <- Hnt.
  pose proof (upsert_nodup addr nt t1 _ Hu) as Hu1.
  split; [apply upsert_find|]. split; [exact Hu1|].
  split; [intros a Ha; now apply upsert_find_other|].
  split; [now apply delete_one_find_none|].
  split.
  { f_equal. rewrite (delete_one_length addr _ _ (upsert_find addr nt t1 _)). lia. }
  split; [now apply delete_one_nodup|].
  intros a Ha. rewrite delete_one_find_other by exact Ha. now apply upsert_find_other.
Qed.

Lemma whitelist_round_trip_witness :
  find_whitelist "198.51.100.9"
    (db (add_whitelist true 7 8 true
           {| wl_req_ip := "198.51.100.9"; wl_req_note := None |}
           (whitelisting_world mock_host)).1)
  = Some {| wl_ip := "198.51.100.9"; wl_note := ""; wl_created_at := 7 |}.
Proof.
  refine (proj1 (whitelist_round_trip 7 8
                   {| wl_req_ip := "198.51.100.9"; wl_req_note := None |}
                   (whitelisting_world mock_host) _)).
  unfold whitelist_unique. cbn. repeat constructor. apply not_elem_of_nil.
Defined.

Lemma step_whitelist env w w' :
  step env w w' ->
  whitelist (db w') = whitelist (db w)
  \/ (exists addr nt t, whitelist (db w') = upsert_whitelist addr nt t (whitelist (db w)))
  \/ (exists addr, whitelist (db w') = delete_one_whitelist addr (whitelist (db w))).
Proof.
  intros Hstep. destruct Hstep.
  - left. unfold detect.
    destruct (to_float _); [|reflexivity]. destruct (to_int _); [|reflexivity].
    destruct (Qle_bool _ _); [|reflexivity]. destruct (find_whitelist _ _); reflexivity.
  - left. now rewrite (proj1 (start_background_task_db t1 t2 i w)).
  - left. now rewrite (proj1 (manual_block_start_db env authorized t1 t2 payload w)).
  - left. exact (proj1 (proj2 (resume_db env t i w))).
  - left. unfold manual_unblock. now destruct authorized.
  - left. unfold run_delayed_unblock. now destruct (pending_unblocks w !! i).
  - left. reflexivity.
  - unfold add_whitelist. destruct authorized; [|now left]. cbn [negb].
    destruct db_ok; [|now left]. right. left. cbn. eauto.
  - unfold remove_whitelist. destruct authorized; [|now left]. right. right. cbn. eauto.
  - left. unfold update_config. destruct authorized; [|reflexivity]. cbn [negb].
    destruct (config_updates payload) as [err|[|u us]]; [reflexivity..|].
    now destruct db_ok.
Qed.

(** X20: no sequence of operations of the server puts an address twice in
    the whitelist: starting from a whitelist without duplicates, every
    state reached has one. *)
Theorem whitelist_stays_unique env w w' :
  whitelist_unique w -> rtc (step env) w w' -> whitelist_unique w'.
Proof.
  intros Hu Hrtc. induction Hrtc as [w | w w1 w2 Hstep _ IH]; [exact Hu|].
  apply IH. unfold whitelist_unique in *.
  destruct (step_whitelist env w w1 Hstep) as [-> | [(a & nt & t & ->) | (a & ->)]].
  - exact Hu.
  - now apply upsert_nodup.
  - now apply delete_one_nodup.
Qed.

Lemma whitelist_stays_unique_witness :
  whitelist_unique
    (add_whitelist true 7 8 true
       {| wl_req_ip := "203.0.113.5"; wl_req_note := Some "again"%string |}
       (whitelisting_world mock_host)).1.
Proof.
  refine (whitelist_stays_unique mock_host (whitelisting_world mock_host) _ _ _).
  - unfold whitelist_unique. cbn. apply NoDup_singleton.
  - eapply rtc_l; [|apply rtc_refl]. apply step_add_whitelist.
Defined.

End Blocks.

(** ** The detection gateway *)

Section Gateway.
Import Api.

(** The outcome of [detect] once the policy values are read. *)
Lemma detect_spec env inp fv w th dur :
  policy_reads env w th dur ->
  let attack := Qle_bool th (di_prob inp) in
  let block := attack && negb (whitelisted (src_ip fv) w) && blocking_on w in
  (detect env inp fv w).2
  = inr (if attack
         then if whitelisted (src_ip fv) w then RespWhitelisted (di_prob inp)
              else RespAlert (length (alerts (db w))) (classify_attack_type fv)
                     (di_prob inp) th dur
         else RespBenign (di_prob inp) th)
  /\ background_tasks (detect env inp fv w).1
     = background_tasks w ++ (if block then [model_request fv dur] else [])
  /\ length (flows (db (detect env inp fv w).1)) = S (length (flows (db w)))
  /\ length (alerts (db (detect env inp fv w).1)) = S (length (alerts (db w)))
  /\ blocked_ips (db (detect env inp fv w).1) = blocked_ips (db w)
  /\ blocked_ips_history (db (detect env inp fv w).1) = blocked_ips_history (db w)
  /\ whitelist (db (detect env inp fv w).1) = whitelist (db w)
  /\ CONFIG_CACHE (detect env inp fv w).1 = CONFIG_CACHE w
  /\ enforcement (detect env inp fv w).1 = enforcement w
  /\ pending_unblocks (detect env inp fv w).1 = pending_unblocks w.
Proof.
  intros [Hth Hdur] attack block. subst block attack.
  unfold detect, whitelisted, blocking_on, model_request. rewrite Hth, Hdur.
  destruct (Qle_bool th (di_prob inp)); cbn [andb].
  - unfold find_whitelist. cbn [whitelist].
    destruct (List.find _ (whitelist (db w))); cbn [negb andb].
    + cbn. rewrite app_nil_r, !length_app. cbn. repeat split; lia.
    + destruct (truthy _); cbn; rewrite ?app_nil_r, !length_app; cbn; repeat split; lia.
  - cbn. rewrite app_nil_r, !length_app. cbn. repeat split; lia.
Qed.

(** X21: with a readable policy, [detect] records exactly one flow and one
    alert per call and never touches the active blocks, the history, the
    whitelist, the policy or the firewall; it queues a block request (for
    the source, with the policy's duration) exactly when the score reaches
    the threshold, the source is not whitelisted and blocking is enabled;
    and it answers with the alert response exactly when the score reaches
    the threshold and the source is not whitelisted, also when blocking is
    disabled. *)
Theorem detect_queues_iff env inp fv w th dur :
  policy_reads env w th dur ->
  (background_tasks (detect env inp fv w).1 = background_tasks w ++ [model_request fv dur]
   \/ background_tasks (detect env inp fv w).1 = background_tasks w)
  /\ (background_tasks (detect env inp fv w).1 = background_tasks w ++ [model_request fv dur]
      <-> (th <= di_prob inp)%Q /\ whitelisted (src_ip fv) w = false
          /\ blocking_on w = true)
  /\ ((exists id, (detect env inp fv w).2
                  = inr (RespAlert id (classify_attack_type fv) (di_prob inp) th dur))
      <-> (th <= di_prob inp)%Q /\ whitelisted (src_ip fv) w = false)
  /\ length (flows (db (detect env inp fv w).1)) = S (length (flows (db w)))
  /\ length (alerts (db (detect env inp fv w).1)) = S (length (alerts (db w)))
  /\ blocked_ips (db (detect env inp fv w).1) = blocked_ips (db w)
  /\ blocked_ips_history (db (detect env inp fv w).1) = blocked_ips_history (db w)
  /\ whitelist (db (detect env inp fv w).1) = whitelist (db w)
  /\ CONFIG_CACHE (detect env inp fv w).1 = CONFIG_CACHE w
  /\ enforcement (detect env inp fv w).1 = enforcement w.
Proof.
  intros Hp.
  destruct (detect_spec env inp fv w th dur Hp)
    as (Hresp & Hq & Hfl & Hal & Hb & Hh & Hwl & Hc & He & _).
  rewrite Hresp, Hq. clear Hresp Hq.
  assert (Happ : forall (l : list BlockRequest) x, l ++ [x] ≠ l).
  { intros l x E. apply (f_equal (@length _)) in E. rewrite length_app in E. cbn in E. lia. }
  split; [destruct (_ && _ && _); [now left | right; apply app_nil_r]|].
  split.
  { split.
    - destruct (Qle_bool th (di_prob inp)) eqn:Ea, (whitelisted (src_ip fv) w),
        (blocking_on w); cbn [andb negb]; rewrite ?app_nil_r; intros H;
        try (symmetry in H; now apply Happ in H).
      repeat split. now apply Qle_bool_iff.
    - intros (Hle & Hw & Hon). apply Qle_bool_iff in Hle. now rewrite Hle, Hw, Hon. }
  split.
  { split.
    - intros [id H]. destruct (Qle_bool th (di_prob inp)) eqn:Ea; [|discriminate].
      destruct (whitelisted (src_ip fv) w); [discriminate|].
      split; [now apply Qle_bool_iff | reflexivity].
    - intros (Hle & Hw). apply Qle_bool_iff in Hle. rewrite Hle, Hw. eauto. }
  auto 10.
Qed.

Lemma detect_queues_iff_witness :
  background_tasks (detect mock_host attack_inputs scan_and_flood (fresh_world mock_host)).1
  = [model_request scan_and_flood 600].
Proof.
  assert (Hp : policy_reads mock_host (fresh_world mock_host) (7 # 10) 600)
    by (split; reflexivity).
  destruct (detect_queues_iff mock_host attack_inputs scan_and_flood
              (fresh_world mock_host) (7 # 10) 600 Hp) as (_ & [_ H] & _).
  apply H. repeat split. unfold Qle. cbn. lia.
Defined.

Lemma schedule_frame env t1 t2 t3 addr dur rsn act nt w w' :
  schedule_block_and_unblock env t1 t2 t3 addr dur rsn act nt w = Some w' ->
  CONFIG_CACHE w' = CONFIG_CACHE w
  /\ whitelist (db w') = whitelist (db w)
  /\ alerts (db w') = alerts (db w)
  /\ background_tasks w' = background_tasks w
  /\ running w' = running w.
Proof.
  unfold schedule_block_and_unblock.
  destruct (schedule_lookup t1 t2 addr dur rsn act nt (db w));
    [intros [= <-]; auto | discriminate | intros [= <-]; cbn; auto].
Qed.

(** X22: a detection followed by its background task, with nothing else
    running in between. For a source that is not whitelisted and not yet
    blocked, with blocking enabled and nothing else queued, a score at or
    above the threshold queues one block call. When the policy's duration
    gives a representable expiry date, the call ends in exactly one
    active block for the source, made by the model, with that duration
    and the attack type as reason; a second such detection while the
    block is active then adds an alert but no block, no history record
    and no enforcement call. When the expiry date overflows, the call
    raises before writing anything: the alert was answered with the block
    duration, and no block, history record, enforcement call or timer
    follows. *)
Theorem detected_attack_is_blocked_once env inp inp' fv w th dur t1 t2 t3 t1' t2' t3' :
  policy_reads env w th dur ->
  (th <= di_prob inp)%Q -> (th <= di_prob inp')%Q ->
  whitelisted (src_ip fv) w = false -> blocking_on w = true ->
  background_tasks w = [] -> find_block (src_ip fv) (db w) = None ->
  let w1 := run_background_task env t1 t2 t3 (detect env inp fv w).1 in
  let w2 := run_background_task env t1' t2' t3' (detect env inp' fv w1).1 in
  (detect env inp fv w).2
  = inr (RespAlert (length (alerts (db w))) (classify_attack_type fv) (di_prob inp) th dur)
  /\ (forall u, unblock_time t1 dur = Some u ->
        u = t1 + timedelta_seconds dur
        /\ find_block (src_ip fv) (db w1)
           = Some (block_doc t2 u (src_ip fv) dur (classify_attack_type fv) "model" None)
        /\ active_count (src_ip fv) w1 = 1%nat
        /\ blocked_ips (db w2) = blocked_ips (db w1)
        /\ blocked_ips_history (db w2) = blocked_ips_history (db w1)
        /\ enforcement w2 = enforcement w1
        /\ length (alerts (db w2)) = (length (alerts (db w)) + 2)%nat)
  /\ (unblock_time t1 dur = None ->
        blocked_ips (db w1) = blocked_ips (db w)
        /\ blocked_ips_history (db w1) = blocked_ips_history (db w)
        /\ enforcement w1 = enforcement w
        /\ pending_unblocks w1 = pending_unblocks w
        /\ background_tasks w1 = []).
Proof.
  intros Hp Hs Hs' Hwl Hon Hq0 Hnone w1 w2.
  apply Qle_bool_iff in Hs, Hs'.
  (* first detection *)
  destruct (detect_spec env inp fv w th dur Hp)
    as (Hresp & Hq & _ & Hal & Hb & Hh & Hw & Hc & He & Hpu).
  rewrite Hs, Hwl in Hresp. cbn [negb] in Hresp. split; [exact Hresp|]. clear Hresp.
  rewrite Hs, Hwl, Hon, Hq0 in Hq. cbn [andb negb app] in Hq.
  set (d1 := (detect env inp fv w).1) in *.
  set (d1' := with_background_tasks d1 []).
  assert (Hw1 : w1 = default d1'
                       (schedule_block_and_unblock env t1 t2 t3 (src_ip fv) dur
                          (classify_attack_type fv) "model" None d1')).
  { subst w1. unfold run_background_task. fold d1. now rewrite Hq. }
  assert (Hnone1 : find_block (src_ip fv) (db d1') = None).
  { unfold find_block. cbn [d1' db with_background_tasks]. rewrite Hb. exact Hnone. }
  destruct (schedule_cases env t1 t2 t3 (src_ip fv) dur (classify_attack_type fv)
              "model" None d1')
    as [(b & Hf & _) | [(_ & Hu & _ & E) | (u & _ & Hu & _ & E)]]; [congruence| |].
  { (* the expiry date overflows *)
    split; [intros u' Hu'; congruence|]. intros _.
    rewrite E in Hw1. cbn [default from_option id] in Hw1. rewrite Hw1.
    cbn [d1' db with_background_tasks enforcement pending_unblocks background_tasks].
    auto. }
  split; [|intros Hu'; congruence].
  intros u' Hu'. assert (u' = u) by congruence. subst u'.
  rewrite E in Hw1. cbn [default from_option id] in Hw1. rewrite <- Hw1 in E.
  destruct (unblock_time_some _ _ _ Hu) as [Hueq _]. split; [exact Hueq|].
  assert (Hfind : find_block (src_ip fv) (db w1)
                  = Some (block_doc t2 u (src_ip fv) dur (classify_attack_type fv)
                            "model" None)).
  { unfold find_block in *. rewrite (schedule_blocked_ips _ _ _ _ _ _ _ _ _ _ _ E).
    unfold find_block. rewrite Hnone1, (find_app_none _ _ _ Hnone1).
    cbn [ip block_doc]. rewrite String.eqb_refl. now rewrite Hueq. }
  split; [exact Hfind|]. split.
  { unfold active_count. rewrite (schedule_blocked_ips _ _ _ _ _ _ _ _ _ _ _ E), Hnone1.
    rewrite List.filter_app, length_app. unfold find_block in Hnone1.
    rewrite (find_none_filter _ _ Hnone1). cbn [List.filter ip block_doc].
    now rewrite String.eqb_refl. }
  (* second detection *)
  destruct (schedule_frame _ _ _ _ _ _ _ _ _ _ _ E) as (Hc1 & Hwl1 & Hal1 & Hq1 & _).
  cbn [d1' CONFIG_CACHE db background_tasks with_background_tasks] in Hc1, Hwl1, Hal1, Hq1.
  assert (Hp1 : policy_reads env w1 th dur).
  { unfold policy_reads. rewrite Hc1, Hc. exact Hp. }
  assert (Hwl' : whitelisted (src_ip fv) w1 = false).
  { unfold whitelisted, find_whitelist in *. now rewrite Hwl1, Hw. }
  assert (Hon' : blocking_on w1 = true).
  { unfold blocking_on in *. now rewrite Hc1, Hc. }
  destruct (detect_spec env inp' fv w1 th dur Hp1)
    as (_ & Hq2 & _ & Hal2 & Hb2 & Hh2 & _ & _ & He2 & _).
  rewrite Hs', Hwl', Hon', Hq1 in Hq2. cbn [andb negb app] in Hq2.
  set (d2 := (detect env inp' fv w1).1) in *.
  assert (Hw2 : w2 = with_background_tasks d2 []).
  { subst w2. unfold run_background_task. fold d2. rewrite Hq2.
    unfold schedule_block_and_unblock, schedule_lookup, find_block.
    cbn [model_request br_ip db with_background_tasks].
    rewrite Hb2. unfold find_block in Hfind. now rewrite Hfind. }
  rewrite Hw2. cbn [db enforcement with_background_tasks].
  split; [exact Hb2|]. split; [exact Hh2|]. split; [exact He2|].
  rewrite Hal2, Hal1, Hal. lia.
Qed.

Lemma detected_attack_is_blocked_once_witness :
  active_count "203.0.113.5"
    (run_background_task mock_host 20 21 22
       (detect mock_host attack_inputs scan_and_flood (fresh_world mock_host)).1) = 1%nat
  /\ blocked_ips
       (db (run_background_task mock_host 20 21 22
              (detect mock_host attack_inputs scan_and_flood
                 (update_config true 1 true
                    {| cu_threshold := None; cu_block_duration_sec := Some 300000000000;
                       cu_blocking_enabled := None |} (fresh_world mock_host)).1).1)) = [].
Proof.
  assert (Hs : (7 # 10 <= di_prob attack_inputs)%Q) by (unfold Qle; cbn; lia).
  split.
  - assert (Hp : policy_reads mock_host (fresh_world mock_host) (7 # 10) 600)
      by (split; reflexivity).
    destruct (detected_attack_is_blocked_once mock_host attack_inputs attack_inputs
                scan_and_flood (fresh_world mock_host) (7 # 10) 600 20 21 22 30 31 32
                Hp Hs Hs eq_refl eq_refl eq_refl eq_refl) as (_ & Hsome & _).
    exact (proj1 (proj2 (proj2 (Hsome 600000020 eq_refl)))).
  - set (w := (update_config true 1 true
                 {| cu_threshold := None; cu_block_duration_sec := Some 300000000000;
                    cu_blocking_enabled := None |} (fresh_world mock_host)).1).
    assert (Hp : policy_reads mock_host w (7 # 10) 300000000000)
      by (split; reflexivity).
    destruct (detected_attack_is_blocked_once mock_host attack_inputs attack_inputs
                scan_and_flood w (7 # 10) 300000000000 20 21 22 30 31 32
                Hp Hs Hs eq_refl eq_refl eq_refl eq_refl) as (_ & _ & Hnone).
    exact (proj1 (Hnone eq_refl)).
Defined.

End Gateway.

(** ** More on the policy *)

Section PolicyStore.
Import Api.

Ltac lookup_inserts :=
  repeat first [ rewrite lookup_insert_eq
               | rewrite lookup_insert_ne by discriminate ].

(** The three outcomes of [update_config]: refused, nothing to change, or
    written to the store and to the cache. *)
Lemma update_config_spec authorized now db_ok payload w :
  ((update_config authorized now db_ok payload w).1 = w
   /\ ((exists e, (update_config authorized now db_ok payload w).2 = inl e)
       \/ ((update_config authorized now db_ok payload w).2 = inr (CONFIG_CACHE w)
           /\ cu_threshold payload = None /\ cu_block_duration_sec payload = None)))
  \/ (authorized = true /\ db_ok = true
      /\ (update_config authorized now db_ok payload w).2
         = inr (CONFIG_CACHE (update_config authorized now db_ok payload w).1)
      /\ (cu_threshold payload ≠ None \/ cu_block_duration_sec payload ≠ None)
      /\ (forall th, cu_threshold payload = Some th -> (0 <= th)%Q /\ (th <= 1)%Q)
      /\ (forall d, cu_block_duration_sec payload = Some d -> 0 < d)
      /\ CONFIG_CACHE (update_config authorized now db_ok payload w).1 !! "threshold"%string
         = match cu_threshold payload with
           | Some th => Some (VFloat th)
           | None => CONFIG_CACHE w !! "threshold"%string
           end
      /\ CONFIG_CACHE (update_config authorized now db_ok payload w).1
           !! "block_duration_sec"%string
         = match cu_block_duration_sec payload with
           | Some d => Some (VInt d)
           | None => CONFIG_CACHE w !! "block_duration_sec"%string
           end
      /\ CONFIG_CACHE (update_config authorized now db_ok payload w).1 !! "updated_at"%string
         = Some (VTime now)
      /\ stored_field "threshold" (db (update_config authorized now db_ok payload w).1)
         = match cu_threshold payload with
           | Some th => Some (VFloat th)
           | None => stored_field "threshold" (db w)
           end
      /\ stored_field "block_duration_sec"
           (db (update_config authorized now db_ok payload w).1)
         = match cu_block_duration_sec payload with
           | Some d => Some (VInt d)
           | None => stored_field "block_duration_sec" (db w)
           end
      /\ stored_field "updated_at" (db (update_config authorized now db_ok payload w).1)
         = Some (VTime now)).
Proof.
  unfold update_config, config_updates.
  destruct authorized; cbn [negb]; [|left; split; [reflexivity | left; eauto]].
  destruct (cu_threshold payload) as [th|] eqn:Et.
  - destruct (Qle_bool 0 th && Qle_bool th 1) eqn:Ev;
      [|left; split; [reflexivity | left; eauto]].
    apply andb_true_iff in Ev. destruct Ev as [Hlo Hhi].
    apply Qle_bool_iff in Hlo, Hhi.
    destruct (cu_block_duration_sec payload) as [d|] eqn:Ed.
    + destruct (Z.leb_spec d 0) as [|Hd]; [left; split; [reflexivity | left; eauto]|].
      cbn [app]. destruct db_ok; cbn [negb]; [|left; split; [reflexivity | left; eauto]].
      right. unfold stored_field, dict_update.
      cbn [fst snd CONFIG_CACHE db config with_config fold_left app].
      do 3 (split; [reflexivity|]). split; [left; discriminate|].
      split; [now intros ? [= <-]|]. split; [now intros ? [= <-]|].
      destruct (config (db w)); lookup_inserts; auto 10.
    + cbn [app]. destruct db_ok; cbn [negb]; [|left; split; [reflexivity | left; eauto]].
      right. unfold stored_field, dict_update.
      cbn [fst snd CONFIG_CACHE db config with_config fold_left app].
      do 3 (split; [reflexivity|]). split; [left; discriminate|].
      split; [now intros ? [= <-]|]. split; [discriminate|].
      destruct (config (db w)); lookup_inserts;
        rewrite ?lookup_singleton_ne by discriminate; auto 10.
  - destruct (cu_block_duration_sec payload) as [d|] eqn:Ed.
    + destruct (Z.leb_spec d 0) as [|Hd]; [left; split; [reflexivity | left; eauto]|].
      cbn [app]. destruct db_ok; cbn [negb]; [|left; split; [reflexivity | left; eauto]].
      right. unfold stored_field, dict_update.
      cbn [fst snd CONFIG_CACHE db config with_config fold_left app].
      do 3 (split; [reflexivity|]). split; [right; discriminate|].
      split; [discriminate|]. split; [now intros ? [= <-]|].
      destruct (config (db w)); lookup_inserts;
        rewrite ?lookup_singleton_ne by discriminate; auto 10.
    + left. split; [reflexivity | right; auto].
Qed.



Lemma setdefault_other k v (m : gmap string Value) k' :
  k' ≠ k -> setdefault k v m !! k' = m !! k'.
Proof.
  intros Hne. unfold setdefault. destruct (m !! k); [reflexivity|].
  apply lookup_insert_ne. congruence.
Qed.

Lemma step_policy_ok env w w' : step env w w' -> policy_ok w -> policy_ok w'.
Proof.
  intros Hstep Hok.
  assert (Hsame : CONFIG_CACHE w' = CONFIG_CACHE w -> policy_ok w').
  { intros E. unfold policy_ok. now rewrite E. }
  destruct Hstep.
  - apply Hsame. unfold detect.
    destruct (to_float _); [|reflexivity]. destruct (to_int _); [|reflexivity].
    destruct (Qle_bool _ _); [|reflexivity]. destruct (find_whitelist _ _); reflexivity.
  - apply Hsame. exact (proj2 (start_background_task_db t1 t2 i w)).
  - apply Hsame. exact (proj1 (proj2 (manual_block_start_db env authorized t1 t2 payload w))).
  - apply Hsame. exact (proj1 (resume_db env t i w)).
  - apply Hsame. unfold manual_unblock. now destruct authorized.
  - apply Hsame. unfold run_delayed_unblock. now destruct (pending_unblocks w !! i).
  - apply Hsame. reflexivity.
  - unfold add_whitelist. destruct authorized; [|exact Hok]. cbn [negb].
    destruct db_ok; [|exact Hok]. cbn [negb fst].
    destruct Hok as (th & dur & Ht & H0 & H1 & Hd & Hpos).
    exists th, dur. cbn [CONFIG_CACHE].
    rewrite !setdefault_other by discriminate. auto.
  - apply Hsame. unfold remove_whitelist. now destruct authorized.
  - destruct (update_config_spec authorized now db_ok payload w)
      as [[Hw _] | (_ & _ & _ & _ & Hth & Hd & Hct & Hcd & _)].
    + now rewrite Hw.
    + destruct Hok as (th & dur & Ht & H0 & H1 & Hdu & Hpos).
      unfold policy_ok. rewrite Hct, Hcd.
      destruct (cu_threshold payload) as [th'|], (cu_block_duration_sec payload) as [d'|].
      * exists th', d'. destruct (Hth th' eq_refl). specialize (Hd d' eq_refl). auto 10.
      * exists th', dur. destruct (Hth th' eq_refl). auto 10.
      * exists th, d'. specialize (Hd d' eq_refl). auto 10.
      * exists th, dur. auto 10.
Qed.

Lemma policy_ok_reads env w :
  policy_ok w -> exists th dur, policy_reads env w th dur /\ 0 < dur.
Proof.
  intros (th & dur & Ht & _ & _ & Hd & Hpos). exists th, dur.
  unfold policy_reads. rewrite Ht, Hd. auto.
Qed.

(** X24: once the cached policy holds a threshold in [0, 1] and a positive
    block duration, it does so after any sequence of operations; in such a
    state [detect] always answers (it never fails on the policy) and every
    block request it queues carries a positive duration. *)
Theorem policy_stays_valid env w w' :
  policy_ok w -> rtc (step env) w w' ->
  policy_ok w'
  /\ (forall inp fv, exists r, (detect env inp fv w').2 = inr r)
  /\ (forall inp fv r,
        In r (background_tasks (detect env inp fv w').1) ->
        In r (background_tasks w') \/ 0 < br_duration_sec r).
Proof.
  intros Hok Hrtc.
  assert (Hok' : policy_ok w').
  { induction Hrtc as [w | w w1 w2 Hstep _ IH]; [exact Hok|].
    apply IH. exact (step_policy_ok env w w1 Hstep Hok). }
  split; [exact Hok'|].
  destruct (policy_ok_reads env w' Hok') as (th & dur & Hp & Hpos).
  split.
  - intros inp fv. destruct (detect_spec env inp fv w' th dur Hp) as (Hr & _).
    rewrite Hr. eauto.
  - intros inp fv r Hin. destruct (detect_spec env inp fv w' th dur Hp) as (_ & Hq & _).
    rewrite Hq in Hin. apply in_app_or in Hin. destruct Hin as [Hin | Hin]; [now left|].
    right. destruct (_ && _ && _); [|destruct Hin].
    destruct Hin as [<- | []]. exact Hpos.
Qed.

Lemma fresh_world_policy_ok : policy_ok (fresh_world mock_host).
Proof.
  exists (7 # 10)%Q, 600. repeat split; try reflexivity; try lia; unfold Qle; cbn; lia.
Defined.

Lemma policy_stays_valid_witness :
  policy_ok (update_config true 50 true disable_request (fresh_world mock_host)).1.
Proof.
  refine (proj1 (policy_stays_valid mock_host (fresh_world mock_host) _
                   fresh_world_policy_ok _)).
  eapply rtc_l; [|apply rtc_refl]. apply step_update_config.
Defined.

(** X25: loading the policy at startup. With no stored policy document the
    defaults are stored and cached; they carry no [blocking_enabled] entry,
    which reads as blocking enabled. With a stored document whose
    threshold and duration are numbers, the store is left as it is and the
    cache takes those values, so a policy that was in force and in sync
    with the store is in force again after a restart; the blocking toggle
    is taken from the stored document, enabled when it has none. *)
Theorem load_policy_config_restores env now w :
  (config (db w) = None ->
   exists w',
     load_policy_config env now w = Some w'
     /\ config (db w') = Some (CONFIG_CACHE w')
     /\ CONFIG_CACHE w' !! "threshold"%string = Some (VFloat (DEFAULT_THRESHOLD env))
     /\ CONFIG_CACHE w' !! "block_duration_sec"%string
        = Some (VInt (DEFAULT_BLOCK_DURATION_SEC env))
     /\ CONFIG_CACHE w' !! "blocking_enabled"%string = None
     /\ blocking_on w' = true
     /\ policy_synced w')
  /\ (forall doc th dur,
        config (db w) = Some doc ->
        doc !! "threshold"%string = Some (VFloat th) ->
        doc !! "block_duration_sec"%string = Some (VInt dur) ->
        exists w',
          load_policy_config env now w = Some w'
          /\ db w' = db w
          /\ CONFIG_CACHE w' !! "threshold"%string = Some (VFloat th)
          /\ CONFIG_CACHE w' !! "block_duration_sec"%string = Some (VInt dur)
          /\ blocking_on w'
             = truthy (default (VBool true) (doc !! "blocking_enabled"%string))
          /\ policy_synced w')
  /\ (forall doc, config (db w) = Some doc -> policy_ok w -> policy_synced w ->
        exists w',
          load_policy_config env now w = Some w'
          /\ policy_ok w'
          /\ CONFIG_CACHE w' !! "threshold"%string = CONFIG_CACHE w !! "threshold"%string
          /\ CONFIG_CACHE w' !! "block_duration_sec"%string
             = CONFIG_CACHE w !! "block_duration_sec"%string).
Proof.
  assert (Hsome : forall doc th dur,
            config (db w) = Some doc ->
            doc !! "threshold"%string = Some (VFloat th) ->
            doc !! "block_duration_sec"%string = Some (VInt dur) ->
            exists w',
              load_policy_config env now w = Some w'
              /\ db w' = db w
              /\ CONFIG_CACHE w' !! "threshold"%string = Some (VFloat th)
              /\ CONFIG_CACHE w' !! "block_duration_sec"%string = Some (VInt dur)
              /\ blocking_on w'
                 = truthy (default (VBool true) (doc !! "blocking_enabled"%string))
              /\ policy_synced w').
  { intros doc th dur Hdoc Ht Hd. unfold load_policy_config. rewrite Hdoc, Ht, Hd.
    cbn [default from_option id to_float to_int]. eexists. split; [reflexivity|].
    unfold blocking_on, policy_synced, stored_field.
    cbn [db CONFIG_CACHE list_to_map foldr uncurry fst snd]. rewrite Hdoc.
    lookup_inserts. rewrite Ht, Hd. cbn [default from_option id truthy].
    repeat split. }
  split; [|split; [exact Hsome|]].
  - intros Hnone. unfold load_policy_config. rewrite Hnone.
    eexists. split; [reflexivity|].
    unfold blocking_on, policy_synced, stored_field.
    cbn [db CONFIG_CACHE config with_config list_to_map foldr uncurry fst snd].
    lookup_inserts. rewrite lookup_empty. repeat split.
  - intros doc Hdoc (th & dur & Ht & H0 & H1 & Hd & Hpos) [Hs1 Hs2].
    unfold stored_field in Hs1, Hs2. rewrite Hdoc in Hs1, Hs2.
    rewrite Ht in Hs1. rewrite Hd in Hs2.
    destruct (Hsome doc th dur Hdoc Hs1 Hs2) as (w' & Hl & _ & Hct & Hcd & _).
    exists w'. split; [exact Hl|]. split; [|now rewrite Hct, Hcd, Ht, Hd].
    exists th, dur. auto 10.
Qed.

Lemma load_policy_config_restores_witness :
  exists w',
    load_policy_config mock_host 100 (fresh_world mock_host) = Some w'
    /\ CONFIG_CACHE w' !! "threshold"%string = Some (VFloat (7 # 10))
    /\ blocking_on w' = true.
Proof.
  destruct (load_policy_config_restores mock_host 100 (fresh_world mock_host))
    as (Hfresh & _).
  destruct (Hfresh eq_refl) as (w' & Hl & _ & Ht & _ & _ & Hon & _).
  exists w'. split; [exact Hl|]. split; [exact Ht | exact Hon].
Defined.

End PolicyStore.

(** ** The JSON helper *)

Section JsonHelper.
Import Api.
Variable isoformat : Z -> string.

Lemma Bson_nested_ind (P : Bson -> Prop) :
  P BNull -> (forall b, P (BBool b)) -> (forall n, P (BInt n)) ->
  (forall x, P (BFloat x)) -> (forall s, P (BStr s)) ->
  (forall hex, P (BObjectId hex)) -> (forall t, P (BDatetime t)) ->
  (forall items, Forall P items -> P (BList items)) ->
  (forall items, Forall (fun kv : string * Bson => P kv.2) items -> P (BDict items)) ->
  forall doc, P doc.
Proof.
  intros Hnull Hbool Hint Hfloat Hstr Hoid Hdt Hlist Hdict.
  fix IH 1. intros [ | b | n | x | s0 | hex | t | items | items];
    [exact Hnull | apply Hbool | apply Hint | apply Hfloat | apply Hstr
    | apply Hoid | apply Hdt | | ].
  - apply Hlist. induction items as [|d items IHl]; constructor; [apply IH | exact IHl].
  - apply Hdict. induction items as [|[k v] items IHl]; constructor; [apply IH | exact IHl].
Qed.

Lemma make_jsonable_is_jsonable doc : is_jsonable (make_jsonable isoformat doc) = true.
Proof.
  induction doc as [ | | | | | | | items IH | items IH] using Bson_nested_ind;
    try reflexivity.
  - cbn [make_jsonable is_jsonable]. apply forallb_forall. intros d Hin.
    apply List.in_map_iff in Hin. destruct Hin as (d0 & <- & Hin).
    rewrite List.Forall_forall in IH. exact (IH d0 Hin).
  - cbn [make_jsonable is_jsonable]. apply forallb_forall. intros [k v] Hin.
    apply List.in_map_iff in Hin. destruct Hin as ([k0 v0] & [= <- <-] & Hin).
    rewrite List.Forall_forall in IH. exact (IH (k0, v0) Hin).
Qed.

Lemma make_jsonable_fixes_jsonable doc :
  is_jsonable doc = true -> make_jsonable isoformat doc = doc.
Proof.
  induction doc as [ | | | | | | | items IH | items IH] using Bson_nested_ind;
    try reflexivity; try discriminate.
  - cbn [make_jsonable is_jsonable]. intros Hall. f_equal.
    rewrite forallb_forall in Hall. rewrite List.Forall_forall in IH.
    rewrite <- (List.map_id items) at 2. apply List.map_ext_in.
    intros d Hin. exact (IH d Hin (Hall d Hin)).
  - cbn [make_jsonable is_jsonable]. intros Hall. f_equal.
    rewrite forallb_forall in Hall. rewrite List.Forall_forall in IH.
    rewrite <- (List.map_id items) at 2. apply List.map_ext_in.
    intros [k v] Hin. f_equal. exact (IH (k, v) Hin (Hall (k, v) Hin)).
Qed.

(** X26: [make_jsonable] always returns a document free of [ObjectId]s and
    datetimes, at any depth; it keeps the keys of a dictionary and their
    order and the length of a list; it leaves a document that is already
    free of them unchanged, so applying it twice is the same as once. *)
Theorem make_jsonable_idempotent doc :
  is_jsonable (make_jsonable isoformat doc) = true
  /\ keys_of (make_jsonable isoformat doc) = keys_of doc
  /\ (forall items, doc = BList items ->
        exists items', make_jsonable isoformat doc = BList items'
                       /\ length items' = length items)
  /\ (is_jsonable doc = true -> make_jsonable isoformat doc = doc)
  /\ make_jsonable isoformat (make_jsonable isoformat doc) = make_jsonable isoformat doc.
Proof.
  split; [apply make_jsonable_is_jsonable|]. split.
  { destruct doc; try reflexivity. cbn [make_jsonable keys_of].
    rewrite List.map_map. apply List.map_ext. now intros [k v]. }
  split.
  { intros items ->. cbn [make_jsonable]. eexists. split; [reflexivity|].
    apply length_map. }
  split; [apply make_jsonable_fixes_jsonable|].
  apply make_jsonable_fixes_jsonable, make_jsonable_is_jsonable.
Qed.

End JsonHelper.

Section JsonSample.
Import Api.

Lemma make_jsonable_idempotent_witness :
  make_jsonable (fun _ => "1970-01-01T00:00:01"%string)
    (make_jsonable (fun _ => "1970-01-01T00:00:01"%string) sample_bson)
  = BDict [("_id", BStr "65f0c0ffee"); ("blocked_at", BStr "1970-01-01T00:00:01");
           ("tags", BList [BStr "manual"; BStr "1970-01-01T00:00:01"]);
           ("score", BFloat (9 # 10))]%string.
Proof.
  rewrite (proj2 (proj2 (proj2 (proj2
             (make_jsonable_idempotent (fun _ => "1970-01-01T00:00:01"%string)
                sample_bson))))).
  reflexivity.
Defined.

End JsonSample.

(** ** Manual blocks and durations *)

Section Durations.
Import Api.

(** The expiry date is representable whenever the clock is a valid date
    and the sum does not pass [datetime.max]. *)
Lemma unblock_time_in_range now dur :
  0 <= dur -> DATETIME_MIN <= now -> now + timedelta_seconds dur <= DATETIME_MAX ->
  unblock_time now dur = Some (now + timedelta_seconds dur).
Proof.
  unfold unblock_time, timedelta, datetime_add, timedelta_seconds, DATETIME_MIN, DATETIME_MAX.
  intros Hd Hnow Hmax.
  assert (H1 : -999999999 <= dur / 86400) by (apply Z.div_le_lower_bound; lia).
  assert (H2 : dur / 86400 <= 999999999) by (apply Z.div_le_upper_bound; lia).
  apply Z.leb_le in H1, H2. rewrite H1, H2. cbn [andb].
  assert (H3 : (-62135596800000000 <=? now + dur * 1000000) = true) by (apply Z.leb_le; lia).
  assert (H4 : (now + dur * 1000000 <=? 253402300799999999) = true) by (apply Z.leb_le; lia).
  now rewrite H3, H4.
Qed.

Lemma block_doc_ok t2 u addr dur rsn act nt :
  0 < dur ->
  0 < duration_sec (block_doc t2 u addr dur rsn act nt)
  /\ expireAt (block_doc t2 u addr dur rsn act nt)
     = unblock_at (block_doc t2 u addr dur rsn act nt).
Proof. intros H. split; [exact H | reflexivity]. Qed.

Lemma schedule_start_durations t1 t2 addr dur rsn act nt w :
  0 < dur -> durations_positive w ->
  durations_positive (schedule_start t1 t2 addr dur rsn act nt w).
Proof.
  intros Hd (Hb & Hq & Hr).
  destruct (schedule_start_db t1 t2 addr dur rsn act nt w) as (Hdb & _ & Hbg).
  unfold durations_positive. rewrite Hdb, Hbg. split; [exact Hb|]. split; [exact Hq|].
  destruct (schedule_start_running t1 t2 addr dur rsn act nt w) as [-> | (u & _ & ->)];
    [exact Hr|].
  apply Forall_app. split; [exact Hr|]. constructor; [|constructor].
  now apply block_doc_ok.
Qed.

Lemma step_durations env w w' :
  step env w w' -> policy_ok w -> durations_positive w -> durations_positive w'.
Proof.
  intros Hstep Hok Hinv.
  assert (Hfilter : forall f : BlockDoc -> bool,
            Forall (fun b => 0 < duration_sec b /\ expireAt b = unblock_at b)
              (List.filter f (blocked_ips (db w)))).
  { intros f. destruct Hinv as [Hb _]. rewrite List.Forall_forall in *.
    intros b Hin. apply List.filter_In in Hin. now apply Hb. }
  destruct Hstep.
  - destruct (policy_ok_reads env w Hok) as (th & dur & Hp & Hpos).
    destruct (detect_spec env inp fv w th dur Hp) as (_ & Hq & _ & _ & Hb & _).
    destruct Hinv as (Hbl & Hqu & Hru). unfold durations_positive.
    rewrite Hb, detect_running. split; [exact Hbl|]. split; [|exact Hru].
    rewrite Hq. apply Forall_app. split; [exact Hqu|].
    destruct (_ && _ && _); constructor; [exact Hpos | constructor].
  - unfold start_background_task. destruct (background_tasks w !! i) as [r|] eqn:Hi;
      [|exact Hinv].
    destruct Hinv as (Hb & Hq & Hr).
    apply schedule_start_durations; [exact (Forall_lookup_1 _ _ _ _ Hq Hi)|].
    split; [exact Hb|]. split; [|exact Hr].
    cbn [background_tasks with_background_tasks]. now apply Forall_delete.
  - unfold manual_block_start. destruct authorized; cbn [negb]; [|exact Hinv].
    destruct (Z.leb_spec
                match mb_duration_sec payload with
                | Some d => if d =? 0 then DEFAULT_BLOCK_DURATION_SEC env else d
                | None => DEFAULT_BLOCK_DURATION_SEC env
                end 0) as [|Hpos]; [exact Hinv|].
    now apply schedule_start_durations.
  - destruct Hinv as (Hb & Hq & Hr). unfold resume.
    destruct (running w !! i) as [[doc|h|addr dur]|] eqn:Hi; [| | |now repeat split].
    + pose proof (Forall_lookup_1 _ _ _ _ Hr Hi) as Hdoc. cbn beta iota in Hdoc.
      split; [|split; [exact Hq|]].
      * cbn [db with_running insert_block with_db blocked_ips with_blocked_ips].
        apply Forall_app. split; [exact Hb|]. constructor; [exact Hdoc | constructor].
      * cbn [running with_running]. now apply Forall_insert.
    + split; [exact Hb|]. split; [exact Hq|].
      cbn [running with_running]. now apply Forall_insert.
    + split; [exact Hb|]. split; [exact Hq|].
      cbn [running with_running]. now apply Forall_delete.
  - unfold manual_unblock. destruct authorized; cbn [negb fst]; [|exact Hinv].
    split; [apply Hfilter | exact (proj2 Hinv)].
  - unfold run_delayed_unblock. destruct (pending_unblocks w !! i); exact Hinv.
  - split; [apply Hfilter | exact (proj2 Hinv)].
  - unfold add_whitelist. destruct authorized; cbn [negb]; [|exact Hinv].
    destruct db_ok; exact Hinv.
  - unfold remove_whitelist. destruct authorized; exact Hinv.
  - unfold update_config. destruct authorized; cbn [negb]; [|exact Hinv].
    destruct (config_updates payload) as [err|[|u us]]; [exact Hinv..|].
    destruct db_ok; exact Hinv.
Qed.

(** X27: starting with a valid policy, no active block, nothing queued and
    no block call under way, every block the server ever holds has a
    positive duration and expires in the store exactly at its
    [unblock_at], whatever requests are made and however the block calls
    interleave: the duration checks of [manual_block] and [update_config]
    leave no way to create a block that is already over. *)
Theorem blocks_have_positive_duration env w w' :
  policy_ok w -> blocked_ips (db w) = [] -> background_tasks w = [] -> running w = [] ->
  rtc (step env) w w' ->
  Forall (fun b => 0 < duration_sec b /\ expireAt b = unblock_at b) (blocked_ips (db w')).
Proof.
  intros Hok Hb Hq Hr Hrtc.
  assert (Hinv : durations_positive w).
  { unfold durations_positive. rewrite Hb, Hq, Hr. repeat split; constructor. }
  clear Hb Hq Hr.
  assert (H' : policy_ok w' /\ durations_positive w').
  { induction Hrtc as [w | w w1 w2 Hstep _ IH]; [now split|].
    apply IH; [exact (step_policy_ok env w w1 Hstep Hok)|].
    exact (step_durations env w w1 Hstep Hok Hinv). }
  exact (proj1 (proj2 H')).
Qed.

Lemma blocks_have_positive_duration_witness :
  Forall (fun b => 0 < duration_sec b /\ expireAt b = unblock_at b)
    (blocked_ips (db (blocked_world mock_host)))
  /\ Forall (fun b => 0 < duration_sec b /\ expireAt b = unblock_at b)
       (blocked_ips (db (overlapping_blocks mock_host))).
Proof.
  split.
  - refine (blocks_have_positive_duration mock_host (fresh_world mock_host) _
              fresh_world_policy_ok eq_refl eq_refl eq_refl _).
    apply manual_block_steps.
  - refine (blocks_have_positive_duration mock_host (fresh_world mock_host) _
              fresh_world_policy_ok eq_refl eq_refl eq_refl _).
    unfold overlapping_blocks. cbv zeta.
    eapply rtc_l; [apply (step_manual_block mock_host true 0 1)|].
    eapply rtc_l; [apply (step_manual_block mock_host true 2 3)|].
    do 6 (eapply rtc_l; [apply step_resume|]). apply rtc_refl.
Defined.

(** X28: an administrative block served with nothing else running in
    between. It uses the requested duration, or the default when none or
    zero is given. A non-positive effective duration is refused with a
    client error and changes nothing. On an address already blocked the
    request is accepted and changes nothing. On an address with no active
    block (for instance right after an unblock) the outcome depends on
    the expiry date [t1 + duration]: when it is a representable date,
    which it is whenever the clock is a valid date and the sum does not
    pass [datetime.max], the request creates one active block made by the
    administrator with that duration and adds one history record;
    otherwise [OverflowError] is raised before anything is written, the
    store is left as it was and the answer is a server error. *)
Theorem manual_block_outcome env t1 t2 t3 payload w :
  let dur := effective_duration env payload in
  let res := manual_block env true t1 t2 t3 payload w in
  (dur <= 0 -> res = (w, inl (HTTP400 "duration_sec must be positive")))
  /\ (0 < dur -> forall b, find_block (mb_ip payload) (db w) = Some b ->
      res = (w, inr (mb_ip payload, dur)))
  /\ (0 < dur -> find_block (mb_ip payload) (db w) = None ->
      forall u, unblock_time t1 dur = Some u ->
      u = t1 + timedelta_seconds dur
      /\ res.2 = inr (mb_ip payload, dur)
      /\ find_block (mb_ip payload) (db res.1)
         = Some (block_doc t2 u (mb_ip payload) dur "manual" "admin" (mb_note payload))
      /\ length (blocked_ips_history (db res.1))
         = S (length (blocked_ips_history (db w))))
  /\ (0 < dur -> find_block (mb_ip payload) (db w) = None ->
      unblock_time t1 dur = None ->
      res = (w, inl (HTTP500 "Internal Server Error")))
  /\ (0 < dur -> DATETIME_MIN <= t1 -> t1 + timedelta_seconds dur <= DATETIME_MAX ->
      unblock_time t1 dur = Some (t1 + timedelta_seconds dur)
      /\ active_count (mb_ip payload)
           (manual_block env true t1 t2 t3 payload
              (manual_unblock env true (mb_ip payload) w).1).1 = 1%nat).
Proof.
  intros dur res. subst res. unfold manual_block. cbn [negb].
  fold (effective_duration env payload). fold dur.
  assert (Hnew : forall w0 u, find_block (mb_ip payload) (db w0) = None ->
            unblock_time t1 dur = Some u ->
            exists w1,
              schedule_block_and_unblock env t1 t2 t3 (mb_ip payload) dur
                "manual" "admin" (mb_note payload) w0 = Some w1
              /\ blocked_ips (db w1)
                 = blocked_ips (db w0)
                   ++ [block_doc t2 u (mb_ip payload) dur "manual" "admin" (mb_note payload)]
              /\ length (blocked_ips_history (db w1))
                 = S (length (blocked_ips_history (db w0)))).
  { intros w0 u Hnone Hu.
    destruct (schedule_cases env t1 t2 t3 (mb_ip payload) dur "manual" "admin"
                (mb_note payload) w0)
      as [(b & Hf & _) | [(_ & Hu' & _) | (u' & _ & Hu' & _ & E)]]; [congruence..|].
    assert (u' = u) by congruence. subst u'.
    eexists. split; [exact E|]. cbn. rewrite length_app. cbn. split; [reflexivity | lia]. }
  destruct (Z.leb_spec dur 0) as [Hle | Hpos].
  - split; [reflexivity|]. repeat (split; [lia|]). lia.
  - split; [lia|]. split; [|split; [|split]].
    + intros _ b Hb.
      destruct (schedule_cases env t1 t2 t3 (mb_ip payload) dur "manual" "admin"
                  (mb_note payload) w)
        as [(b0 & _ & _ & E) | [(Hf & _) | (u' & Hf & _)]]; [|congruence..].
      now rewrite E.
    + intros _ Hnone u Hu. destruct (Hnew w u Hnone Hu) as (w1 & E & Hips & Hlen).
      rewrite E. cbn [fst snd].
      split; [exact (proj1 (unblock_time_some _ _ _ Hu))|]. split; [reflexivity|].
      split; [|exact Hlen].
      unfold find_block in *. rewrite Hips, (find_app_none _ _ _ Hnone).
      cbn [ip block_doc]. now rewrite String.eqb_refl.
    + intros _ Hnone Hu.
      destruct (schedule_cases env t1 t2 t3 (mb_ip payload) dur "manual" "admin"
                  (mb_note payload) w)
        as [(b0 & Hf & _) | [(_ & _ & _ & E) | (u' & _ & Hu' & _)]]; [congruence| |congruence].
      now rewrite E.
    + intros _ Hmin Hmax.
      pose proof (unblock_time_in_range t1 dur (Z.lt_le_incl _ _ Hpos) Hmin Hmax) as Hu.
      split; [exact Hu|].
      cbn [manual_unblock negb fst].
      assert (Hnone : find_block (mb_ip payload)
                        (db (remove_block env (mb_ip payload) w)) = None).
      { unfold find_block, remove_block. cbn [db blocked_ips with_blocked_ips].
        apply find_filter_none. intros x _ Hx. now rewrite Hx. }
      destruct (Hnew _ _ Hnone Hu) as (w1 & E & Hips & _).
      rewrite E. cbn [fst].
      unfold active_count. rewrite Hips.
      rewrite List.filter_app, length_app. unfold find_block in Hnone.
      rewrite (find_none_filter _ _ Hnone). cbn [List.filter ip block_doc].
      now rewrite String.eqb_refl.
Qed.

Lemma manual_block_outcome_witness :
  manual_block mock_host true 0 1 2
    {| mb_ip := "203.0.113.5"; mb_duration_sec := Some (-5); mb_note := None |}
    (fresh_world mock_host)
  = (fresh_world mock_host, inl (HTTP400 "duration_sec must be positive"))
  /\ active_count "203.0.113.5"
       (manual_block mock_host true 3 4 5 (block_request "203.0.113.5")
          (manual_unblock mock_host true "203.0.113.5" (blocked_world mock_host)).1).1
     = 1%nat
  /\ manual_block mock_host true 1700000000000000 1700000000000001 1700000000000002
       {| mb_ip := "203.0.113.5"; mb_duration_sec := Some 300000000000; mb_note := None |}
       (fresh_world mock_host)
     = (fresh_world mock_host, inl (HTTP500 "Internal Server Error")).
Proof.
  split; [|split].
  - destruct (manual_block_outcome mock_host 0 1 2
                {| mb_ip := "203.0.113.5"; mb_duration_sec := Some (-5);
                   mb_note := None |} (fresh_world mock_host)) as (H & _).
    apply H. cbn. lia.
  - destruct (manual_block_outcome mock_host 3 4 5 (block_request "203.0.113.5")
                (blocked_world mock_host)) as (_ & _ & _ & _ & H).
    apply H; vm_compute; congruence.
  - destruct (manual_block_outcome mock_host 1700000000000000 1700000000000001
                1700000000000002
                {| mb_ip := "203.0.113.5"; mb_duration_sec := Some 300000000000;
                   mb_note := None |} (fresh_world mock_host)) as (_ & _ & _ & H & _).
    apply H; [cbn; lia | reflexivity | reflexivity].
Defined.

End Durations.
